(** * Mail cache service: import, enrichment, scoring and sorted views

    A shallow embedding of [MailCacheService] (the mail cache and scoring
    engine) together with the part of the Firestore adapter it relies on.

    Conventions of the embedding.
    - JavaScript strings are [string]s; case mapping, white space and word
      characters are the ASCII ones.
    - JavaScript numbers that carry scores are exact rationals [Q]; a field
      that may be [undefined] (or hold [NaN]) is an [option].
    - A thrown [Error] is a value of type [error]; an operation that can throw
      returns a [result].
    - Operations on the document store thread a [world]: the two collections
      used by the service and the trace of the remote effects performed. *)

From Stdlib Require Import QArith Qminmax ZArith Lia String Ascii List Bool.
From Stdlib Require Import Permutation Sorted Lqa.
From stdpp Require Import gmap strings list.

Local Open Scope string_scope.

(** ** JavaScript values and built-ins *)

Module Js.

(** [x || d] on an optional string: the empty string is falsy. *)
Definition truthy (o : option string) : bool :=
  match o with
  | Some s => negb (String.eqb s "")
  | None => false
  end.

(** [Array.isArray(a) && a.length > 0] style guard on an optional array. *)
Definition nonempty {A} (o : option (list A)) : bool :=
  match o with
  | Some (_ :: _) => true
  | _ => false
  end.

Definition lower_ascii (c : ascii) : ascii :=
  let n := nat_of_ascii c in
  if (65 <=? n)%nat && (n <=? 90)%nat then ascii_of_nat (n + 32) else c.

(** [String.prototype.toLowerCase]. *)
Fixpoint toLowerCase (s : string) : string :=
  match s with
  | EmptyString => EmptyString
  | String c r => String (lower_ascii c) (toLowerCase r)
  end.

(** [s.startsWith(p)]. *)
Fixpoint startsWith (p s : string) : bool :=
  match p, s with
  | EmptyString, _ => true
  | String a p', String b s' => Ascii.eqb a b && startsWith p' s'
  | String _ _, EmptyString => false
  end.

(** [s.includes(sub)]. *)
Fixpoint includes (s sub : string) : bool :=
  startsWith sub s ||
  match s with
  | EmptyString => false
  | String _ r => includes r sub
  end.

(** [s.split(sep)] for a one-character separator. *)
Fixpoint split (sep : ascii) (s : string) : list string :=
  match s with
  | EmptyString => [EmptyString]
  | String c r =>
      if Ascii.eqb c sep then EmptyString :: split sep r
      else match split sep r with
           | [] => [String c EmptyString]
           | h :: t => String c h :: t
           end
  end.

(** [s.substring(0, n)]. *)
Definition substring0 (n : nat) (s : string) : string := substring 0 n s.

(** [a.includes(x)] on an array of strings. *)
Definition arr_includes (a : list string) (x : string) : bool :=
  existsb (String.eqb x) a.

(** [a.indexOf(x)]; [None] stands for [-1]. *)
Fixpoint indexOf (a : list string) (x : string) : option nat :=
  match a with
  | [] => None
  | y :: r => if String.eqb y x then Some 0%nat
              else option_map S (indexOf r x)
  end.

(** [a.splice(i, 1)], in place: the array without its element at [i]. *)
Fixpoint splice1 {A} (i : nat) (a : list A) : list A :=
  match a, i with
  | [], _ => []
  | _ :: r, O => r
  | y :: r, S k => y :: splice1 k r
  end.

(** [[...new Set(a)]]: first occurrences, in order. *)
Fixpoint unique_from (seen a : list string) : list string :=
  match a with
  | [] => []
  | x :: r => if arr_includes seen x then unique_from seen r
              else x :: unique_from (x :: seen) r
  end.
Definition unique (a : list string) : list string := unique_from [] a.

(** [Math.min], [Math.max] on numbers. *)
Definition Math_min (a b : Q) : Q := if Qle_bool a b then a else b.
Definition Math_max (a b : Q) : Q := if Qle_bool a b then b else a.

Definition Qgtb (a b : Q) : bool := negb (Qle_bool a b).
Definition Qltb (a b : Q) : bool := negb (Qle_bool b a).
Definition Qgeb (a b : Q) : bool := Qle_bool b a.

(** [x || 0] on an optional number ([0] itself is falsy). *)
Definition or0 (o : option Q) : Q :=
  match o with
  | Some q => q
  | None => 0
  end.

End Js.

(** ** Errors *)

Inductive error : Type :=
| MkError (message : string)       (* system.mkError(message, context) *)
| TypeError                        (* property access on null/undefined *)
| ReferenceError (name : string)   (* use of an undeclared identifier *)
| RemoteError (what : string).     (* a remote call rejected *)

Inductive result (A : Type) : Type :=
| Ok (a : A)
| Throw (e : error).
Arguments Ok {A} a.
Arguments Throw {A} e.

Definition rbind {A B} (r : result A) (k : A -> result B) : result B :=
  match r with
  | Ok a => k a
  | Throw e => Throw e
  end.

(** ** Composite ID codec *)

Record DecomposedId : Type := mkDecomposedId {
  d_userId : string;
  d_accountId : string;
  d_providerId : string
}.

Section Codec.

Variable userId : string.

(** [`${this._userId.substring(0, 8)}#${accountId}#${providerId}`] *)
Definition composeId (accountId providerId : string) : string :=
  Js.substring0 8 userId ++ "#" ++ accountId ++ "#" ++ providerId.

Definition decomposeId (id : string) : result DecomposedId :=
  let parts := Js.split "#" id in
  if (length parts <? 3)%nat then Throw (MkError "Malformed ID")
  else Ok (mkDecomposedId (nth 0 parts "") (nth 1 parts "") (nth 2 parts "")).

End Codec.

(** ** Data model *)

(** One attachment descriptor of a message. *)
Record Attachment : Type := mkAttachment {
  filename : option string;
  size : option Q
}.

Record AttachmentMetadata : Type := mkAttachmentMetadata {
  count : nat;
  types : list string;
  totalSize : Q;
  hasDocuments : bool;
  hasImages : bool;
  hasSpreadsheets : bool;
  hasPresentations : bool;
  hasArchives : bool;
  hasExecutables : bool
}.

Record SentimentMetadata : Type := mkSentimentMetadata {
  tone : string;
  intensity : string;
  emotionalContent : list string
}.

(** A cached mail document.  Only the fields read or written by the import,
    enrichment, scoring and view code are kept.  Every stored document
    carries [_id] (import writes it), the empty string standing for a missing
    one; [importanceScore] and [spamScore] are numbers from the moment a
    message is imported. *)
Record CachedMessage : Type := mkCachedMessage {
  _id : string;
  date : option string;
  title : option string;
  from : option string;
  to : option string;
  autoSummary : option string;
  shortSummary : option string;
  actionItems : option (list string);
  keyPeople : option (list string);
  deadlines : option (list string);
  importanceScore : Q;
  spamScore : Q;
  category : option string;
  sentiment : option string;
  labels : option (list string);
  attachments : option (list Attachment);
  attachmentMetadata : option AttachmentMetadata;
  sentimentMetadata : option SentimentMetadata;
  urgencyScore : option Q;
  deletableScore : option Q;
  priorityScore : option Q;
  priorityLabel : option string;
  decayFactor : option Q;
  decayApplied : bool;
  cachedAt : option string;
  enhancedAt : option string
}.

(** Functional field updates ([{...email, field: v}] and [email.field = v]). *)
Definition set_importanceScore (v : Q) (m : CachedMessage) : CachedMessage :=
  mkCachedMessage m.(_id) m.(date) m.(title) m.(from) m.(to) m.(autoSummary)
    m.(shortSummary) m.(actionItems) m.(keyPeople) m.(deadlines) v
    m.(spamScore) m.(category) m.(sentiment) m.(labels) m.(attachments)
    m.(attachmentMetadata) m.(sentimentMetadata) m.(urgencyScore)
    m.(deletableScore) m.(priorityScore) m.(priorityLabel) m.(decayFactor)
    m.(decayApplied) m.(cachedAt) m.(enhancedAt).

Definition set_spamScore (v : Q) (m : CachedMessage) : CachedMessage :=
  mkCachedMessage m.(_id) m.(date) m.(title) m.(from) m.(to) m.(autoSummary)
    m.(shortSummary) m.(actionItems) m.(keyPeople) m.(deadlines)
    m.(importanceScore) v m.(category) m.(sentiment) m.(labels)
    m.(attachments) m.(attachmentMetadata) m.(sentimentMetadata)
    m.(urgencyScore) m.(deletableScore) m.(priorityScore) m.(priorityLabel)
    m.(decayFactor) m.(decayApplied) m.(cachedAt) m.(enhancedAt).

Definition set_category (v : option string) (m : CachedMessage) : CachedMessage :=
  mkCachedMessage m.(_id) m.(date) m.(title) m.(from) m.(to) m.(autoSummary)
    m.(shortSummary) m.(actionItems) m.(keyPeople) m.(deadlines)
    m.(importanceScore) m.(spamScore) v m.(sentiment) m.(labels)
    m.(attachments) m.(attachmentMetadata) m.(sentimentMetadata)
    m.(urgencyScore) m.(deletableScore) m.(priorityScore) m.(priorityLabel)
    m.(decayFactor) m.(decayApplied) m.(cachedAt) m.(enhancedAt).

Definition set_sentiment (v : option string) (m : CachedMessage) : CachedMessage :=
  mkCachedMessage m.(_id) m.(date) m.(title) m.(from) m.(to) m.(autoSummary)
    m.(shortSummary) m.(actionItems) m.(keyPeople) m.(deadlines)
    m.(importanceScore) m.(spamScore) m.(category) v m.(labels)
    m.(attachments) m.(attachmentMetadata) m.(sentimentMetadata)
    m.(urgencyScore) m.(deletableScore) m.(priorityScore) m.(priorityLabel)
    m.(decayFactor) m.(decayApplied) m.(cachedAt) m.(enhancedAt).

Definition set_labels (v : option (list string)) (m : CachedMessage) : CachedMessage :=
  mkCachedMessage m.(_id) m.(date) m.(title) m.(from) m.(to) m.(autoSummary)
    m.(shortSummary) m.(actionItems) m.(keyPeople) m.(deadlines)
    m.(importanceScore) m.(spamScore) m.(category) m.(sentiment) v
    m.(attachments) m.(attachmentMetadata) m.(sentimentMetadata)
    m.(urgencyScore) m.(deletableScore) m.(priorityScore) m.(priorityLabel)
    m.(decayFactor) m.(decayApplied) m.(cachedAt) m.(enhancedAt).

Definition set_attachmentMetadata (v : option AttachmentMetadata)
    (m : CachedMessage) : CachedMessage :=
  mkCachedMessage m.(_id) m.(date) m.(title) m.(from) m.(to) m.(autoSummary)
    m.(shortSummary) m.(actionItems) m.(keyPeople) m.(deadlines)
    m.(importanceScore) m.(spamScore) m.(category) m.(sentiment) m.(labels)
    m.(attachments) v m.(sentimentMetadata)
    m.(urgencyScore) m.(deletableScore) m.(priorityScore) m.(priorityLabel)
    m.(decayFactor) m.(decayApplied) m.(cachedAt) m.(enhancedAt).

Definition set_sentimentMetadata (v : option SentimentMetadata)
    (m : CachedMessage) : CachedMessage :=
  mkCachedMessage m.(_id) m.(date) m.(title) m.(from) m.(to) m.(autoSummary)
    m.(shortSummary) m.(actionItems) m.(keyPeople) m.(deadlines)
    m.(importanceScore) m.(spamScore) m.(category) m.(sentiment) m.(labels)
    m.(attachments) m.(attachmentMetadata) v
    m.(urgencyScore) m.(deletableScore) m.(priorityScore) m.(priorityLabel)
    m.(decayFactor) m.(decayApplied) m.(cachedAt) m.(enhancedAt).

Definition set_urgencyScore (v : option Q) (m : CachedMessage) : CachedMessage :=
  mkCachedMessage m.(_id) m.(date) m.(title) m.(from) m.(to) m.(autoSummary)
    m.(shortSummary) m.(actionItems) m.(keyPeople) m.(deadlines)
    m.(importanceScore) m.(spamScore) m.(category) m.(sentiment) m.(labels)
    m.(attachments) m.(attachmentMetadata) m.(sentimentMetadata)
    v m.(deletableScore) m.(priorityScore) m.(priorityLabel)
    m.(decayFactor) m.(decayApplied) m.(cachedAt) m.(enhancedAt).

Definition set_deletableScore (v : option Q) (m : CachedMessage) : CachedMessage :=
  mkCachedMessage m.(_id) m.(date) m.(title) m.(from) m.(to) m.(autoSummary)
    m.(shortSummary) m.(actionItems) m.(keyPeople) m.(deadlines)
    m.(importanceScore) m.(spamScore) m.(category) m.(sentiment) m.(labels)
    m.(attachments) m.(attachmentMetadata) m.(sentimentMetadata)
    m.(urgencyScore) v m.(priorityScore) m.(priorityLabel)
    m.(decayFactor) m.(decayApplied) m.(cachedAt) m.(enhancedAt).

Definition set_priorityScore (v : option Q) (m : CachedMessage) : CachedMessage :=
  mkCachedMessage m.(_id) m.(date) m.(title) m.(from) m.(to) m.(autoSummary)
    m.(shortSummary) m.(actionItems) m.(keyPeople) m.(deadlines)
    m.(importanceScore) m.(spamScore) m.(category) m.(sentiment) m.(labels)
    m.(attachments) m.(attachmentMetadata) m.(sentimentMetadata)
    m.(urgencyScore) m.(deletableScore) v m.(priorityLabel)
    m.(decayFactor) m.(decayApplied) m.(cachedAt) m.(enhancedAt).

Definition set_priorityLabel (v : option string) (m : CachedMessage) : CachedMessage :=
  mkCachedMessage m.(_id) m.(date) m.(title) m.(from) m.(to) m.(autoSummary)
    m.(shortSummary) m.(actionItems) m.(keyPeople) m.(deadlines)
    m.(importanceScore) m.(spamScore) m.(category) m.(sentiment) m.(labels)
    m.(attachments) m.(attachmentMetadata) m.(sentimentMetadata)
    m.(urgencyScore) m.(deletableScore) m.(priorityScore) v
    m.(decayFactor) m.(decayApplied) m.(cachedAt) m.(enhancedAt).

Definition set_decay (f : Q) (m : CachedMessage) : CachedMessage :=
  mkCachedMessage m.(_id) m.(date) m.(title) m.(from) m.(to) m.(autoSummary)
    m.(shortSummary) m.(actionItems) m.(keyPeople) m.(deadlines)
    m.(importanceScore) m.(spamScore) m.(category) m.(sentiment) m.(labels)
    m.(attachments) m.(attachmentMetadata) m.(sentimentMetadata)
    m.(urgencyScore) m.(deletableScore) m.(priorityScore) m.(priorityLabel)
    (Some f) true m.(cachedAt) m.(enhancedAt).

(** The per-user index document ([user#<userId>#cached-ids]); its constant
    fields [_id] and [userId] are left out. *)
Record CachedIds : Type := mkCachedIds {
  ids : option (list string);
  inbox : option (list string);
  deletables : option (list string);
  newMail : option (list string);
  summarizationQueue : option (list string);
  updatedAt : option string
}.

(** ** Text helpers used by the scoring passes *)

Definition is_space (c : ascii) : bool :=
  let n := nat_of_ascii c in
  (n =? 32)%nat || ((9 <=? n)%nat && (n <=? 13)%nat).

Definition is_word_char (c : ascii) : bool :=
  let n := nat_of_ascii c in
  ((48 <=? n)%nat && (n <=? 57)%nat) || ((65 <=? n)%nat && (n <=? 90)%nat)
  || ((97 <=? n)%nat && (n <=? 122)%nat) || (n =? 95)%nat.

(** [field && field.toLowerCase().includes(kw)] *)
Definition field_has (f : option string) (kw : string) : bool :=
  match f with
  | Some s => negb (String.eqb s "") && Js.includes (Js.toLowerCase s) kw
  | None => false
  end.

(** [kws.some(kw => (a && a.toLowerCase().includes(kw)) ||
                    (b && b.toLowerCase().includes(kw)))] *)
Definition some_keyword (kws : list string) (a b : option string) : bool :=
  existsb (fun kw => field_has a kw || field_has b kw) kws.

(** The text up to the first ['>'] of [s], if there is one. *)
Fixpoint until_gt (s : string) : option string :=
  match s with
  | EmptyString => None
  | String c r =>
      if Ascii.eqb c ">" then Some EmptyString
      else option_map (String c) (until_gt r)
  end.

(** [s.match(/<([^>]+)>/)?.[1]]: the capture of the leftmost match. *)
Fixpoint match_angle (s : string) : option string :=
  match s with
  | EmptyString => None
  | String c r =>
      if Ascii.eqb c "<" then
        match until_gt r with
        | Some EmptyString => match_angle r
        | Some cap => Some cap
        | None => None
        end
      else match_angle r
  end.

(** Maximal runs of non-space characters of [s], in order; [cur] is the run
    being read, reversed. *)
Fixpoint tokens_from (cur : list ascii) (s : string) : list string :=
  let flush := match cur with
               | [] => []
               | _ => [string_of_list_ascii (rev cur)]
               end in
  match s with
  | EmptyString => flush
  | String c r => if is_space c then flush ++ tokens_from [] r
                  else tokens_from (c :: cur) r
  end.
Definition tokens (s : string) : list string := tokens_from [] s.

(** An ['@'] that is neither the first nor the last character. *)
Fixpoint at_before_last (s : string) : bool :=
  match s with
  | String c (String _ _ as r) => Ascii.eqb c "@" || at_before_last r
  | _ => false
  end.
Definition interior_at (t : string) : bool :=
  match t with
  | String _ r => at_before_last r
  | EmptyString => false
  end.

(** [s.match(/(\S+@\S+)/)?.[1]]: both [\S+] are greedy, so the leftmost match
    is the whole first token with an interior ['@']. *)
Definition match_addr (s : string) : option string :=
  List.find interior_at (tokens s).

(** [email.match(/@([^@]+)$/)?.[1]]: the non-empty text after the last ['@']. *)
Definition match_domain (email : string) : option string :=
  match rev (Js.split "@" email) with
  | last :: _ :: _ => if String.eqb last "" then None else Some last
  | _ => None
  end.

Definition _extractDomainFromEmail (emailAddress : option string) : option string :=
  match emailAddress with
  | None => None
  | Some a =>
      if String.eqb a "" then None
      else match match_angle a with
           | Some email => match_domain email
           | None => match match_addr a with
                     | Some email => match_domain email
                     | None => None
                     end
           end
  end.

(** [addr.match(/<([^>]+)>/)?.[1] || addr] followed by [.split('@')[1]]. *)
Definition domain_part (addr : string) : option string :=
  let email := match match_angle addr with
               | Some e => e   (* a capture of [^>]+ is never empty *)
               | None => addr
               end in
  nth_error (Js.split "@" email) 1.

Definition opt_string_eqb (a b : option string) : bool :=
  match a, b with
  | Some x, Some y => String.eqb x y
  | None, None => true
  | _, _ => false
  end.

(** [if (!email || !email._id) throw ...] *)
Definition valid_email (email : option CachedMessage) (method : string)
  : result CachedMessage :=
  match email with
  | Some e => if negb (String.eqb e.(_id) "") then Ok e
              else Throw (MkError "Required parameter missing: valid email object")
  | None => Throw (MkError "Required parameter missing: valid email object")
  end.

Definition day_ms : Z := 1000 * 60 * 60 * 24.

Definition priorityLabel_of (p : Q) : string :=
  if Js.Qgeb p 0.8 then "Critical"
  else if Js.Qgeb p 0.6 then "High"
  else if Js.Qgeb p 0.4 then "Medium"
  else if Js.Qgeb p 0.2 then "Low"
  else "Minimal".

Definition qlen {A} (l : list A) : Q := inject_Z (Z.of_nat (length l)).

(** ** The scoring passes *)

Section Scoring.

Local Open Scope Q_scope.

(** [this._contacts]: the user's contacts, joined in one string. *)
Variable contacts : string.
(** [new Date(s).getTime()]; [None] stands for an invalid date ([NaN]). *)
Variable Date_getTime : string -> option Z.
(** [Math.exp]. *)
Variable Math_exp : Q -> Q.

(** *** Advanced scoring *)

Definition urgentTerms : list string :=
  ["urgent"; "immediately"; "asap"; "today"; "now"; "deadline"].

Definition deletableCategories : list string :=
  ["promotional"; "notification"; "confirmation"; "newsletter"; "invoice"].

Definition invoiceTerms : list string :=
  ["invoice"; "receipt"; "payment confirmation"; "bill"; "statement"].

Definition deletableLabels : list string :=
  ["Promotional"; "Notification"; "Confirmation"; "Newsletter"].

(** Urgency contributed by the action items (step 1). *)
Definition actionItems_urgency (items : option (list string)) : Q :=
  match items with
  | Some ((_ :: _) as l) =>
      Js.Math_min (qlen l * 0.05) 0.3 +
      (if existsb (fun item =>
             existsb (fun term => Js.includes (Js.toLowerCase item) term)
                     urgentTerms) l
       then 0.1 else 0)
  | _ => 0
  end.

(** A deadline is imminent when it parses as a date that is not later than
    two days from [now] ([tomorrow.setDate(now.getDate() + 2)], taken as 48
    hours); the keyword fallback sits in a [catch] that [new Date] never
    reaches. *)
Definition imminent (now : Z) (deadline : string) : bool :=
  match Date_getTime deadline with
  | Some t => (t <=? now + 2 * day_ms)%Z
  | None => false
  end.

(** Urgency contributed by the deadlines (step 2). *)
Definition deadlines_urgency (now : Z) (ds : option (list string)) : Q :=
  match ds with
  | Some ((_ :: _) as l) =>
      0.2 + (match List.filter (imminent now) l with
             | [] => 0
             | _ :: _ => 0.3
             end)
  | _ => 0
  end.

(** Importance after the sender-relationship boost (step 3). *)
Definition relationship_importance (sender : string) (recipient : option string)
    (imp : Q) : Q :=
  match recipient with
  | Some r =>
      if String.eqb r "" then imp
      else if opt_string_eqb (domain_part sender) (domain_part r)
           then Js.Math_min (imp + 0.1) 1
           else imp
  | None => imp
  end.

(** Urgency and importance adjustments from the sentiment (step 5). *)
Definition sentiment_urgency (s : option string) : Q :=
  if Js.truthy s then
    match s with
    | Some v => if String.eqb (Js.toLowerCase v) "urgent" then 0.3 else 0
    | None => 0
    end
  else 0.

Definition sentiment_importance (s : option string) (imp : Q) : Q :=
  if Js.truthy s then
    match s with
    | Some v =>
        let l := Js.toLowerCase v in
        if String.eqb l "urgent" then Js.Math_min (imp + 0.2) 1
        else if String.eqb l "negative" then Js.Math_min (imp + 0.1) 1
        else imp
    | None => imp
    end
  else imp.

(** The raw deletable score (step 6), before the cap. *)
Definition raw_deletable (e : CachedMessage) : Q :=
  (match e.(category) with
   | Some c => if negb (String.eqb c "") &&
                  Js.arr_includes deletableCategories (Js.toLowerCase c)
               then 0.3 else 0
   | None => 0
   end)
  + (if some_keyword invoiceTerms e.(title) e.(shortSummary) then 0.35 else 0)
  + (match e.(labels) with
     | Some ls =>
         match List.filter (Js.arr_includes deletableLabels) ls with
         | [] => 0
         | (_ :: _) as matching => 0.15 * qlen matching
         end
     | None => 0
     end)
  + (if Js.Qgtb e.(spamScore) 0 then e.(spamScore) * 0.4 else 0).

Definition applyAdvancedScoring (now : Z) (email : option CachedMessage)
  : result CachedMessage :=
  rbind (valid_email email "MailCacheService.applyAdvancedScoring") (fun e =>
  let urgency12 := actionItems_urgency e.(actionItems)
                   + deadlines_urgency now e.(deadlines) in
  match e.(from) with
  | None => Throw TypeError          (* scoredEmail.from.match(...) *)
  | Some sender =>
      let imp3 := relationship_importance sender e.(to) e.(importanceScore) in
      let urgency := urgency12 + sentiment_urgency e.(sentiment) in
      let imp := sentiment_importance e.(sentiment) imp3 in
      let deletable := Js.Math_min (raw_deletable e) 1 in
      let urgencyS := Js.Math_min urgency 1 in
      let priority :=
        Js.Math_max
          (Js.Math_min (0.7 * imp + 0.3 * urgencyS - 0.5 * deletable) 1) 0 in
      Ok (set_priorityLabel (Some (priorityLabel_of priority))
         (set_priorityScore (Some priority)
         (set_urgencyScore (Some urgencyS)
         (set_deletableScore (Some deletable)
         (set_importanceScore imp e)))))
  end).

(** *** Categorization *)

Definition promotionalKeywords : list string :=
  ["offer"; "discount"; "promotion"; "sale"; "deal"; "coupon"; "save";
   "limited time"; "exclusive"; "buy now"; "off"; "free"; "promo"].
Definition newsletterKeywords : list string :=
  ["newsletter"; "digest"; "weekly"; "monthly"; "update"; "bulletin";
   "roundup"; "recap"; "summary"; "edition"].
Definition financialKeywords : list string :=
  ["invoice"; "payment"; "transaction"; "receipt"; "order"; "subscription";
   "credit card"; "billing"; "statement"; "paid"; "purchase"; "tax";
   "refund"; "balance"; "account"; "finance"; "bank"; "money"].
Definition invoiceKeywords : list string :=
  ["invoice"; "bill"; "receipt"; "statement"; "payment confirmation"].
Definition responseKeywords : list string :=
  ["let me know"; "please respond"; "reply"; "response"; "get back to me";
   "what do you think"; "your thoughts"; "your opinion"].
Definition socialKeywords : list string :=
  ["connect"; "connection"; "friend"; "following"; "follower"; "liked";
   "commented"; "shared"; "social media"; "network"; "community"; "profile";
   "group"].
Definition socialSenders : list string :=
  ["facebook"; "instagram"; "linkedin"; "twitter"; "tiktok"; "snapchat";
   "pinterest"; "youtube"; "reddit"; "discord"; "slack"].
Definition eventKeywords : list string :=
  ["invitation"; "invite"; "event"; "party"; "celebration"; "gathering";
   "meeting"; "webinar"; "conference"; "workshop"; "join us"; "calendar";
   "schedule"; "agenda"; "rsvp"; "attend"; "save the date"].
Definition surveyKeywords : list string :=
  ["survey"; "feedback"; "questionnaire"; "opinion"; "rate"; "rating";
   "review"; "satisfaction"; "poll"; "evaluation"; "assessment";
   "how did we do"].
Definition notificationKeywords : list string :=
  ["notification"; "alert"; "update"; "status"; "changed"; "activity";
   "notice"; "reminder"; "notify"; "fyi"; "attention"].
Definition notificationSenders : list string :=
  ["noreply"; "no-reply"; "donotreply"; "notification"; "alert"; "system";
   "updates"; "info"].
Definition followupKeywords : list string :=
  ["follow up"; "following up"; "checking in"; "reminder"; "as discussed";
   "as promised"; "as mentioned"; "as requested"].
Definition confirmationKeywords : list string :=
  ["confirmation"; "confirmed"; "verify"; "verified"; "complete";
   "completed"; "success"; "successful"; "approved"; "processed";
   "received"; "thank you for"; "order confirmed"; "booking confirmed";
   "reservation confirmed"; "registered"].
Definition businessKeywords : list string :=
  ["business"; "company"; "corporate"; "client"; "project"; "deadline";
   "contract"; "proposal"; "agreement"; "meeting"; "vendor"; "partner";
   "stakeholder"; "roi"; "kpi"; "metrics"; "performance"; "professional";
   "report"; "quarterly"].
Definition personalDomains : list string :=
  ["gmail.com"; "yahoo.com"; "hotmail.com"; "outlook.com"; "aol.com";
   "icloud.com"].
Definition personalKeywords : list string :=
  ["personal"; "family"; "friend"; "private"; "home"; "birthday";
   "anniversary"; "vacation"; "holiday"; "gift"; "congratulations";
   "best wishes"; "regards"; "love"; "miss you"; "thinking of you"; "visit";
   "dinner"; "lunch"].

(** The mutable locals of [categorizeEmail]: the label array, the
    insertion-ordered set [detectedCategories] and the deletable score. *)
Record CatState : Type := mkCatState {
  c_labels : list string;
  c_detected : list string;
  c_deletable : option Q
}.

Definition set_add (d : list string) (x : string) : list string :=
  if Js.arr_includes d x then d else d ++ [x].

Definition push (x : string) (st : CatState) : CatState :=
  mkCatState (st.(c_labels) ++ [x]) st.(c_detected) st.(c_deletable).

(** [if (cond && !labels.includes(name)) { labels.push(name);
     detectedCategories.add(name); }] *)
Definition detect (name : string) (cond : bool) (st : CatState) : CatState :=
  if cond && negb (Js.arr_includes st.(c_labels) name)
  then mkCatState (st.(c_labels) ++ [name]) (set_add st.(c_detected) name)
                  st.(c_deletable)
  else st.

(** [String(email.from)] as the argument of [contacts.includes(...)]. *)
Definition from_as_text (f : option string) : string :=
  match f with
  | Some s => s
  | None => "null"
  end.

(** [kws.some(...)] over the short summary and the title. *)
Definition kw (e : CachedMessage) (ks : list string) : bool :=
  some_keyword ks e.(shortSummary) e.(title).

(** The sixteen numbered steps of [categorizeEmail], each as an update of
    the locals. *)

(* 1. the category given by the model *)
Definition step_category (e : CachedMessage) (st : CatState) : CatState :=
  match e.(category) with
  | Some c => detect c (negb (String.eqb c "")) st
  | None => st
  end.

(* 2. promotional *)
Definition step_promotional (e : CachedMessage) (st : CatState) : CatState :=
  detect "Promotional"
    (kw e promotionalKeywords ||
     (Js.Qgtb e.(spamScore) 0.3 && Js.Qltb e.(spamScore) 0.7)) st.

(* 3. newsletter *)
Definition step_newsletter (e : CachedMessage) (st : CatState) : CatState :=
  detect "Newsletter" (kw e newsletterKeywords) st.

(* 4. financial, and invoices *)
Definition step_financial (e : CachedMessage) (st : CatState) : CatState :=
  if kw e financialKeywords && negb (Js.arr_includes st.(c_labels) "Financial")
  then
    let st' := detect "Financial" true st in
    if kw e invoiceKeywords
    then mkCatState (st'.(c_labels) ++ ["Invoice"]) st'.(c_detected)
                    (Some (Js.or0 st'.(c_deletable) + 0.4))
    else st'
  else st.

(* 5. action required *)
Definition step_action (e : CachedMessage) (st : CatState) : CatState :=
  match e.(actionItems) with
  | Some ((_ :: _) as items) =>
      let st' := push "Action Required" st in
      if existsb (fun k =>
           field_has e.(autoSummary) k ||
           existsb (fun item => Js.includes (Js.toLowerCase item) k) items)
           responseKeywords
      then push "Response Needed" st' else st'
  | _ => st
  end.

(* 6. time sensitivity *)
Definition step_time (e : CachedMessage) (st : CatState) : CatState :=
  if Js.nonempty e.(deadlines) ||
     (match e.(urgencyScore) with
      | Some u => Js.Qgtb u 0.6
      | None => false
      end)
  then push "Time Sensitive" st else st.

(* 7. social *)
Definition step_social (e : CachedMessage) (st : CatState) : CatState :=
  detect "Social"
    (kw e socialKeywords || existsb (field_has e.(from)) socialSenders) st.

(* 8. event *)
Definition step_event (e : CachedMessage) (st : CatState) : CatState :=
  detect "Event" (kw e eventKeywords) st.

(* 9. survey *)
Definition step_survey (e : CachedMessage) (st : CatState) : CatState :=
  detect "Survey" (kw e surveyKeywords) st.

(* 10. notification *)
Definition step_notification (e : CachedMessage) (st : CatState) : CatState :=
  detect "Notification"
    (kw e notificationKeywords ||
     existsb (field_has e.(from)) notificationSenders) st.

(* 11. follow-up *)
Definition step_followup (e : CachedMessage) (st : CatState) : CatState :=
  if kw e followupKeywords then push "Follow-up" st else st.

(* 12. confirmation *)
Definition step_confirmation (e : CachedMessage) (st : CatState) : CatState :=
  detect "Confirmation" (kw e confirmationKeywords) st.

(* 13. business *)
Definition step_business (e : CachedMessage) (st : CatState) : CatState :=
  let isLikelyBusiness :=
    match _extractDomainFromEmail e.(from) with
    | Some d => negb (existsb (fun p => Js.includes d p) personalDomains)
    | None => false
    end in
  detect "Business"
    ((kw e businessKeywords || isLikelyBusiness) &&
     negb (Js.arr_includes st.(c_detected) "Personal")) st.

(* 14. personal *)
Definition step_personal (e : CachedMessage) (st : CatState) : CatState :=
  let isFromContact :=
    negb (String.eqb contacts "") &&
    Js.includes contacts (from_as_text e.(from)) in
  detect "Personal"
    ((kw e personalKeywords || isFromContact) &&
     negb (Js.arr_includes st.(c_detected) "Business")) st.

(* 15. information sharing *)
Definition step_information (e : CachedMessage) (st : CatState) : CatState :=
  match e.(actionItems), st.(c_detected) with
  | Some [], [] => push "Information" st
  | _, _ => st
  end.

(* 16. high importance *)
Definition step_important (e : CachedMessage) (st : CatState) : CatState :=
  match e.(priorityLabel) with
  | Some l => if String.eqb l "Critical" || String.eqb l "High"
              then push "Important" st else st
  | None => st
  end.

(** The steps after the financial one, in order. *)
Definition later_steps (e : CachedMessage) : list (CatState -> CatState) :=
  [step_action e; step_time e; step_social e; step_event e; step_survey e;
   step_notification e; step_followup e; step_confirmation e;
   step_business e; step_personal e; step_information e; step_important e].

Definition categorize_steps (e : CachedMessage) : CatState :=
  let st0 := mkCatState (match e.(labels) with Some l => l | None => [] end)
                        [] e.(deletableScore) in
  fold_left (fun st step => step st) (later_steps e)
    (step_financial e
       (step_newsletter e (step_promotional e (step_category e st0)))).

Definition categorizeEmail (email : option CachedMessage)
  : result CachedMessage :=
  rbind (valid_email email "MailCacheService.categorizeEmail") (fun e =>
  let st := categorize_steps e in
  let e1 := set_deletableScore st.(c_deletable)
              (set_labels (Some (Js.unique st.(c_labels))) e) in
  Ok (if negb (Js.truthy e.(category))
      then match st.(c_detected) with
           | first :: _ => set_category (Some first) e1
           | [] => e1
           end
      else e1)).

(** *** Attachment processing *)

(** The extension table [typeMap]; an extension outside it is ['other'].
    (Extensions that name a property inherited from [Object.prototype] are
    not modelled.) *)
Definition typeMap (extension : string) : string :=
  if Js.arr_includes ["pdf"; "doc"; "docx"; "txt"; "rtf"; "odt"] extension
  then "document"
  else if Js.arr_includes ["xls"; "xlsx"; "csv"; "ods"] extension
  then "spreadsheet"
  else if Js.arr_includes ["ppt"; "pptx"; "odp"] extension
  then "presentation"
  else if Js.arr_includes ["jpg"; "jpeg"; "png"; "gif"; "bmp"; "svg"] extension
  then "image"
  else if Js.arr_includes ["zip"; "rar"; "7z"; "tar"; "gz"] extension
  then "archive"
  else if Js.arr_includes ["exe"; "msi"; "app"; "dmg"; "bat"; "sh"] extension
  then "executable"
  else "other".

(** [filename.split('.').pop().toLowerCase()] *)
Definition extension_of (name : string) : string :=
  Js.toLowerCase (List.last (Js.split "." name) "").

(** One round of the [attachments.forEach] loop. *)
Definition scan_attachment (md : AttachmentMetadata) (a : Attachment)
  : AttachmentMetadata :=
  let total := match a.(size) with
               | Some s => if Qeq_bool s 0 then md.(totalSize)
                           else md.(totalSize) + s
               | None => md.(totalSize)
               end in
  match a.(filename) with
  | Some name =>
      if String.eqb name "" then
        mkAttachmentMetadata md.(count) md.(types) total md.(hasDocuments)
          md.(hasImages) md.(hasSpreadsheets) md.(hasPresentations)
          md.(hasArchives) md.(hasExecutables)
      else
        let ty := typeMap (extension_of name) in
        mkAttachmentMetadata md.(count)
          (if Js.arr_includes md.(types) ty then md.(types)
           else md.(types) ++ [ty])
          total
          (md.(hasDocuments) || String.eqb ty "document")
          (md.(hasImages) || String.eqb ty "image")
          (md.(hasSpreadsheets) || String.eqb ty "spreadsheet")
          (md.(hasPresentations) || String.eqb ty "presentation")
          (md.(hasArchives) || String.eqb ty "archive")
          (md.(hasExecutables) || String.eqb ty "executable")
  | None =>
      mkAttachmentMetadata md.(count) md.(types) total md.(hasDocuments)
        md.(hasImages) md.(hasSpreadsheets) md.(hasPresentations)
        md.(hasArchives) md.(hasExecutables)
  end.

Definition invoiceAttachmentKeywords : list string :=
  ["invoice"; "receipt"; "bill"; "statement"].

Definition push_if (c : bool) (x : string) (l : list string) : list string :=
  if c then l ++ [x] else l.

Definition processAttachments (email : option CachedMessage)
  : result CachedMessage :=
  rbind (valid_email email "MailCacheService.processAttachments") (fun e =>
  match e.(attachments) with
  | None | Some [] => Ok e
  | Some atts =>
      let md := fold_left scan_attachment atts
                  (mkAttachmentMetadata (length atts) [] 0 false false false
                                        false false false) in
      let hasInvoiceAttachment :=
        existsb (fun a => existsb (field_has a.(filename))
                                  invoiceAttachmentKeywords) atts in
      let ls0 := match e.(labels) with Some l => l | None => [] end in
      let ls :=
        push_if md.(hasExecutables) "Has Executables"
        (push_if md.(hasPresentations) "Has Presentations"
        (push_if md.(hasSpreadsheets) "Has Spreadsheets"
        (push_if md.(hasDocuments) "Has Documents"
        (push_if hasInvoiceAttachment "Invoice Attachment"
        (ls0 ++ ["Has Attachments"]))))) in
      let del := if hasInvoiceAttachment
                 then Some (Js.or0 e.(deletableScore) + 0.3)
                 else e.(deletableScore) in
      let spam := if md.(hasExecutables)
                  then Js.Math_min (e.(spamScore) + 0.2) 1
                  else e.(spamScore) in
      let imp :=
        if (md.(hasDocuments) || md.(hasSpreadsheets) || md.(hasPresentations))
           && Js.Qltb e.(importanceScore) 0.7
        then Js.Math_min (e.(importanceScore) + 0.15) 0.85
        else e.(importanceScore) in
      Ok (set_labels (Some (Js.unique ls))
         (set_importanceScore imp
         (set_spamScore spam
         (set_deletableScore del
         (set_attachmentMetadata (Some md) e)))))
  end).

(** *** Sentiment analysis and temporal decay *)

Definition positiveWords : list string :=
  ["thank"; "thanks"; "appreciate"; "good"; "great"; "excellent"; "awesome";
   "happy"; "pleased"; "glad"; "congratulations"; "well done"; "success"].
Definition negativeWords : list string :=
  ["issue"; "problem"; "error"; "mistake"; "fault"; "wrong"; "bad"; "poor";
   "sorry"; "apology"; "unfortunate"; "regret"; "concern"; "disappointing"].
Definition urgentWords : list string :=
  ["urgent"; "immediately"; "asap"; "emergency"; "critical"; "important";
   "deadline"; "priority"; "crucial"; "vital"; "urgent attention"].

(** [\b]: exactly one of the two neighbouring positions holds a word
    character (a missing neighbour counts as a non-word character). *)
Definition boundary (a b : option ascii) : bool :=
  xorb (match a with Some c => is_word_char c | None => false end)
       (match b with Some c => is_word_char c | None => false end).

(** Does [/\bw\b/] match at the head of [s], [prev] being the character
    before it? *)
Definition word_at (w : string) (prev : option ascii) (s : string) : bool :=
  Js.startsWith w s
  && boundary prev (String.get 0 s)
  && boundary (String.get (String.length w - 1) s)
              (String.get (String.length w) s).

(** The number of matches of [/\bw\b/g] in [s]: after a match the search
    resumes behind it, [skip] counting the characters still covered. *)
Fixpoint count_word (w : string) (prev : option ascii) (skip : nat)
    (s : string) : nat :=
  match s with
  | EmptyString => 0
  | String c r =>
      match skip with
      | S k => count_word w (Some c) k r
      | O => if word_at w prev s
             then S (count_word w (Some c) (String.length w - 1) r)
             else count_word w (Some c) 0 r
      end
  end.

Definition count_words (ws : list string) (content : string) : nat :=
  fold_left (fun n w => (n + count_word w None 0 content)%nat) ws 0%nat.

(** [content.split(/\s+/).length]: one more than the number of maximal
    runs of white space. *)
Fixpoint space_runs (in_run : bool) (s : string) : nat :=
  match s with
  | EmptyString => 0
  | String c r =>
      if is_space c then (if in_run then space_runs true r
                          else S (space_runs true r))
      else space_runs false r
  end.

Definition or_empty (o : option string) : string :=
  match o with
  | Some s => s
  | None => ""
  end.

Definition qnat (n : nat) : Q := inject_Z (Z.of_nat n).

Definition tone_of (positive negative urgent : nat) : string :=
  if (Nat.max positive negative <? urgent)%nat then "urgent"
  else if Js.Qgtb (qnat positive) (qnat negative * 1.5) then "positive"
  else if Js.Qgtb (qnat negative) (qnat positive * 1.5) then "negative"
  else "neutral".

Definition intensity_of (total words : nat) : string :=
  let density := if (0 <? words)%nat then qnat total / qnat words else 0 in
  if Js.Qgtb density 0.1 then "high"
  else if Js.Qgtb density 0.05 then "moderate"
  else "low".

(** [new Date(email.date).getTime()]; a [null] date is the epoch. *)
Definition email_time (d : option string) : option Z :=
  match d with
  | Some s => Date_getTime s
  | None => Some 0%Z
  end.

(** [(now - emailDate) / (1000 * 60 * 60 * 24)] *)
Definition ageInDays (now t : Z) : Q := inject_Z (now - t) / inject_Z day_ms.

Definition decay_factor (age : Q) : Q := Math_exp (- 0.1 * (age - 3)).

(** The decay block at the end of [applySentimentAnalysis]; [original] is
    the argument [email] of the call, [a] the clone being updated. *)
Definition apply_decay (now : Z) (original a : CachedMessage) : CachedMessage :=
  match email_time a.(date) with
  | Some t =>
      let age := ageInDays now t in
      if Js.Qgtb age 3 then
        let f := decay_factor age in
        let priority :=
          match a.(priorityScore), original.(priorityScore) with
          | Some p, Some p0 => Some (Js.Math_max (p * f) (p0 * 0.3))
          | _, _ => None
          end in
        set_decay f (set_priorityScore priority a)
      else a
  | None => a
  end.

Definition applySentimentAnalysis (now : Z) (email : option CachedMessage)
  : result CachedMessage :=
  rbind (valid_email email "MailCacheService.applySentimentAnalysis") (fun e =>
  if Js.truthy e.(sentiment) then Ok e
  else
    let content := or_empty e.(autoSummary) ++ " " ++ or_empty e.(shortSummary)
                   ++ " " ++ or_empty e.(title) in
    let contentLower := Js.toLowerCase content in
    let positiveCount := count_words positiveWords contentLower in
    let negativeCount := count_words negativeWords contentLower in
    let urgentCount := count_words urgentWords contentLower in
    let emotional :=
      push_if (0 <? urgentCount)%nat "urgent"
      (push_if (0 <? negativeCount)%nat "negative"
      (push_if (0 <? positiveCount)%nat "positive" [])) in
    let tone := tone_of positiveCount negativeCount urgentCount in
    let intensity :=
      intensity_of (positiveCount + negativeCount + urgentCount)
                   (S (space_runs false content)) in
    let a1 := set_sentiment (Some tone)
                (set_sentimentMetadata
                   (Some (mkSentimentMetadata tone intensity emotional)) e) in
    let a2 :=
      if String.eqb tone "urgent" then
        set_importanceScore (Js.Math_min (a1.(importanceScore) + 0.1) 1)
          (set_urgencyScore
             (Some (Js.Math_min
                      (match a1.(urgencyScore) with
                       | Some u => if Qeq_bool u 0 then 0.7 else u + 0.2
                       | None => 0.7
                       end) 1)) a1)
      else if String.eqb tone "negative" && String.eqb intensity "high" then
        set_importanceScore (Js.Math_min (a1.(importanceScore) + 0.1) 1) a1
      else a1 in
    Ok (apply_decay now e a2)).

End Scoring.

(** ** The document store and the remote effects *)

Definition MAIL_COLLECTION : string := "k2o-mail".
Definition USER_COLLECTION : string := "k2o-user".
Definition LABEL_ID : string := "INBOX".
Definition BATCH_SIZE : nat := 5.

(** What the service does to the outside, in order. *)
Inductive event : Type :=
| EvWrite (collection key : string)        (* firestore.write *)
| EvList (accountId label : string)        (* gmailClient.getIdsByLabel *)
| EvFetch (accountId emailId : string)     (* gmailClient.get *)
| EvLogInfo (message : string)             (* system.logInfo *)
| EvLogError (message : string) (emailId : string).   (* system.logError *)

(** The two collections the service uses, and the effects performed so far
    (latest last). *)
Record world : Type := mkWorld {
  mail : gmap string CachedMessage;
  users : gmap string CachedIds;
  trace : list event
}.

(** Computations that read and write the world and may throw; the world
    reached when the exception is thrown is kept. *)
Definition M (A : Type) : Type := world -> result A * world.

Definition ret {A} (a : A) : M A := fun w => (Ok a, w).
Definition throw {A} (e : error) : M A := fun w => (Throw e, w).
Definition bind {A B} (m : M A) (k : A -> M B) : M B :=
  fun w => match m w with
           | (Ok a, w') => k a w'
           | (Throw e, w') => (Throw e, w')
           end.
Definition lift {A} (r : result A) : M A := fun w => (r, w).

Declare Scope m_scope.
Delimit Scope m_scope with M.
Notation "'let*' x ':=' m 'in' k" := (bind m (fun x => k))
  (at level 10, x name, m at level 100, k at level 200) : m_scope.
Notation "'run' m 'then' k" := (bind m (fun _ => k))
  (at level 10, m at level 100, k at level 200) : m_scope.

Definition emit (ev : event) : M unit :=
  fun w => (Ok tt, mkWorld w.(mail) w.(users) (w.(trace) ++ [ev])).

Definition logInfo (message : string) : M unit := emit (EvLogInfo message).
Definition logError (message emailId : string) : M unit :=
  emit (EvLogError message emailId).

(** [firestore.read(USER_COLLECTION, key)]: the document or [null]. *)
Definition read_user (key : string) : M (option CachedIds) :=
  fun w => (Ok (w.(users) !! key), w).

(** [firestore.read(MAIL_COLLECTION, key)]. *)
Definition read_mail (key : string) : M (option CachedMessage) :=
  fun w => (Ok (w.(mail) !! key), w).

(** [firestore.write(USER_COLLECTION, key, data)]: the document is replaced. *)
Definition write_user (key : string) (data : CachedIds) : M unit :=
  fun w => (Ok tt, mkWorld w.(mail) (<[key := data]> w.(users))
                           (w.(trace) ++ [EvWrite USER_COLLECTION key])).

(** [firestore.write(MAIL_COLLECTION, key, data)]. *)
Definition write_mail (key : string) (data : CachedMessage) : M unit :=
  fun w => (Ok tt, mkWorld (<[key := data]> w.(mail)) w.(users)
                           (w.(trace) ++ [EvWrite MAIL_COLLECTION key])).

(** [await Promise.all(l.map(f))] for callbacks that do not interleave. *)
Fixpoint mapM {A B} (f : A -> M B) (l : list A) : M (list B) :=
  match l with
  | [] => ret []
  | x :: r => (let* y := f x in let* ys := mapM f r in ret (y :: ys))%M
  end.

(** [Array.prototype.sort(cmp)]: a stable sort, written as an insertion
    sort; [x] is placed before the first element it does not have to follow.
    (For a comparator that is a total preorder, as the two used here, every
    stable sort returns this array.) *)
Fixpoint insert_by {A} (cmp : A -> A -> Q) (x : A) (l : list A) : list A :=
  match l with
  | [] => [x]
  | y :: r => if Qle_bool (cmp x y) 0 then x :: y :: r
              else y :: insert_by cmp x r
  end.
Definition js_sort {A} (cmp : A -> A -> Q) (l : list A) : list A :=
  fold_right (insert_by cmp) [] l.

(** A linked account of the user. *)
Record Account : Type := mkAccount {
  acc_type : string;
  token : option string
}.

(** The parsed reply of the language model; a field is [None] when it is
    absent or not of the type the validation asks for. *)
Record AiData : Type := mkAiData {
  ai_extendedSummary : option string;
  ai_shortSummary : option string;
  ai_actionItems : option (list string);
  ai_keyPeople : option (list string);
  ai_deadlines : option (list string);
  ai_importanceScore : option Q;
  ai_spamScore : option Q;
  ai_category : option string;
  ai_sentiment : option string
}.

(** What [gmailClient.get] returns, as far as the cache reads it. *)
Record EmailData : Type := mkEmailData {
  e_date : option string;
  e_title : option string;
  e_from : option string;
  e_to : option string
}.

Inductive AiReply : Type :=
| NoJsonObject                  (* no '{' ... '}' in the reply *)
| Unparsable                    (* JSON.parse throws *)
| Parsed (data : AiData).

(** ** The service *)

Section Service.

Local Open Scope Q_scope.
Local Open Scope m_scope.

(** [this._userId], [this._contacts]. *)
Variable userId : string.
Variable contacts : string.
(** Built-ins of the runtime: date parsing, [Math.exp] and
    [new Date(ms).toISOString()]. *)
Variable Date_getTime : string -> option Z.
Variable Math_exp : Q -> Q.
Variable toISOString : Z -> string.
(** Collaborators: the user's linked accounts ([user.getUserAccounts]), the
    Google client secrets, the remote mailbox (listing under a label,
    fetching one message) and the language model with its reply parsed. *)
Variable getUserAccounts : result (list (string * Account)).
Variable getGoogleSecrets : result unit.
Variable getIdsByLabel : string -> string -> result (list string).
Variable gmail_get : string -> string -> result EmailData.
Variable converse : CachedMessage -> result AiReply.

(** [this._cacheIdsKey] *)
Definition cacheIdsKey : string := "user#" ++ userId ++ "#cached-ids".

(** *** Point lookup and the two views *)

Definition get (id : string) : M (option CachedMessage) :=
  if String.eqb id "" then throw (MkError "Required parameter missing: id")
  else read_mail id.

(** [(await firestore.read(...)).inbox] *)
Definition getInbox : M (option (list string)) :=
  let* doc := read_user cacheIdsKey in
  match doc with
  | Some d => ret d.(inbox)
  | None => throw TypeError
  end.

(** [cachedIds?.deletables || []] *)
Definition getDeletables : M (list string) :=
  let* doc := read_user cacheIdsKey in
  ret (match doc with
       | Some d => match d.(deletables) with
                   | Some l => l
                   | None => []
                   end
       | None => []
       end).

(** *** View maintenance *)

(** [(b.priorityScore || 0) - (a.priorityScore || 0)] *)
Definition by_priority (a b : CachedMessage) : Q :=
  Js.or0 b.(priorityScore) - Js.or0 a.(priorityScore).
Definition by_deletable (a b : CachedMessage) : Q :=
  Js.or0 b.(deletableScore) - Js.or0 a.(deletableScore).

(** The documents of a list of look-ups; a [null] among them makes the
    comparator or [email._id] throw. *)
Fixpoint all_found (l : list (option CachedMessage))
  : result (list CachedMessage) :=
  match l with
  | [] => Ok []
  | Some e :: r => rbind (all_found r) (fun es => Ok (e :: es))
  | None :: _ => Throw TypeError
  end.

Definition updateInbox (now : Z) (cachedIds : CachedIds) : M unit :=
  match cachedIds.(inbox) with
  | None => throw TypeError            (* cachedIds.inbox.map *)
  | Some inbox_ids =>
      let* found := mapM get inbox_ids in
      let* loaded := lift (all_found found) in
      let emails := js_sort by_priority loaded in
      let deletableEmails := js_sort by_deletable emails in
      run write_user cacheIdsKey
            (mkCachedIds cachedIds.(ids)
                         (Some (map _id emails))
                         (Some (map _id deletableEmails))
                         cachedIds.(newMail)
                         cachedIds.(summarizationQueue)
                         (Some (toISOString now))) then
      logInfo "Inbox updated"
  end.

(** *** Archive *)

Definition archive (now : Z) (id : string) : M unit :=
  if String.eqb id "" then throw (MkError "Required parameter missing: id")
  else
    let* doc := read_user cacheIdsKey in
    match doc with
    | None => throw (MkError "Inbox not found")
    | Some cachedIds =>
        match cachedIds.(inbox) with
        | None => throw (MkError "Inbox not found")
        | Some inbox_ids =>
            match Js.indexOf inbox_ids id with
            | None => throw (MkError "Email not found in inbox")
            | Some inboxIndex =>
                let inbox' := Js.splice1 inboxIndex inbox_ids in
                let deletables' :=
                  match cachedIds.(deletables) with
                  | Some ds => match Js.indexOf ds id with
                               | Some deletablesIndex =>
                                   Some (Js.splice1 deletablesIndex ds)
                               | None => Some ds
                               end
                  | None => None
                  end in
                write_user cacheIdsKey
                  (mkCachedIds cachedIds.(ids) (Some inbox') deletables'
                               cachedIds.(newMail)
                               cachedIds.(summarizationQueue)
                               (Some (toISOString now)))
            end
        end
    end.

(** *** Import *)

Definition emptyCachedIds : CachedIds :=
  mkCachedIds (Some []) (Some []) (Some []) (Some []) (Some []) None.

(** The document written for a newly listed message. *)
Definition newDocument (now : Z) (compositeId : string) (d : EmailData)
  : CachedMessage :=
  mkCachedMessage compositeId d.(e_date) d.(e_title) d.(e_from) d.(e_to)
    None None None None None 0 0 None None None None None None None None
    None None None false (Some (toISOString now)) None.

(** The inner [for (const emailId of newEmailIds)] loop. *)
Fixpoint fetch_new (now : Z) (accountId : string) (newEmailIds : list string)
    (newIds : list string) : M (list string) :=
  match newEmailIds with
  | [] => ret newIds
  | emailId :: r =>
      run emit (EvFetch accountId emailId) then
      let* emailData := lift (gmail_get accountId emailId) in
      let compositeId := composeId userId accountId emailId in
      run write_mail compositeId (newDocument now compositeId emailData) then
      fetch_new now accountId r (newIds ++ [compositeId])%list
  end.

(** [emailIds.filter(id => !cachedIds.ids.includes(composeId(accountId, id)))] *)
Definition newEmailIds_of (cachedIds : CachedIds) (accountId : string)
    (emailIds : list string) : result (list string) :=
  match emailIds, cachedIds.(ids) with
  | [], _ => Ok []
  | _ :: _, None => Throw TypeError
  | _ :: _, Some known =>
      Ok (List.filter
            (fun emailId =>
               negb (Js.arr_includes known (composeId userId accountId emailId)))
            emailIds)
  end.

(** One round of [for (const [accountId, accountData] of googleAccounts)];
    the state is the pair of the arrays [inbox] and [newIds]. *)
Definition import_account (now : Z) (cachedIds : CachedIds)
    (st : list string * list string) (acc : string * Account)
  : M (list string * list string) :=
  let '(inbox_acc, newIds) := st in
  let '(accountId, accountData) := acc in
  run logInfo ("Processing account for new mail: " ++ accountId) then
  if negb (Js.truthy accountData.(token))
  then throw (MkError "Missing refresh token for account")
  else
    run emit (EvList accountId LABEL_ID) then
    let* emailIds := lift (getIdsByLabel accountId LABEL_ID) in
    let inbox' := (inbox_acc ++ map (composeId userId accountId) emailIds)%list in
    let* newEmailIds := lift (newEmailIds_of cachedIds accountId emailIds) in
    run logInfo "Found new emails" then
    let* newIds' := fetch_new now accountId newEmailIds newIds in
    ret (inbox', newIds').

Fixpoint import_accounts (now : Z) (cachedIds : CachedIds)
    (accs : list (string * Account)) (st : list string * list string)
  : M (list string * list string) :=
  match accs with
  | [] => ret st
  | acc :: r =>
      let* st' := import_account now cachedIds st acc in
      import_accounts now cachedIds r st'
  end.

(** [a.concat(b)] on a possibly undefined array [a]. *)
Definition concat_field (a : option (list string)) (b : list string)
  : result (list string) :=
  match a with
  | Some l => Ok (l ++ b)%list
  | None => Throw TypeError
  end.

Definition importNewEmails (now : Z) : M unit :=
  let* doc := read_user cacheIdsKey in
  let cachedIds := match doc with
                   | Some d => d
                   | None => emptyCachedIds
                   end in
  let oldMail := match cachedIds.(newMail) with
                 | Some l => l
                 | None => []
                 end in
  let* accounts := lift getUserAccounts in
  let googleAccounts :=
    List.filter (fun acc => String.eqb (snd acc).(acc_type) "google") accounts in
  match googleAccounts with
  | [] => logInfo "No Google accounts found for user"
  | _ :: _ =>
      let* _secrets := lift getGoogleSecrets in
      let* st := import_accounts now cachedIds googleAccounts ([], []) in
      let '(inbox_new, newIds) := st in
      let* ids' := lift (concat_field cachedIds.(ids) newIds) in
      let* queue' := lift (concat_field cachedIds.(summarizationQueue) newIds) in
      run write_user cacheIdsKey
            (mkCachedIds (Some ids') (Some inbox_new) None
                         (Some (oldMail ++ newIds)%list) (Some queue')
                         (Some (toISOString now))) then
      logInfo "Mail cache refresh completed"
  end.

(** *** Enrichment *)

Definition in_unit (q : Q) : bool := Js.Qgeb q 0 && Qle_bool q 1.

(** [isValidResponse] and the enhanced object returned when it holds:
    every field present with the right type, both scores within [0, 1]. *)
Definition enhanced_with (now : Z) (d : AiData) (e : CachedMessage)
  : option CachedMessage :=
  match d.(ai_extendedSummary), d.(ai_shortSummary), d.(ai_actionItems),
        d.(ai_keyPeople), d.(ai_deadlines), d.(ai_importanceScore),
        d.(ai_spamScore), d.(ai_category), d.(ai_sentiment) with
  | Some ext, Some short, Some items, Some people, Some dls,
    Some imp, Some spam, Some cat, Some sen =>
      if in_unit imp && in_unit spam
      then Some (mkCachedMessage e.(_id) e.(date) e.(title) e.(from) e.(to)
                   (Some ext) (Some short) (Some items) (Some people)
                   (Some dls) imp spam (Some cat) (Some sen) e.(labels)
                   e.(attachments) e.(attachmentMetadata)
                   e.(sentimentMetadata) e.(urgencyScore) e.(deletableScore)
                   e.(priorityScore) e.(priorityLabel) e.(decayFactor)
                   e.(decayApplied) e.(cachedAt) (Some (toISOString now)))
      else None
  | _, _, _, _, _, _, _, _, _ => None
  end.

Definition enhancedSummarize (now : Z) (email : option CachedMessage)
  : result CachedMessage :=
  rbind (valid_email email "MailCacheService.enhancedSummarize") (fun e =>
  rbind (converse e) (fun reply =>
  match reply with
  | NoJsonObject => Throw (MkError "Could not find JSON object in response")
  | Unparsable =>
      Throw (MkError "Could not parse enhanced summarization response")
  | Parsed data =>
      match enhanced_with now data e with
      | Some enhanced => Ok enhanced
      | None =>
          Throw (MkError "Invalid enhanced summarization response format")
      end
  end)).

(** The five steps applied to one message, in the order of the batch loop. *)
Definition enrich (now : Z) (email : option CachedMessage)
  : result CachedMessage :=
  rbind (enhancedSummarize now email) (fun summarized =>
  rbind (applyAdvancedScoring Date_getTime now (Some summarized)) (fun scored =>
  rbind (categorizeEmail contacts (Some scored)) (fun categorized =>
  rbind (processAttachments (Some categorized)) (fun attachmentTagged =>
  applySentimentAnalysis Date_getTime Math_exp now (Some attachmentTagged))))).

(** [processedEmails.push(sentimentAnalyzed)]: no declaration of
    [processedEmails] exists in the module or among the globals, so
    evaluating the identifier throws. *)
Definition processedEmails_push (sentimentAnalyzed : CachedMessage)
  : result unit :=
  Throw (ReferenceError "processedEmails").

(** [remainingIdsSet.delete(id)] on the insertion-ordered set. *)
Definition set_delete (remaining : list string) (id : string) : list string :=
  List.filter (fun x => negb (String.eqb x id)) remaining.

(** The body of the [try] block for one message. *)
Definition try_enrich (now : Z) (email : option CachedMessage)
    (remaining : list string) : result (list string) :=
  rbind (enrich now email) (fun sentimentAnalyzed =>
  rbind (processedEmails_push sentimentAnalyzed) (fun _ =>
  match email with
  | Some e => Ok (set_delete remaining e.(_id))
  | None => Throw TypeError
  end)).

(** The callback of [emails.map(async email => { try ... catch ... })];
    the [catch] block reads [email._id] to log. *)
Definition process_email (now : Z) (email : option CachedMessage)
    (remaining : list string) : M (list string) :=
  match try_enrich now email remaining with
  | Ok remaining' => ret remaining'
  | Throw _ =>
      match email with
      | Some e => run logError "Failed to process email" e.(_id) then
                  ret remaining
      | None => throw TypeError
      end
  end.

(** [await Promise.all(emails.map(...))]: every callback runs; the first
    rejection, if any, is the outcome. *)
Fixpoint process_batch (now : Z) (emails : list (option CachedMessage))
    (remaining : list string) : M (list string) :=
  match emails with
  | [] => ret remaining
  | email :: r =>
      fun w =>
        match process_email now email remaining w with
        | (Ok remaining', w') => process_batch now r remaining' w'
        | (Throw err, w') =>
            (Throw err, snd (process_batch now r remaining w'))
        end
  end.

(** [queue.slice(i, i + n)] for [i = 0, n, 2n, ...]. *)
Fixpoint slices (fuel n : nat) (l : list string) : list (list string) :=
  match fuel, l with
  | S f, _ :: _ => firstn n l :: slices f n (skipn n l)
  | _, _ => []
  end.

Fixpoint process_batches (now : Z) (batches : list (list string))
    (remaining : list string) : M (list string) :=
  match batches with
  | [] => ret remaining
  | batchIds :: r =>
      let* emails := mapM get batchIds in
      let* remaining' := process_batch now emails remaining in
      run logInfo "Enhanced email processing batch completed" then
      process_batches now r remaining'
  end.

Definition supplySummaries (now : Z) : M unit :=
  let* doc := read_user cacheIdsKey in
  match doc with
  | None => logInfo "No emails to summarize"
  | Some cachedIds =>
      match cachedIds.(summarizationQueue) with
      | None | Some [] => logInfo "No emails to summarize"
      | Some queue =>
          run logInfo "Starting enhanced email processing" then
          let* remaining :=
            process_batches now (slices (length queue) BATCH_SIZE queue)
                            (Js.unique queue) in
          run updateInbox now
                (mkCachedIds cachedIds.(ids) cachedIds.(inbox)
                             cachedIds.(deletables) cachedIds.(newMail)
                             (Some remaining) cachedIds.(updatedAt)) then
          logInfo "Enhanced email processing completed"
      end
  end.

End Service.

(** ** Vocabulary of the specification *)

(** The string holds no ['#']. *)
Definition no_hash (s : string) : Prop := Js.includes s "#" = false.

(** The user IDs of the program: [createUser] takes them from
    [system.mkUUID], the [v4] of the uuid package, which gives 36 characters,
    each a lower-case hexadecimal digit or ['-']. *)
Definition uuid_char (c : ascii) : bool :=
  let n := nat_of_ascii c in
  ((48 <=? n)%nat && (n <=? 57)%nat) || ((97 <=? n)%nat && (n <=? 102)%nat)
  || (n =? 45)%nat.
Definition is_uuid (s : string) : bool :=
  (String.length s =? 36)%nat && forallb uuid_char (list_ascii_of_string s).

(** [clamp(x, lo, hi)]. *)
Definition clamp (x lo hi : Q) : Q := Qmax lo (Qmin x hi).

(** The tiers of the priority label. *)
Definition tier_of (p : Q) (label : string) : Prop :=
  (0.8 <= p -> label = "Critical")%Q /\
  (0.6 <= p < 0.8 -> label = "High")%Q /\
  (0.4 <= p < 0.6 -> label = "Medium")%Q /\
  (0.2 <= p < 0.4 -> label = "Low")%Q /\
  (p < 0.2 -> label = "Minimal")%Q.

(** A score lies in [0, 1]; an optional score is set and lies in [0, 1]. *)
Definition unit_score (q : Q) : Prop := (0 <= q <= 1)%Q.
Definition unit_score_opt (o : option Q) : Prop :=
  match o with
  | Some q => unit_score q
  | None => False
  end.

(** A list of messages in descending order of a score. *)
Definition descending (key : CachedMessage -> Q) (l : list CachedMessage) : Prop :=
  StronglySorted (fun a b => (key b <= key a)%Q) l.

Definition priority_key (m : CachedMessage) : Q := Js.or0 m.(priorityScore).
Definition deletable_key (m : CachedMessage) : Q := Js.or0 m.(deletableScore).

(** Effects of interest in a trace. *)
Definition is_write (ev : event) : bool :=
  match ev with
  | EvWrite _ _ => true
  | _ => false
  end.
Definition is_mail_write (ev : event) : bool :=
  match ev with
  | EvWrite c _ => String.eqb c MAIL_COLLECTION
  | _ => false
  end.
Definition is_fetch (ev : event) : bool :=
  match ev with
  | EvFetch _ _ => true
  | _ => false
  end.

(** [w'] is reached from [w] by performing exactly the effects [evs]. *)
Definition performed (w w' : world) (evs : list event) : Prop :=
  w'.(trace) = (w.(trace) ++ evs)%list.

(** The index document of a user, if any. *)
Definition index_of (userId : string) (w : world) : option CachedIds :=
  w.(users) !! cacheIdsKey userId.

Definition view (o : option (list string)) : list string :=
  match o with
  | Some l => l
  | None => []
  end.

(** The identifier is in neither view of the index. *)
Definition absent_from_views (id : string) (idx : CachedIds) : Prop :=
  ~ In id (view idx.(inbox)) /\ ~ In id (view idx.(deletables)).

(** The archive law as the specification words it, for one call. *)
Definition archive_law (userId : string) (toISOString : Z -> string) (now : Z)
    (id : string) (w : world) : Prop :=
  forall idx l,
    index_of userId w = Some idx -> idx.(inbox) = Some l ->
    (In id l ->
     exists w' idx',
       archive userId toISOString now id w = (Ok tt, w')
       /\ index_of userId w' = Some idx'
       /\ absent_from_views id idx'
       /\ w'.(mail) = w.(mail))
    /\ (~ In id l ->
        archive userId toISOString now id w
          = (Throw (MkError "Email not found in inbox"), w)).

(** A run that fetches no message and writes no message document. *)
Definition quiet (evs : list event) : Prop :=
  Forall (fun ev => is_fetch ev = false /\ is_mail_write ev = false) evs.

(** The [ids] ledger persisted for a user. *)
Definition ledger (userId : string) (w : world) : option (list string) :=
  match index_of userId w with
  | Some idx => idx.(ids)
  | None => None
  end.

(** What a successful import establishes for an account, and the next import
    relies on: a refresh token, a listing, every listed message known. *)
Definition account_settled (userId : string)
    (getIdsByLabel : string -> string -> result (list string))
    (known : list string) (acc : string * Account) : Prop :=
  Js.truthy (snd acc).(token) = true
  /\ exists emailIds,
       getIdsByLabel (fst acc) LABEL_ID = Ok emailIds
       /\ forall emailId, In emailId emailIds ->
                          In (composeId userId (fst acc) emailId) known.

(** The four scores that every pass keeps capped: the importance and the
    spam score lie in [0, 1], the urgency and the priority score are set and
    lie in [0, 1]. *)
Definition capped (m : CachedMessage) : Prop :=
  unit_score m.(importanceScore) /\ unit_score m.(spamScore)
  /\ unit_score_opt m.(urgencyScore) /\ unit_score_opt m.(priorityScore).

(** The deletable score is set and lies in [0, bound]. *)
Definition deletable_within (bound : Q) (m : CachedMessage) : Prop :=
  match m.(deletableScore) with
  | Some d => (0 <= d <= bound)%Q
  | None => False
  end.

(** What the decay needs of [Math.exp]: on a negative argument the value
    lies in [0, 1]. *)
Definition exp_shrinks (Math_exp : Q -> Q) : Prop :=
  forall x : Q, (x <= 0 -> 0 <= Math_exp x <= 1)%Q.

(** ** Sample data *)

Definition sample_iso (t : Z) : string := "2025-07-10T00:00:00.000Z".

(** An index whose inbox lists the same identifier twice. *)
Definition index_twice : CachedIds :=
  mkCachedIds (Some ["u#a#m"]) (Some ["u#a#m"; "u#a#m"]) (Some ["u#a#m"])
              (Some []) (Some []) None.

Definition index_once : CachedIds :=
  mkCachedIds (Some ["u#a#m"]) (Some ["u#a#m"]) (Some ["u#a#m"])
              (Some []) (Some []) None.

Definition world_with (userId : string) (idx : CachedIds) : world :=
  mkWorld ∅ (<[cacheIdsKey userId := idx]> ∅) [].

(** One Google account holding two messages, and what the remote side
    answers for it. *)
Definition sample_accounts : result (list (string * Account)) :=
  Ok [("slack_1", mkAccount "slack" None);
      ("google_1", mkAccount "google" (Some "refresh-token"))].

Definition sample_listing (accountId label : string) : result (list string) :=
  if String.eqb accountId "google_1" && String.eqb label "INBOX"
  then Ok ["m1"; "m2"]
  else Throw (RemoteError "no such mailbox").

Definition sample_fetch (accountId emailId : string) : result EmailData :=
  Ok (mkEmailData (Some "Thu, 10 Jul 2025 09:00:00 +0000") (Some "Hello")
                  (Some "Ann <ann@example.org>") (Some "me@example.org")).

Definition empty_world : world := mkWorld ∅ ∅ [].

(** A listing in which the remote mailbox names one message twice (as a
    paged listing can when the mailbox changes between two pages), and the
    store that an import of it into the empty store leaves. *)
Definition twice_listing (accountId label : string) : result (list string) :=
  Ok ["m1"; "m1"].

Definition imported_twice : world :=
  snd (importNewEmails "user-0001" sample_iso sample_accounts (Ok tt)
                       twice_listing sample_fetch 0 empty_world).

(** Two cached messages and an index whose inbox lists them, lowest priority
    first. *)
Definition sample_message (id : string) (priority deletable : Q) : CachedMessage :=
  mkCachedMessage id (Some "Thu, 10 Jul 2025 09:00:00 +0000") (Some "Hello")
    (Some "Ann <ann@example.org>") (Some "me@example.org") None None None None
    None 0.6%Q 0.1%Q None None None None None None (Some 0%Q) (Some deletable)
    (Some priority) None None false None None.

Definition sample_mailbox : world :=
  mkWorld (<["u#a#m1" := sample_message "u#a#m1" 0.2 0.9]>
           (<["u#a#m2" := sample_message "u#a#m2" 0.7 0.1]> ∅))
          ∅ [].

Definition sample_index : CachedIds :=
  mkCachedIds (Some ["u#a#m1"; "u#a#m2"]) (Some ["u#a#m1"; "u#a#m2"]) None
              (Some []) (Some []) None.

(** The decay law as the specification words it, for one message: decay is
    applied to every message older than three days. *)
Definition decay_law (Date_getTime : string -> option Z) (Math_exp : Q -> Q)
    (now : Z) (e : CachedMessage) : Prop :=
  forall t p,
    email_time Date_getTime e.(date) = Some t ->
    (3 < ageInDays now t)%Q ->
    e.(priorityScore) = Some p ->
    exists s,
      applySentimentAnalysis Date_getTime Math_exp now (Some e) = Ok s
      /\ s.(priorityScore)
         = Some (Js.Math_max (p * decay_factor Math_exp (ageInDays now t))
                             (p * 0.3))%Q
      /\ s.(decayFactor) = Some (decay_factor Math_exp (ageInDays now t))
      /\ s.(decayApplied) = true.

(** A date parser knowing one date, 10 July 2025 09:00 UTC, and a clock ten
    days later. *)
Definition sample_dates (s : string) : option Z :=
  if String.eqb s "Thu, 10 Jul 2025 09:00:00 +0000" then Some 1752138000000%Z
  else None.
Definition ten_days_later : Z := 1753002000000.

(** A message of that date as it enters the sentiment pass after the
    language model has named its sentiment. *)
Definition neutral_mail : CachedMessage :=
  set_sentiment (Some "Neutral") (sample_message "u#a#m1" 0.5 0.1).

(** The partial sum of the exponential series up to degree 8, standing in
    for [Math.exp] where an example needs a number. *)
Fixpoint exp_terms (n : nat) (k : Q) (term x : Q) : Q :=
  match n with
  | O => term
  | S m => (term + exp_terms m (k + 1) (term * x / (k + 1)) x)%Q
  end.
Definition exp_series (x : Q) : Q := exp_terms 8 0 1 x.

(** An imported message about an invoice, and a well-formed reply of the
    language model for it. *)
Definition invoice_mail : CachedMessage :=
  mkCachedMessage "u#a#m1" (Some "Thu, 10 Jul 2025 09:00:00 +0000")
    (Some "Your invoice") (Some "Shop <billing@shop.example>")
    (Some "me@example.org") None None None None None 0 0 None None None None
    None None None None None None None false
    (Some "2025-07-10T09:05:00.000Z") None.

Definition invoice_reply (e : CachedMessage) : result AiReply :=
  Ok (Parsed (mkAiData (Some "The shop sent the invoice for the last order.")
                       (Some "Invoice for the last order.")
                       (Some []) (Some []) (Some [])
                       (Some 0.2%Q) (Some 0.5%Q)
                       (Some "Promotional") (Some "Neutral"))).

(** A store holding that message, queued for enrichment. *)
Definition queue_world : world :=
  mkWorld (<["u#a#m1" := invoice_mail]> ∅)
          (<[cacheIdsKey "u" :=
               mkCachedIds (Some ["u#a#m1"]) (Some ["u#a#m1"]) None
                           (Some ["u#a#m1"]) (Some ["u#a#m1"]) None]> ∅)
          [].

(** The summarization queue persisted for a user. *)
Definition persisted_queue (userId : string) (w : world) : option (list string) :=
  match index_of userId w with
  | Some idx => idx.(summarizationQueue)
  | None => None
  end.

(** ** Frame conditions *)

(** A computation that, whatever its outcome, leaves the index collection
    (resp. the message collection) as it found it. *)
Definition keeps_users {A} (m : M A) : Prop :=
  forall w, (snd (m w)).(users) = w.(users).
Definition keeps_mail {A} (m : M A) : Prop :=
  forall w, (snd (m w)).(mail) = w.(mail).

(** The account is a Google account. *)
Definition is_google (acc : string * Account) : bool :=
  String.eqb (snd acc).(acc_type) "google".

(** A Google account without a refresh token, and a listing that fails. *)
Definition tokenless_accounts : result (list (string * Account)) :=
  Ok [("google_1", mkAccount "google" (Some "refresh-token"));
      ("google_2", mkAccount "google" None)].

(** The document stored under [x] is one written by an import at [now]. *)
Definition imported_at (toISOString : Z -> string) (now : Z) (w : world)
    (x : string) : Prop :=
  exists d, w.(mail) !! x = Some (newDocument toISOString now x d).

(** The index an import starts from: the stored one, or the empty one. *)
Definition index_or_empty (userId : string) (w : world) : CachedIds :=
  match index_of userId w with
  | Some d => d
  | None => emptyCachedIds
  end.

(** A stand-in for [Math.exp] with the one value 1/2, for examples that need
    a function within [exp_shrinks]. *)
Definition flat_half (x : Q) : Q := (1 # 2)%Q.

(** ** Categorization: the locals between two steps *)

(** The label array holds 'Business' or 'Personal' only when the set of
    detected categories does, and never both. *)
Definition steered (st : CatState) : Prop :=
  ~ (In "Business" st.(c_labels) /\ In "Personal" st.(c_labels))
  /\ (In "Business" st.(c_labels) -> In "Business" st.(c_detected))
  /\ (In "Personal" st.(c_labels) -> In "Personal" st.(c_detected)).

(** A step that only appends to the label array. *)
Definition appends (step : CatState -> CatState) : Prop :=
  forall st, exists added, c_labels (step st) = (c_labels st ++ added)%list.

(** ** Attachment metadata *)

(** Each type flag of the metadata says whether its type is among the
    types. *)
Definition flags_agree (md : AttachmentMetadata) : Prop :=
  md.(hasDocuments) = Js.arr_includes md.(types) "document"
  /\ md.(hasImages) = Js.arr_includes md.(types) "image"
  /\ md.(hasSpreadsheets) = Js.arr_includes md.(types) "spreadsheet"
  /\ md.(hasPresentations) = Js.arr_includes md.(types) "presentation"
  /\ md.(hasArchives) = Js.arr_includes md.(types) "archive"
  /\ md.(hasExecutables) = Js.arr_includes md.(types) "executable".

(** A message with two attachments of the same type. *)
Definition attached_mail : CachedMessage :=
  mkCachedMessage "u#a#m7" (Some "Thu, 10 Jul 2025 09:00:00 +0000")
    (Some "Report") (Some "Ann <ann@example.org>") (Some "me@example.org")
    None None None None None 0.6%Q 0.1%Q None None (Some ["Work"])
    (Some [mkAttachment (Some "report.PDF") (Some 1200%Q);
           mkAttachment (Some "notes.txt") None;
           mkAttachment None (Some 10%Q)])
    None None None None None None None false None None.

(** ** Further operations of the cache service *)

(** [firestore.delete(MAIL_COLLECTION, key)] and
    [firestore.update(MAIL_COLLECTION, key, updateFn)]; [updateFn] receives
    the stored document, or nothing where the store passes the empty object
    for a missing one. The trace lists the calls of [firestore.write]; these
    two entry points leave it alone. *)
Definition delete_mail (key : string) : M unit :=
  fun w => (Ok tt, mkWorld (base.delete key w.(mail)) w.(users) w.(trace)).

Definition update_mail (key : string)
    (updateFn : option CachedMessage -> CachedMessage) : M CachedMessage :=
  fun w => let newData := updateFn (w.(mail) !! key) in
           (Ok newData,
            mkWorld (<[key := newData]> w.(mail)) w.(users) w.(trace)).

(** [a.slice(0, limit)] for an integer [limit]: a negative one counts from
    the end. *)
Definition slice0 {A} (limit : Z) (a : list A) : list A :=
  if (limit <? 0)%Z then firstn (length a - Z.to_nat (- limit)) a
  else firstn (Z.to_nat limit) a.

(** [emails.filter(email => email !== null)] *)
Fixpoint non_null {A} (l : list (option A)) : list A :=
  match l with
  | [] => []
  | Some x :: r => x :: non_null r
  | None :: r => non_null r
  end.

(** The default of a [limit = 100] parameter. *)
Definition limit_of (limit : option Z) : Z :=
  match limit with
  | Some n => n
  | None => 100
  end.

Module MailCache.

Section Methods.

Local Open Scope m_scope.

Variable userId : string.
Variable Date_getTime : string -> option Z.
Variable toISOString : Z -> string.

Definition delete (id : string) : M unit :=
  if String.eqb id "" then throw (MkError "Required parameter missing: id")
  else delete_mail id.

Definition resetSummarizationQueue (now : Z) : M unit :=
  let* doc := read_user (cacheIdsKey userId) in
  match doc with
  | Some cachedIds =>
      match cachedIds.(inbox) with
      | Some ((_ :: _) as inbox_ids) =>
          run write_user (cacheIdsKey userId)
                (mkCachedIds cachedIds.(ids) cachedIds.(inbox)
                             cachedIds.(deletables) cachedIds.(newMail)
                             (Some inbox_ids) (Some (toISOString now))) then
          logInfo "Summarization queue reset completed"
      | _ => logInfo "No inbox emails found to reset queue"
      end
  | None => logInfo "No inbox emails found to reset queue"
  end.

(** *** Search over the cached messages *)

Definition _getAllEmails : M (list CachedMessage) :=
  let* doc := read_user (cacheIdsKey userId) in
  match doc with
  | Some cachedIds =>
      match cachedIds.(ids) with
      | Some ((_ :: _) as all_ids) =>
          let* emails := mapM get all_ids in
          ret (non_null emails)
      | _ => ret []
      end
  | None => ret []
  end.

(** [emails.filter(keep).slice(0, limit)] after the argument check. *)
Definition search_with (keep : CachedMessage -> bool) (limit : option Z)
  : M (list CachedMessage) :=
  let* emails := _getAllEmails in
  ret (slice0 (limit_of limit) (List.filter keep emails)).

Definition has_label (label : string) (email : CachedMessage) : bool :=
  match email.(labels) with
  | Some ls => Js.arr_includes ls label
  | None => false
  end.

Definition searchByLabel (label : string) (limit : option Z)
  : M (list CachedMessage) :=
  if String.eqb label "" then throw (MkError "Required parameter missing: label")
  else search_with (has_label label) limit.

Definition has_priority (priorityLevel : string) (email : CachedMessage) : bool :=
  match email.(priorityLabel) with
  | Some l => String.eqb l priorityLevel
  | None => false
  end.

Definition searchByPriority (priorityLevel : string) (limit : option Z)
  : M (list CachedMessage) :=
  if String.eqb priorityLevel ""
  then throw (MkError "Required parameter missing: priorityLevel")
  else search_with (has_priority priorityLevel) limit.




(** [minScore < 0 || minScore > 1 || maxScore < 0 || maxScore > 1 ||
     minScore > maxScore] *)
Definition bad_range (minScore maxScore : Q) : bool :=
  Js.Qltb minScore 0 || Js.Qgtb minScore 1 || Js.Qltb maxScore 0 ||
  Js.Qgtb maxScore 1 || Js.Qgtb minScore maxScore.

Definition within (minScore maxScore score : Q) : bool :=
  Js.Qgeb score minScore && Qle_bool score maxScore.

(** The defaults [minScore = 0], [maxScore = 1] of the two range searches. *)
Definition min_of (minScore : option Q) : Q :=
  match minScore with
  | Some q => q
  | None => 0
  end.
Definition max_of (maxScore : option Q) : Q :=
  match maxScore with
  | Some q => q
  | None => 1
  end.

Definition searchByImportance (minScore maxScore : option Q) (limit : option Z)
  : M (list CachedMessage) :=
  if bad_range (min_of minScore) (max_of maxScore)
  then throw (MkError "Invalid importance score range")
  else search_with (fun email => within (min_of minScore) (max_of maxScore)
                                        email.(importanceScore)) limit.

Definition searchBySpam (minScore maxScore : option Q) (limit : option Z)
  : M (list CachedMessage) :=
  if bad_range (min_of minScore) (max_of maxScore)
  then throw (MkError "Invalid spam score range")
  else search_with (fun email => within (min_of minScore) (max_of maxScore)
                                        email.(spamScore)) limit.

(** *** Rescoring the inbox *)

(** One callback of [inboxEmails.map(async email => ...)]: the scoring pass
    validates the message, so [email._id] is read of a message only. *)
Definition rescore_one (now : Z) (email : option CachedMessage) : M unit :=
  let* rescored := lift (applyAdvancedScoring Date_getTime now email) in
  match email with
  | Some e => run update_mail e.(_id) (fun _ => rescored) then ret tt
  | None => throw TypeError
  end.

(** [await Promise.all(...)]: every callback runs; the first rejection, if
    any, is the outcome. *)
Fixpoint rescore_all (now : Z) (emails : list (option CachedMessage)) : M unit :=
  match emails with
  | [] => ret tt
  | email :: r =>
      fun w =>
        match rescore_one now email w with
        | (Ok _, w') => rescore_all now r w'
        | (Throw err, w') => (Throw err, snd (rescore_all now r w'))
        end
  end.

Definition rescore (now : Z) : M unit :=
  let* doc := read_user (cacheIdsKey userId) in
  match doc with
  | Some cachedIds =>
      match cachedIds.(inbox) with
      | Some ((_ :: _) as inbox_ids) =>
          run logInfo "Starting email rescoring" then
          let* inboxEmails := mapM get inbox_ids in
          run rescore_all now inboxEmails then
          run updateInbox userId toISOString now cachedIds then
          logInfo "Email rescoring completed"
      | _ => logInfo "No inbox emails found to rescore"
      end
  | None => logInfo "No inbox emails found to rescore"
  end.

End Methods.

(** *** Construction *)

(** A contact as [create] reads it: the display names and the values of the
    e-mail addresses, each absent or an array. *)
Record Contact : Type := mkContact {
  names : option (list string);
  emailAddresses : option (list string)
}.

(** The instance fields set by the constructor. *)
Record Instance : Type := mkInstance {
  _userId : string;
  _cacheIdsKey : string;
  _contacts : string;
  _knowledge : string;
  _openAiApiKey : string
}.

(** The callback of [flatMap] for a contact that passed
    [filter(contact => contact.emailAddresses)]; [names[0].displayName] of an
    empty array throws. *)
Definition contact_entries (addresses : list string) (c : Contact)
  : result (list string) :=
  match c.(names) with
  | Some [] => Throw TypeError
  | Some (displayName :: _) =>
      Ok (map (fun value => (displayName ++ " ") ++ "<" ++ value ++ ">")
              addresses)
  | None => Ok (map (fun value => "<" ++ value ++ ">") addresses)
  end.

Fixpoint contact_list (cs : list Contact) : result (list string) :=
  match cs with
  | [] => Ok []
  | c :: r =>
      match c.(emailAddresses) with
      | None => contact_list r
      | Some addresses =>
          rbind (contact_entries addresses c) (fun entries =>
          rbind (contact_list r) (fun rest => Ok (entries ++ rest)%list))
      end
  end.

Definition constructor (userId openAiKey contacts knowledge : string)
  : result Instance :=
  if String.eqb userId ""
  then Throw (MkError "Required parameter missing: userId")
  else if String.eqb openAiKey ""
  then Throw (MkError "Required parameter missing: openAiKey")
  else if String.eqb contacts ""
  then Throw (MkError "Required parameter missing: contacts")
  else Ok (mkInstance userId (cacheIdsKey userId) contacts knowledge openAiKey).

Section Create.

(** Collaborators: the cached contacts of a user, the contents of the
    user's general knowledge records and the API key of the language
    model. *)
Variable getContacts : string -> result (list Contact).
Variable listGeneralRecords : string -> result (list string).
Variable getOpenAiApiKey : result string.

Definition create (userId : string) : result Instance :=
  if String.eqb userId ""
  then Throw (MkError "Required parameter missing: userId")
  else
    rbind (getContacts userId) (fun contactObjects =>
    rbind (contact_list contactObjects) (fun entries =>
    let contacts := String.concat "," entries in
    rbind (listGeneralRecords userId) (fun records =>
    let knowledge := String.concat (String (ascii_of_nat 10) "") records in
    rbind getOpenAiApiKey (fun openAiKey =>
    constructor userId openAiKey contacts knowledge)))).

End Create.

End MailCache.

(** ** The mail service over the cache *)

(** The three operations a mailbox client performs on one message. *)
Inductive mailbox_op : Type := OpTrash | OpJunk | OpArchive.

(** The cache together with the mailbox operations that the remote
    accounts have carried out (account, operation, provider id; latest
    last). *)
Record office : Type := mkOffice {
  cache : world;
  carried_out : list (string * mailbox_op * string)
}.

Module MailService.

Section Methods.

Variable userId : string.
Variable toISOString : Z -> string.
(** The account identifiers under which [this._clients] holds a client
    (identifiers that name a property of [Object.prototype] are not
    modelled), and the outcome of a client's operation on a message. *)
Variable clients : list string.
Variable client_do : string -> mailbox_op -> string -> result unit.

(** The common body of [moveToTrash], [moveToJunk] and [archive]. *)
Definition move (op : mailbox_op) (done : string) (now : Z) (id : string)
  : office -> result unit * office :=
  fun o =>
    if String.eqb id ""
    then (Throw (MkError "Required parameter missing: id"), o)
    else
      match decomposeId id with
      | Throw e => (Throw e, o)
      | Ok d =>
          if negb (Js.arr_includes clients d.(d_accountId))
          then (Throw (MkError "Account not found"), o)
          else
            match client_do d.(d_accountId) op d.(d_providerId) with
            | Throw e => (Throw e, o)
            | Ok _ =>
                let calls := (o.(carried_out)
                              ++ [(d.(d_accountId), op, d.(d_providerId))])%list in
                let (r, w') :=
                  bind (archive userId toISOString now id)
                       (fun _ => logInfo done) o.(cache) in
                (r, mkOffice w' calls)
            end
      end.

Definition moveToTrash : Z -> string -> office -> result unit * office :=
  move OpTrash "Email moved to trash".
Definition moveToJunk : Z -> string -> office -> result unit * office :=
  move OpJunk "Email moved to junk".
Definition archive : Z -> string -> office -> result unit * office :=
  move OpArchive "Email archived".

(** The three methods, each with the operation it asks of the client. *)
Definition mailbox_methods
  : list ((Z -> string -> office -> result unit * office) * mailbox_op) :=
  [(moveToTrash, OpTrash); (moveToJunk, OpJunk); (archive, OpArchive)].

End Methods.

End MailService.

(** ** More sample data *)

(** An index whose inbox lists a message that has no document. *)
Definition gap_index : CachedIds :=
  mkCachedIds (Some ["u#a#m1"; "u#a#m2"; "u#a#m9"])
              (Some ["u#a#m1"; "u#a#m9"; "u#a#m2"]) None (Some []) (Some []) None.

(** The sample mailbox with an index over its two messages. *)
Definition indexed_mailbox : world :=
  mkWorld sample_mailbox.(mail) (<[cacheIdsKey "u" := sample_index]> ∅) [].

Definition sample_contacts (u : string) : result (list MailCache.Contact) :=
  Ok [MailCache.mkContact (Some ["Ann"]) (Some ["ann@example.org"]);
      MailCache.mkContact None (Some ["bob@example.org"; "bob@work.example"]);
      MailCache.mkContact (Some ["Cy"]) None].

Definition sample_office : office := mkOffice indexed_mailbox [].

(** What the sentiment pass and the decay write besides the scores. *)
Definition decay_fields (m : CachedMessage)
  : option SentimentMetadata * option Q * bool :=
  (m.(sentimentMetadata), m.(decayFactor), m.(decayApplied)).

(** * Properties *)

(** ** Composite ID codec *)

Lemma includes_hash_cons (c : ascii) (s : string) :
  Js.includes (String c s) "#" = false ->
  Ascii.eqb c "#" = false /\ Js.includes s "#" = false.
Proof.
  cbn [Js.includes Js.startsWith]. intros H.
  apply orb_false_iff in H as [H1 H2]. split; [|exact H2].
  rewrite andb_true_r in H1. rewrite Ascii.eqb_sym. exact H1.
Qed.

Lemma split_no_hash (s : string) :
  no_hash s -> Js.split "#" s = [s].
Proof.
  unfold no_hash. induction s as [|c s IH]; intros H; [reflexivity|].
  apply includes_hash_cons in H as [Hc Hs].
  cbn [Js.split]. rewrite Hc, (IH Hs). reflexivity.
Qed.

Lemma split_hash_app (s r : string) :
  no_hash s -> Js.split "#" (s ++ "#" ++ r) = s :: Js.split "#" r.
Proof.
  unfold no_hash. induction s as [|c s IH]; intros H.
  - reflexivity.
  - apply includes_hash_cons in H as [Hc Hs].
    change (Js.split "#" (String c (s ++ "#" ++ r)) = String c s :: Js.split "#" r).
    cbn [Js.split]. rewrite Hc, (IH Hs). reflexivity.
Qed.

Lemma decomposeId_composeId (userId accountId providerId : string) :
  no_hash (Js.substring0 8 userId) ->
  no_hash accountId ->
  no_hash providerId ->
  decomposeId (composeId userId accountId providerId)
    = Ok (mkDecomposedId (Js.substring0 8 userId) accountId providerId).
Proof.
  intros Hu Ha Hp. unfold decomposeId, composeId.
  rewrite (split_hash_app _ _ Hu), (split_hash_app _ _ Ha), (split_no_hash _ Hp).
  reflexivity.
Qed.

Lemma uuid_char_not_hash (c : ascii) :
  uuid_char c = true -> Ascii.eqb "#" c = false.
Proof.
  intros H. destruct (Ascii.eqb_spec "#"%char c) as [<-|]; [|reflexivity].
  vm_compute in H. discriminate H.
Qed.

Lemma uuid_chars_prefix (s : string) :
  forall n, forallb uuid_char (list_ascii_of_string s) = true ->
            no_hash (substring 0 n s).
Proof.
  unfold no_hash. induction s as [|c s IH]; intros n H.
  - now destruct n.
  - cbn [list_ascii_of_string forallb] in H.
    apply andb_true_iff in H as [Hc Hs].
    destruct n as [|n]; [reflexivity|].
    cbn [substring Js.includes Js.startsWith].
    rewrite (uuid_char_not_hash c Hc), (IH n Hs). reflexivity.
Qed.

(** C5: for the user ID of a service instance, a UUID as [createUser] makes
    them, and every account ID and provider ID that hold no ['#'],
    decomposing the composed ID gives back exactly that account ID and
    provider ID (with the first eight characters of the user ID as the user
    part); and [decomposeId] throws "Malformed ID" on every string with
    fewer than three ['#']-separated parts. *)
Theorem composeId_roundtrip (userId accountId providerId : string) :
  is_uuid userId = true ->
  no_hash accountId ->
  no_hash providerId ->
  decomposeId (composeId userId accountId providerId)
    = Ok (mkDecomposedId (Js.substring0 8 userId) accountId providerId)
  /\ (forall id : string,
        (length (Js.split "#" id) < 3)%nat ->
        decomposeId id = Throw (MkError "Malformed ID")).
Proof.
  intros Hu Ha Hp. split.
  - apply decomposeId_composeId; [|exact Ha|exact Hp].
    unfold is_uuid in Hu. apply andb_true_iff in Hu as [_ Hu].
    exact (uuid_chars_prefix userId 8 Hu).
  - intros id Hlen. unfold decomposeId.
    apply Nat.ltb_lt in Hlen. rewrite Hlen. reflexivity.
Qed.

Lemma composeId_roundtrip_witness :
  decomposeId (composeId "0f8fad5b-d9cb-469f-a165-70867728950e"
                         "google_1720000000000" "18c2a5e1f0")
    = Ok (mkDecomposedId "0f8fad5b" "google_1720000000000" "18c2a5e1f0")
  /\ decomposeId "0f8fad5b#google_1720000000000"
    = Throw (MkError "Malformed ID").
Proof.
  destruct (composeId_roundtrip "0f8fad5b-d9cb-469f-a165-70867728950e"
              "google_1720000000000" "18c2a5e1f0" eq_refl eq_refl eq_refl)
    as [H1 H2].
  split; [exact H1|]. apply H2. vm_compute. lia.
Defined.

(** ** The two views without an index *)

(** C9: when the store holds no index document for the user,
    [getDeletables] returns the empty sequence whereas [getInbox] throws (it
    reads [inbox] off the [null] result). *)
Theorem views_without_index (userId : string) (w : world) :
  index_of userId w = None ->
  getDeletables userId w = (Ok [], w)
  /\ getInbox userId w = (Throw TypeError, w).
Proof.
  unfold index_of, getDeletables, getInbox, bind, read_user. intros H.
  rewrite H. split; reflexivity.
Qed.

Lemma views_without_index_witness :
  getDeletables "0f8fad5b" (mkWorld ∅ ∅ []) = (Ok [], mkWorld ∅ ∅ [])
  /\ getInbox "0f8fad5b" (mkWorld ∅ ∅ []) = (Throw TypeError, mkWorld ∅ ∅ []).
Proof.
  apply (views_without_index "0f8fad5b" (mkWorld ∅ ∅ [])). reflexivity.
Defined.

(** ** Archive *)

Lemma indexOf_None (l : list string) (id : string) :
  Js.indexOf l id = None <-> ~ In id l.
Proof.
  induction l as [|y l IH]; cbn [Js.indexOf In].
  - tauto.
  - destruct (String.eqb_spec y id) as [->|Hne].
    + split; [discriminate|]. intros H; exfalso; apply H; now left.
    + destruct (Js.indexOf l id) eqn:E; cbn [option_map].
      * split; [discriminate|]. intros H. exfalso.
        assert (Hin : ~ In id l) by (intros Hin; apply H; now right).
        apply IH in Hin. discriminate Hin.
      * split; [|reflexivity]. intros _ [H|H]; [congruence|].
        revert H. now apply IH.
Qed.

Lemma splice1_indexOf_NoDup (l : list string) (id : string) (i : nat) :
  NoDup l -> Js.indexOf l id = Some i -> ~ In id (Js.splice1 i l).
Proof.
  intros Hnd. revert i. induction Hnd as [|y l Hy Hnd IH]; intros i.
  - discriminate.
  - cbn [Js.indexOf]. destruct (String.eqb_spec y id) as [->|Hne].
    + intros [= <-]. cbn [Js.splice1].
      intros Hin. apply Hy. apply list_elem_of_In. exact Hin.
    + destruct (Js.indexOf l id) as [j|] eqn:E; cbn [option_map]; [|discriminate].
      intros [= <-]. cbn [Js.splice1 In]. intros [H|H]; [congruence|].
      exact (IH j eq_refl H).
Qed.

Lemma splice1_indexOf_count (l : list string) (id : string) :
  forall i, Js.indexOf l id = Some i ->
            count_occ string_dec (Js.splice1 i l) id
            = pred (count_occ string_dec l id).
Proof.
  induction l as [|y l IH]; intros i; cbn [Js.indexOf]; [discriminate|].
  destruct (String.eqb_spec y id) as [->|Hne].
  - intros [= <-]. cbn [Js.splice1]. now rewrite count_occ_cons_eq.
  - destruct (Js.indexOf l id) as [j|] eqn:E; cbn [option_map]; [|discriminate].
    intros [= <-]. cbn [Js.splice1].
    rewrite !count_occ_cons_neq by exact Hne. now apply IH.
Qed.

Lemma splice1_indexOf_once (l : list string) (id : string) (i : nat) :
  (count_occ string_dec l id <= 1)%nat ->
  Js.indexOf l id = Some i -> ~ In id (Js.splice1 i l).
Proof.
  intros Hone Hi. apply (count_occ_not_In string_dec).
  rewrite (splice1_indexOf_count l id i Hi). lia.
Qed.

Section Archive.

Variable userId : string.
Variable toISOString : Z -> string.

(** C4, as the code has it.  An empty [id] is refused with the
    missing-parameter error; for a non-empty [id], [archive] throws
    "Inbox not found" when the user has no index document or the index has
    no inbox list, and "Email not found in inbox" when the inbox does not
    list [id]; none of these calls writes anything.  For a non-empty [id]
    listed in [inbox], [archive] performs exactly one write, of the index,
    in which the first occurrence of [id] is removed from [inbox] and from
    [deletables]; when neither list held [id] more than once, [id] is
    afterwards absent from both views; the message document is untouched and
    [get] still returns it. *)
Theorem archive_views (now : Z) (id : string) (w : world) :
  (id = "" ->
   archive userId toISOString now id w
     = (Throw (MkError "Required parameter missing: id"), w))
  /\ (id <> "" ->
      (index_of userId w = None
       \/ exists idx, index_of userId w = Some idx /\ idx.(inbox) = None) ->
      archive userId toISOString now id w
        = (Throw (MkError "Inbox not found"), w))
  /\ (forall (idx : CachedIds) (l : list string),
        id <> "" ->
        index_of userId w = Some idx ->
        idx.(inbox) = Some l ->
        (In id l ->
         exists w' idx' i,
           archive userId toISOString now id w = (Ok tt, w')
           /\ performed w w' [EvWrite USER_COLLECTION (cacheIdsKey userId)]
           /\ index_of userId w' = Some idx'
           /\ Js.indexOf l id = Some i
           /\ idx'.(inbox) = Some (Js.splice1 i l)
           /\ idx'.(deletables)
              = option_map (fun ds => match Js.indexOf ds id with
                                      | Some j => Js.splice1 j ds
                                      | None => ds
                                      end) idx.(deletables)
           /\ ((count_occ string_dec l id <= 1)%nat ->
               (count_occ string_dec (view idx.(deletables)) id <= 1)%nat ->
               absent_from_views id idx')
           /\ idx'.(ids) = idx.(ids)
           /\ w'.(mail) = w.(mail)
           /\ get id w' = (Ok (w.(mail) !! id), w'))
        /\ (~ In id l ->
            archive userId toISOString now id w
              = (Throw (MkError "Email not found in inbox"), w))).
Proof.
  split; [intros ->; reflexivity|]. split.
  { intros Hid Hno. apply String.eqb_neq in Hid.
    unfold archive, bind, read_user. rewrite Hid.
    change (users w !! cacheIdsKey userId) with (index_of userId w).
    destruct Hno as [->|(idx & -> & Hinbox)]; [reflexivity|].
    now rewrite Hinbox. }
  intros idx l Hid Hidx Hinbox.
  assert (Hne : String.eqb id "" = false) by (now apply String.eqb_neq).
  unfold index_of in Hidx. split.
  - intros Hin.
    destruct (Js.indexOf l id) as [i|] eqn:Hi;
      [|apply indexOf_None in Hi; contradiction].
    unfold archive, bind, read_user. rewrite Hne, Hidx, Hinbox, Hi.
    unfold write_user. eexists. eexists. exists i. split; [reflexivity|].
    split; [reflexivity|]. split.
    { unfold index_of. cbn [users]. apply lookup_insert_eq. }
    split; [reflexivity|]. split; [reflexivity|]. split.
    { cbn [deletables]. destruct (deletables idx) as [ds|]; [|reflexivity].
      cbn [option_map]. now destruct (Js.indexOf ds id). }
    split.
    { intros Hone Honed. split; cbn [inbox deletables view].
      - now apply (splice1_indexOf_once l id i).
      - destruct (deletables idx) as [ds|]; cbn [view] in *; [|tauto].
        destruct (Js.indexOf ds id) as [j|] eqn:Hj; cbn [view].
        + now apply (splice1_indexOf_once ds id j).
        + now apply indexOf_None. }
    split; [reflexivity|]. split; [reflexivity|].
    unfold get. rewrite Hne. reflexivity.
  - intros Hnin. apply indexOf_None in Hnin.
    unfold archive, bind, read_user. rewrite Hne, Hidx, Hinbox, Hnin.
    reflexivity.
Qed.

End Archive.

Lemma archive_views_witness :
  exists w' idx',
    archive "u" sample_iso 0 "u#a#m" (world_with "u" index_once) = (Ok tt, w')
    /\ index_of "u" w' = Some idx'
    /\ absent_from_views "u#a#m" idx'.
Proof.
  destruct (archive_views "u" sample_iso 0 "u#a#m" (world_with "u" index_once))
    as (_ & _ & Hlisted).
  destruct (Hlisted index_once ["u#a#m"]) as [H _].
  - discriminate.
  - reflexivity.
  - reflexivity.
  - destruct H as (w' & idx' & i & H1 & _ & H3 & _ & _ & _ & H4 & _);
      [now left|].
    exists w', idx'. split; [exact H1|]. split; [exact H3|].
    apply H4; vm_compute; lia.
Defined.

(** The store with the message listed twice is one that an import leaves. *)
Lemma imported_twice_run :
  importNewEmails "user-0001" sample_iso sample_accounts (Ok tt) twice_listing
                  sample_fetch 0 empty_world = (Ok tt, imported_twice)
  /\ exists idx,
       index_of "user-0001" imported_twice = Some idx
       /\ idx.(inbox) = Some ["user-000#google_1#m1"; "user-000#google_1#m1"].
Proof.
  split; [vm_compute; reflexivity|].
  eexists. split; vm_compute; reflexivity.
Qed.

(** C4, as the specification words it, fails in two ways: an identifier
    that the inbox lists twice (here after an import of a listing that names
    the message twice) is still listed after [archive], and for the empty
    identifier the error is the missing-parameter one. *)
Lemma archive_law_fails :
  ~ archive_law "user-0001" sample_iso 1 "user-000#google_1#m1" imported_twice
  /\ ~ archive_law "u" sample_iso 0 "" (world_with "u" index_once).
Proof.
  split; intros H.
  - destruct imported_twice_run as (_ & idx & Hidx & Hinbox).
    destruct (H idx _ Hidx Hinbox) as [H1 _].
    destruct H1 as (w' & idx' & Hrun & Hidx' & [Habs _] & _); [now left|].
    vm_compute in Hrun. injection Hrun as <-.
    vm_compute in Hidx'. injection Hidx' as <-.
    apply Habs. now left.
  - destruct (H index_once ["u#a#m"] eq_refl eq_refl) as [_ H2].
    assert (Hnin : ~ In "" ["u#a#m"]) by (intros [E|[]]; discriminate E).
    specialize (H2 Hnin). vm_compute in H2. discriminate H2.
Qed.

(** ** Import *)

Lemma bind_inv {A B} (m : M A) (k : A -> M B) (w w' : world) (b : B) :
  bind m k w = (Ok b, w') ->
  exists a w1, m w = (Ok a, w1) /\ k a w1 = (Ok b, w').
Proof.
  unfold bind. destruct (m w) as [[a|e] w1]; intros H; [|discriminate].
  now exists a, w1.
Qed.

Lemma Ok_inj {A} (a b : A) : Ok a = Ok b -> a = b.
Proof. now intros [= ->]. Qed.

Lemma lift_inv {A} (r : result A) (w w' : world) (a : A) :
  lift r w = (Ok a, w') -> r = Ok a /\ w' = w.
Proof. unfold lift. intros [= -> ->]. now split. Qed.

Lemma arr_includes_In (l : list string) (x : string) :
  Js.arr_includes l x = true <-> In x l.
Proof.
  unfold Js.arr_includes. rewrite existsb_exists. split.
  - intros (y & Hy & E). apply String.eqb_eq in E. now subst.
  - intros H. exists x. split; [exact H|apply String.eqb_refl].
Qed.

Section ImportRuns.

Variable userId : string.
Variable toISOString : Z -> string.
Variable getUserAccounts : result (list (string * Account)).
Variable getGoogleSecrets : result unit.
Variable getIdsByLabel : string -> string -> result (list string).
Variable gmail_get : string -> string -> result EmailData.

Local Abbreviation import :=
  (importNewEmails userId toISOString getUserAccounts getGoogleSecrets
                   getIdsByLabel gmail_get).
Local Abbreviation accounts_loop :=
  (import_accounts userId toISOString getIdsByLabel gmail_get).
Local Abbreviation account_round :=
  (import_account userId toISOString getIdsByLabel gmail_get).
Local Abbreviation fetch_loop := (fetch_new userId toISOString gmail_get).

(** C10: when none of the user's linked accounts is a Google account,
    [importNewEmails] returns having only logged: both collections are as
    before (so an index that did not exist still does not) and no write was
    performed. *)
Theorem import_without_google_accounts (now : Z) (w : world)
    (accounts : list (string * Account)) :
  getUserAccounts = Ok accounts ->
  (forall acc, In acc accounts -> (snd acc).(acc_type) <> "google") ->
  exists w',
    import now w = (Ok tt, w')
    /\ w'.(mail) = w.(mail)
    /\ w'.(users) = w.(users)
    /\ (index_of userId w = None -> index_of userId w' = None)
    /\ exists evs, performed w w' evs
                   /\ Forall (fun ev => is_write ev = false) evs.
Proof.
  intros Hacc Hnone.
  assert (Hf : List.filter
                 (fun acc : string * Account =>
                    String.eqb (snd acc).(acc_type) "google") accounts = []).
  { clear Hacc. induction accounts as [|a l IH]; [reflexivity|].
    cbn [List.filter].
    destruct (String.eqb_spec (acc_type (snd a)) "google") as [E|_].
    - exfalso. apply (Hnone a); [now left|exact E].
    - apply IH. intros acc Hin. apply Hnone. now right. }
  unfold importNewEmails, bind, read_user, lift.
  rewrite Hacc, Hf. unfold logInfo, emit.
  eexists. split; [reflexivity|]. cbn [mail users trace].
  split; [reflexivity|]. split; [reflexivity|]. split; [tauto|].
  eexists. split; [reflexivity|]. repeat constructor.
Qed.

Lemma fetch_new_ids (now : Z) (accountId : string) (new : list string) :
  forall (newIds : list string) (w w' : world) (out : list string),
    fetch_loop now accountId new newIds w = (Ok out, w') ->
    out = (newIds ++ map (composeId userId accountId) new)%list.
Proof.
  induction new as [|emailId r IH]; intros newIds w w' out H.
  - cbn in H. injection H as <- _. now rewrite app_nil_r.
  - cbn [fetch_new] in H.
    apply bind_inv in H as (_ & w1 & _ & H).
    apply bind_inv in H as (d & w2 & _ & H).
    apply bind_inv in H as (_ & w3 & _ & H).
    apply IH in H. rewrite H, <- app_assoc. reflexivity.
Qed.

Local Abbreviation settled := (account_settled userId getIdsByLabel).

Lemma settled_mono (known known' : list string) (acc : string * Account) :
  (forall x, In x known -> In x known') ->
  settled known acc -> settled known' acc.
Proof.
  intros Hsub (Ht & emailIds & Hl & Hall). split; [exact Ht|].
  exists emailIds. split; [exact Hl|]. intros e He. apply Hsub, Hall, He.
Qed.

(** One round of the account loop that completes leaves the account
    settled with respect to the old ledger extended by the new IDs. *)
Lemma import_account_settles (now : Z) (cachedIds : CachedIds)
    (known inb new inb' new' : list string) (acc : string * Account)
    (w w' : world) :
  cachedIds.(ids) = Some known ->
  account_round now cachedIds (inb, new) acc w = (Ok (inb', new'), w') ->
  (exists added, new' = (new ++ added)%list)
  /\ settled (known ++ new') acc.
Proof.
  intros Hids H. destruct acc as [accountId accountData].
  unfold import_account in H.
  apply bind_inv in H as (_ & w1 & _ & H).
  destruct (Js.truthy (token accountData)) eqn:Htok; cbn [negb] in H;
    [|discriminate].
  apply bind_inv in H as (_ & w2 & _ & H).
  apply bind_inv in H as (emailIds & w3 & Hlist & H).
  apply bind_inv in H as (newEmailIds & w4 & Hnew & H).
  apply bind_inv in H as (_ & w5 & _ & H).
  apply bind_inv in H as (out & w6 & Hfetch & H).
  injection H as <- <- <-.
  apply fetch_new_ids in Hfetch. subst out.
  unfold lift in Hlist, Hnew.
  injection Hlist as Hlist _. injection Hnew as Hnew _.
  split; [eexists; reflexivity|].
  split; [exact Htok|]. exists emailIds. split; [exact Hlist|].
  intros e He. cbn [fst]. unfold newEmailIds_of in Hnew. rewrite Hids in Hnew.
  destruct emailIds as [|e0 r0]; [destruct He|].
  injection Hnew as <-.
  destruct (Js.arr_includes known (composeId userId accountId e)) eqn:Hk.
  - apply in_or_app. left. now apply arr_includes_In.
  - apply in_or_app. right. apply in_or_app. right.
    apply in_map.
    refine (proj2 (filter_In
              (fun emailId =>
                 negb (Js.arr_includes known (composeId userId accountId emailId)))
              e (e0 :: r0)) (conj He _)).
    now rewrite Hk.
Qed.

Lemma import_accounts_settle (now : Z) (cachedIds : CachedIds)
    (known : list string) (accs : list (string * Account)) :
  cachedIds.(ids) = Some known ->
  forall (inb new inb' new' : list string) (w w' : world),
    accounts_loop now cachedIds accs (inb, new) w = (Ok (inb', new'), w') ->
    (exists added, new' = (new ++ added)%list)
    /\ Forall (settled (known ++ new')) accs.
Proof.
  intros Hids. induction accs as [|acc r IH]; intros inb new inb' new' w w' H.
  - cbn in H. injection H as <- <- _. split; [|constructor].
    exists []. now rewrite app_nil_r.
  - cbn [import_accounts] in H.
    apply bind_inv in H as ([inb1 new1] & w1 & Hacc & H).
    destruct (import_account_settles _ _ _ _ _ _ _ _ _ _ Hids Hacc)
      as [[a1 ->] Hs].
    destruct (IH _ _ _ _ _ _ H) as [[a2 ->] Hr].
    split; [exists (a1 ++ a2)%list; now rewrite app_assoc|].
    constructor; [|exact Hr].
    apply (settled_mono (known ++ (new ++ a1))); [|exact Hs].
    intros x Hx. apply in_app_or in Hx as [Hx|Hx]; apply in_or_app;
      [now left|right]. apply in_or_app. now left.
Qed.

Lemma nothing_new (known : list string) (accountId : string)
    (emailIds : list string) :
  (forall emailId, In emailId emailIds ->
                   In (composeId userId accountId emailId) known) ->
  newEmailIds_of userId (mkCachedIds (Some known) None None None None None)
                 accountId emailIds = Ok [].
Proof.
  intros Hall. unfold newEmailIds_of. cbn [ids].
  destruct emailIds as [|e0 r0]; [reflexivity|]. f_equal.
  induction (e0 :: r0) as [|e r IH]; [reflexivity|]. cbn [List.filter].
  assert (Hin : Js.arr_includes known (composeId userId accountId e) = true).
  { apply arr_includes_In, Hall. now left. }
  rewrite Hin. cbn [negb]. apply IH. intros x Hx. apply Hall. now right.
Qed.

Lemma newEmailIds_of_ids (c1 c2 : CachedIds) (accountId : string)
    (emailIds : list string) :
  c1.(ids) = c2.(ids) ->
  newEmailIds_of userId c1 accountId emailIds
  = newEmailIds_of userId c2 accountId emailIds.
Proof. unfold newEmailIds_of. now intros ->. Qed.

(** Over settled accounts the account loop only lists and logs. *)
Lemma import_accounts_quiet (now : Z) (cachedIds : CachedIds)
    (known : list string) (accs : list (string * Account)) :
  cachedIds.(ids) = Some known ->
  Forall (settled known) accs ->
  forall (inb new : list string) (w : world),
  exists inb' w' evs,
    accounts_loop now cachedIds accs (inb, new) w = (Ok (inb', new), w')
    /\ w'.(mail) = w.(mail) /\ w'.(users) = w.(users)
    /\ performed w w' evs /\ quiet evs.
Proof.
  intros Hids Hall. induction Hall as [|[accountId accountData] r Hs _ IH];
    intros inb new w.
  - exists inb, w, []. cbn. unfold performed, quiet.
    rewrite app_nil_r. repeat split; constructor.
  - destruct Hs as (Htok & emailIds & Hlist & Hknown). cbn [fst snd] in *.
    pose (w1 := mkWorld w.(mail) w.(users)
                  (w.(trace) ++ [EvLogInfo ("Processing account for new mail: "
                                            ++ accountId)]
                   ++ [EvList accountId LABEL_ID]
                   ++ [EvLogInfo "Found new emails"])%list).
    destruct (IH (inb ++ map (composeId userId accountId) emailIds)%list new w1)
      as (inb' & w' & evs & Hrun & Hm & Hu & Hp & Hq).
    exists inb', w'. eexists. split; [|split; [exact Hm|split; [exact Hu|]]].
    + cbn [import_accounts]. unfold bind at 1.
      assert (Hround :
        account_round now cachedIds (inb, new) (accountId, accountData) w
        = (Ok ((inb ++ map (composeId userId accountId) emailIds)%list, new), w1)).
      { unfold import_account, bind, logInfo, emit, lift.
        cbn [mail users trace]. rewrite Htok. cbn [negb].
        rewrite Hlist.
        rewrite (newEmailIds_of_ids cachedIds
                   (mkCachedIds (Some known) None None None None None));
          [|exact Hids].
        rewrite (nothing_new _ _ _ Hknown).
        cbn [fetch_new ret mail users trace].
        unfold w1. repeat rewrite <- app_assoc. reflexivity. }
      rewrite Hround. exact Hrun.
    + split.
      * unfold performed in *. rewrite Hp. unfold w1. cbn [trace].
        rewrite <- app_assoc. reflexivity.
      * unfold quiet in *. repeat (apply Forall_app; split);
          try exact Hq; repeat constructor.
Qed.

(** C6: when a run of [importNewEmails] has completed and the accounts,
    listings and messages of the remote side are unchanged, the next run
    completes too, leaves the [ids] ledger as the first run left it, leaves
    every message document as it was, and neither fetches a message nor
    writes a message document. *)
Theorem import_idempotent (now1 now2 : Z) (w w1 : world) :
  import now1 w = (Ok tt, w1) ->
  exists w2 evs,
    import now2 w1 = (Ok tt, w2)
    /\ ledger userId w2 = ledger userId w1
    /\ w2.(mail) = w1.(mail)
    /\ performed w1 w2 evs
    /\ quiet evs.
Proof.
  intros H. unfold importNewEmails in H.
  apply bind_inv in H as (doc & w0 & Hread & H).
  unfold read_user in Hread. injection Hread as <- <-.
  apply bind_inv in H as (accounts & w0 & Hacc & H).
  apply lift_inv in Hacc as [Hacc ->].
  destruct (List.filter
              (fun acc : string * Account =>
                 String.eqb (snd acc).(acc_type) "google") accounts)
    as [|g gs] eqn:Hg.
  - (* no Google account: both runs only log *)
    unfold logInfo, emit in H. injection H as <-.
    eexists. eexists. split.
    + unfold importNewEmails, bind, read_user, lift. cbn [users].
      rewrite Hacc, Hg. unfold logInfo, emit. reflexivity.
    + cbn [mail users trace]. unfold ledger, index_of, performed, quiet.
      cbn [users trace]. repeat split. repeat constructor.
  - apply bind_inv in H as (u & w0 & Hsec & H).
    apply lift_inv in Hsec as [Hsec ->].
    apply bind_inv in H as ([inb newIds] & wa & Hloop & H).
    apply bind_inv in H as (ids' & wb & Hids & H).
    apply lift_inv in Hids as [Hids ->].
    apply bind_inv in H as (queue' & wc & Hqueue & H).
    apply lift_inv in Hqueue as [Hqueue ->].
    apply bind_inv in H as (u' & wd & Hwrite & H).
    destruct u'. unfold write_user in Hwrite. injection Hwrite as <-.
    unfold logInfo, emit in H. cbn [mail users trace] in H. injection H as <-.
    set (cachedIds := match users w !! cacheIdsKey userId with
                      | Some d => d
                      | None => emptyCachedIds
                      end) in *.
    destruct (ids cachedIds) as [known|] eqn:Hknown; [|discriminate].
    cbn [concat_field] in Hids. injection Hids as <-.
    destruct (import_accounts_settle _ _ _ _ Hknown _ _ _ _ _ _ Hloop)
      as [_ Hsettled].
    cbn [app] in Hsettled.
    set (doc1 := mkCachedIds (Some (known ++ newIds)%list) (Some inb) None
                   (Some (match newMail cachedIds with
                          | Some l => l
                          | None => []
                          end ++ newIds)%list)
                   (Some queue') (Some (toISOString now1))) in *.
    set (w1 := mkWorld (mail wa) (<[cacheIdsKey userId := doc1]> (users wa))
                 ((trace wa ++ [EvWrite USER_COLLECTION (cacheIdsKey userId)])
                  ++ [EvLogInfo "Mail cache refresh completed"])).
    destruct (import_accounts_quiet now2 doc1 (known ++ newIds)%list (g :: gs)
                eq_refl Hsettled [] [] w1)
      as (inb2 & w2 & evs & Hrun2 & Hm2 & Hu2 & Hp2 & Hq2).
    assert (Hlk : users w1 !! cacheIdsKey userId = Some doc1)
      by apply lookup_insert_eq.
    eexists. exists (evs ++ [EvWrite USER_COLLECTION (cacheIdsKey userId);
                             EvLogInfo "Mail cache refresh completed"])%list.
    split.
    + unfold importNewEmails, bind at 1, read_user. fold w1. rewrite Hlk.
      unfold bind at 1, lift at 1. rewrite Hacc, Hg.
      unfold bind at 1, lift at 1. rewrite Hsec.
      unfold bind at 1. rewrite Hrun2.
      unfold bind, lift, concat_field, write_user, logInfo, emit.
      cbn [ids summarizationQueue doc1 mail users trace]. reflexivity.
    + cbn [mail users trace]. unfold ledger, index_of. cbn [users].
      rewrite lookup_insert_eq. fold w1. rewrite Hlk. cbn [ids doc1].
      split; [now rewrite app_nil_r|]. split; [exact Hm2|]. split.
      * unfold performed in *. cbn [trace]. rewrite Hp2.
        rewrite <- !app_assoc. reflexivity.
      * unfold quiet in *. apply Forall_app. split; [exact Hq2|].
        repeat constructor.
Qed.

End ImportRuns.

Lemma import_idempotent_witness :
  exists w1 w2,
    importNewEmails "user-0001" sample_iso sample_accounts (Ok tt)
                    sample_listing sample_fetch 0 empty_world = (Ok tt, w1)
    /\ importNewEmails "user-0001" sample_iso sample_accounts (Ok tt)
                       sample_listing sample_fetch 1 w1 = (Ok tt, w2)
    /\ ledger "user-0001" w2 = ledger "user-0001" w1
    /\ w2.(mail) = w1.(mail).
Proof.
  pose (w1 := snd (importNewEmails "user-0001" sample_iso sample_accounts
                     (Ok tt) sample_listing sample_fetch 0 empty_world)).
  assert (Hrun : importNewEmails "user-0001" sample_iso sample_accounts (Ok tt)
                   sample_listing sample_fetch 0 empty_world = (Ok tt, w1))
    by (vm_compute; reflexivity).
  destruct (import_idempotent "user-0001" sample_iso sample_accounts (Ok tt)
              sample_listing sample_fetch 0 1 empty_world w1 Hrun)
    as (w2 & evs & Hrun2 & Hledger & Hmail & _).
  exists w1, w2. auto.
Defined.

Lemma import_without_google_accounts_witness :
  exists w',
    importNewEmails "user-0001" sample_iso
      (Ok [("slack_1", mkAccount "slack" None)]) (Ok tt)
      sample_listing sample_fetch 0 empty_world = (Ok tt, w')
    /\ w'.(mail) = ∅ /\ w'.(users) = ∅.
Proof.
  destruct (import_without_google_accounts "user-0001" sample_iso
              (Ok [("slack_1", mkAccount "slack" None)]) (Ok tt)
              sample_listing sample_fetch 0 empty_world
              [("slack_1", mkAccount "slack" None)] eq_refl)
    as (w' & Hrun & Hm & Hu & _).
  - intros acc [<-|[]]. discriminate.
  - exists w'. auto.
Defined.

(** ** View maintenance *)

Lemma insert_by_perm {A} (cmp : A -> A -> Q) (x : A) (l : list A) :
  Permutation (insert_by cmp x l) (x :: l).
Proof.
  induction l as [|y l IH]; cbn [insert_by]; [reflexivity|].
  destruct (Qle_bool (cmp x y) 0); [reflexivity|].
  rewrite IH. apply perm_swap.
Qed.

Lemma js_sort_perm {A} (cmp : A -> A -> Q) (l : list A) :
  Permutation (js_sort cmp l) l.
Proof.
  induction l as [|x l IH]; cbn [js_sort fold_right]; [reflexivity|].
  fold (js_sort cmp l). rewrite insert_by_perm. now constructor.
Qed.

Section Descending.

Variable key : CachedMessage -> Q.
Local Abbreviation cmp := (fun a b : CachedMessage => key b - key a)%Q.

Lemma insert_by_descending (x : CachedMessage) (l : list CachedMessage) :
  descending key l -> descending key (insert_by cmp x l).
Proof.
  unfold descending. induction l as [|y l IH]; intros Hs; cbn [insert_by].
  - repeat constructor.
  - apply StronglySorted_inv in Hs as [Hl Hy].
    destruct (Qle_bool (key y - key x) 0) eqn:E.
    + apply Qle_bool_iff in E.
      constructor; [constructor; assumption|].
      constructor; [lra|].
      eapply Forall_impl; [exact Hy|]. cbn. intros z Hz. lra.
    + assert (Hlt : (0 < key y - key x)%Q).
      { apply Qnot_le_lt. intros Hle. apply Qle_bool_iff in Hle. congruence. }
      constructor; [apply IH, Hl|].
      eapply Permutation_Forall; [symmetry; apply insert_by_perm|].
      constructor; [lra|exact Hy].
Qed.

Lemma js_sort_descending (l : list CachedMessage) :
  descending key (js_sort cmp l).
Proof.
  induction l as [|x l IH]; cbn [js_sort fold_right]; [constructor|].
  apply insert_by_descending, IH.
Qed.

End Descending.


Lemma mapM_get_inv (l : list string) :
  forall (w w' : world) (found : list (option CachedMessage)),
    mapM get l w = (Ok found, w') ->
    w' = w /\ Forall2 (fun id o => o = w.(mail) !! id) l found.
Proof.
  induction l as [|id l IH]; intros w w' found H.
  - cbn in H. injection H as <- <-. split; constructor.
  - cbn [mapM] in H.
    apply bind_inv in H as (o & w1 & Hget & H).
    apply bind_inv in H as (os & w2 & Hrest & H).
    cbn in H. injection H as <- <-.
    unfold get in Hget. destruct (String.eqb id ""); [discriminate|].
    unfold read_mail in Hget. injection Hget as <- <-.
    apply IH in Hrest as [-> Hall]. split; [reflexivity|].
    constructor; [reflexivity|exact Hall].
Qed.

Lemma mapM_get_total (l : list string) (w : world) :
  Forall (fun id => id <> "" /\ is_Some (w.(mail) !! id)) l ->
  exists loaded, mapM get l w = (Ok (map Some loaded), w).
Proof.
  induction l as [|id r IH]; intros Hall.
  - now exists [].
  - apply Forall_cons in Hall as [[Hid [m Hm]] Hr].
    destruct (IH Hr) as [loaded Hl]. exists (m :: loaded).
    assert (Hg : get id w = (Ok (Some m), w)).
    { unfold get. apply String.eqb_neq in Hid. rewrite Hid.
      unfold read_mail. now rewrite Hm. }
    cbn [mapM]. unfold bind. rewrite Hg, Hl. reflexivity.
Qed.

Lemma all_found_inv (found : list (option CachedMessage)) :
  forall loaded, all_found found = Ok loaded -> found = map Some loaded.
Proof.
  induction found as [|[e|] r IH]; intros loaded H; cbn in H.
  - injection H as <-. reflexivity.
  - destruct (all_found r) as [es|]; cbn in H; [|discriminate].
    injection H as <-. cbn. f_equal. now apply IH.
  - discriminate.
Qed.

Section Views.

Variable userId : string.
Variable toISOString : Z -> string.

(** C8: after a call of [updateInbox] that completes, the persisted
    [inbox] and [deletables] are the identifiers of the same documents (the
    ones stored under the identifiers of the previous inbox), hence each a
    permutation of the other, [inbox] in descending order of
    [priorityScore || 0] and [deletables] in descending order of
    [deletableScore || 0]; the documents themselves are not touched. *)
Theorem updateInbox_views (now : Z) (cachedIds : CachedIds) (w w' : world) :
  updateInbox userId toISOString now cachedIds w = (Ok tt, w') ->
  exists old loaded emails deletableEmails idx',
    cachedIds.(inbox) = Some old
    /\ Forall2 (fun id m => w.(mail) !! id = Some m) old loaded
    /\ Permutation loaded emails
    /\ Permutation loaded deletableEmails
    /\ descending priority_key emails
    /\ descending deletable_key deletableEmails
    /\ index_of userId w' = Some idx'
    /\ idx'.(inbox) = Some (map _id emails)
    /\ idx'.(deletables) = Some (map _id deletableEmails)
    /\ Permutation (map _id emails) (map _id deletableEmails)
    /\ w'.(mail) = w.(mail).
Proof.
  unfold updateInbox. intros H.
  destruct (inbox cachedIds) as [old|] eqn:Hold; [|discriminate].
  apply bind_inv in H as (found & w1 & Hget & H).
  apply mapM_get_inv in Hget as [-> Hfound].
  apply bind_inv in H as (loaded & w1 & Hall & H).
  apply lift_inv in Hall as [Hall ->].
  apply all_found_inv in Hall. subst found.
  apply bind_inv in H as ([] & w1 & Hwrite & H).
  unfold write_user in Hwrite. injection Hwrite as <-.
  unfold logInfo, emit in H. cbn [mail users trace] in H. injection H as <-.
  exists old, loaded, (js_sort by_priority loaded),
    (js_sort by_deletable (js_sort by_priority loaded)).
  eexists. split; [reflexivity|]. split.
  { clear -Hfound. revert old Hfound.
    induction loaded as [|m r IH]; intros old H; inversion H; subst;
      constructor; auto. }
  split; [symmetry; apply js_sort_perm|]. split.
  { symmetry. rewrite js_sort_perm. apply js_sort_perm. }
  split; [exact (js_sort_descending priority_key loaded)|]. split.
  { exact (js_sort_descending deletable_key (js_sort by_priority loaded)). }
  split; [unfold index_of; cbn [users]; apply lookup_insert_eq|].
  split; [reflexivity|]. split; [reflexivity|].
  split; [|reflexivity].
  apply Permutation_map. symmetry. apply js_sort_perm.
Qed.

(** [updateInbox] completes whenever the inbox lists only non-empty
    identifiers of stored documents. *)
Lemma updateInbox_completes (now : Z) (cachedIds : CachedIds) (w : world)
    (old : list string) :
  cachedIds.(inbox) = Some old ->
  Forall (fun id => id <> "" /\ is_Some (w.(mail) !! id)) old ->
  exists w', updateInbox userId toISOString now cachedIds w = (Ok tt, w').
Proof.
  intros Hold Hall. unfold updateInbox. rewrite Hold.
  destruct (mapM_get_total old w Hall) as [loaded Hget].
  assert (Hfound : all_found (map Some loaded) = Ok loaded).
  { clear. induction loaded as [|m r IH]; cbn; [reflexivity|].
    now rewrite IH. }
  unfold bind at 1. rewrite Hget. unfold bind at 1, lift. rewrite Hfound.
  unfold bind, write_user, logInfo, emit. eexists. reflexivity.
Qed.

End Views.

Lemma updateInbox_views_witness :
  exists w' idx',
    updateInbox "u" sample_iso 0 sample_index sample_mailbox = (Ok tt, w')
    /\ index_of "u" w' = Some idx'
    /\ Permutation (view idx'.(inbox)) (view idx'.(deletables)).
Proof.
  pose (w' := snd (updateInbox "u" sample_iso 0 sample_index sample_mailbox)).
  assert (Hrun : updateInbox "u" sample_iso 0 sample_index sample_mailbox
                 = (Ok tt, w')) by (vm_compute; reflexivity).
  destruct (updateInbox_views "u" sample_iso 0 sample_index sample_mailbox w' Hrun)
    as (old & loaded & emails & dels & idx' & _ & _ & _ & _ & _ & _ & Hidx
        & Hin & Hdel & Hperm & _).
  exists w', idx'. rewrite Hin, Hdel. auto.
Defined.

(** ** Advanced scoring *)

Lemma Math_clamp (x : Q) :
  (Js.Math_max (Js.Math_min x 1) 0 == clamp x 0 1)%Q.
Proof.
  unfold Js.Math_max, Js.Math_min, clamp.
  destruct (Qle_bool x 1) eqn:E1.
  - apply Qle_bool_iff in E1. rewrite (Q.min_l _ _ E1).
    destruct (Qle_bool x 0) eqn:E0.
    + apply Qle_bool_iff in E0. now rewrite (Q.max_l _ _ E0).
    + assert (H : (0 <= x)%Q).
      { apply Qlt_le_weak, Qnot_le_lt. intros H. apply Qle_bool_iff in H.
        congruence. }
      now rewrite (Q.max_r _ _ H).
  - assert (H : (1 <= x)%Q).
    { apply Qlt_le_weak, Qnot_le_lt. intros H. apply Qle_bool_iff in H.
      congruence. }
    rewrite (Q.min_r _ _ H).
    assert (E0 : Qle_bool 1 0 = false) by reflexivity. rewrite E0.
    rewrite Q.max_r; [reflexivity|lra].
Qed.

Lemma Qgeb_true (p q : Q) : Js.Qgeb p q = true -> (q <= p)%Q.
Proof. unfold Js.Qgeb. apply Qle_bool_iff. Qed.

Lemma Qgeb_false (p q : Q) : Js.Qgeb p q = false -> (p < q)%Q.
Proof.
  unfold Js.Qgeb. intros E. apply Qnot_le_lt. intros H.
  apply Qle_bool_iff in H. congruence.
Qed.

Lemma priorityLabel_tier (p : Q) : tier_of p (priorityLabel_of p).
Proof.
  unfold tier_of, priorityLabel_of.
  destruct (Js.Qgeb p 0.8) eqn:E8;
    [apply Qgeb_true in E8|apply Qgeb_false in E8];
  (destruct (Js.Qgeb p 0.6) eqn:E6;
    [apply Qgeb_true in E6|apply Qgeb_false in E6]);
  (destruct (Js.Qgeb p 0.4) eqn:E4;
    [apply Qgeb_true in E4|apply Qgeb_false in E4]);
  (destruct (Js.Qgeb p 0.2) eqn:E2;
    [apply Qgeb_true in E2|apply Qgeb_false in E2]);
  repeat split; intros; try reflexivity; exfalso; lra.
Qed.

Section AdvancedScoring.

Variable Date_getTime : string -> option Z.

(** C7: whenever the advanced scoring pass returns, the priority score of
    its result is [clamp(0.7*importanceScore + 0.3*urgencyScore
    - 0.5*deletableScore, 0, 1)] over the importance, urgency and deletable
    scores of that same result, and the priority label is the tier of that
    priority score. *)
Theorem applyAdvancedScoring_priority (now : Z) (email : option CachedMessage)
    (s : CachedMessage) :
  applyAdvancedScoring Date_getTime now email = Ok s ->
  exists u d p label,
    s.(urgencyScore) = Some u
    /\ s.(deletableScore) = Some d
    /\ s.(priorityScore) = Some p
    /\ (p == clamp (0.7 * s.(importanceScore) + 0.3 * u - 0.5 * d) 0 1)%Q
    /\ s.(priorityLabel) = Some label
    /\ tier_of p label.
Proof.
  unfold applyAdvancedScoring. intros H.
  destruct (valid_email email _) as [e|]; cbn [rbind] in H; [|discriminate].
  destruct (from e) as [sender|]; [|discriminate].
  injection H as <-.
  cbn [urgencyScore deletableScore priorityScore priorityLabel importanceScore
       set_priorityLabel set_priorityScore set_urgencyScore set_deletableScore
       set_importanceScore].
  do 4 eexists. split; [reflexivity|]. split; [reflexivity|].
  split; [reflexivity|]. split; [apply Math_clamp|].
  split; [reflexivity|apply priorityLabel_tier].
Qed.

(** The pass returns for every message that has an identifier and a sender. *)
Lemma applyAdvancedScoring_completes (now : Z) (e : CachedMessage)
    (sender : string) :
  e.(_id) <> "" -> e.(from) = Some sender ->
  exists s, applyAdvancedScoring Date_getTime now (Some e) = Ok s.
Proof.
  intros Hid Hfrom. unfold applyAdvancedScoring, valid_email.
  apply String.eqb_neq in Hid. rewrite Hid. cbn [negb rbind]. rewrite Hfrom.
  eexists. reflexivity.
Qed.

End AdvancedScoring.

Lemma applyAdvancedScoring_priority_witness :
  exists s p,
    applyAdvancedScoring sample_dates ten_days_later
      (Some (sample_message "u#a#m1" 0 0)) = Ok s
    /\ s.(priorityScore) = Some p
    /\ (p == 0.47)%Q
    /\ s.(priorityLabel) = Some "Medium".
Proof.
  pose (s := match applyAdvancedScoring sample_dates ten_days_later
                     (Some (sample_message "u#a#m1" 0 0)) with
             | Ok s => s
             | Throw _ => sample_message "" 0 0
             end).
  assert (Hr : applyAdvancedScoring sample_dates ten_days_later
                 (Some (sample_message "u#a#m1" 0 0)) = Ok s)
    by (vm_compute; reflexivity).
  destruct (applyAdvancedScoring_priority sample_dates ten_days_later _ s Hr)
    as (u & d & p & label & Hu & Hd & Hp & Hclamp & Hlabel & Htier).
  exists s, p. split; [exact Hr|]. split; [exact Hp|].
  vm_compute in Hp. injection Hp as <-. split; reflexivity.
Defined.

(** ** Sentiment analysis and temporal decay *)

Section Decay.

Variable Date_getTime : string -> option Z.
Variable Math_exp : Q -> Q.

Local Abbreviation factor := (decay_factor Math_exp).

(** The decay block, on a clone that still has the date and the priority
    score of the argument. *)
Lemma apply_decay_old (now t : Z) (p : Q) (e a : CachedMessage) :
  a.(date) = e.(date) ->
  a.(priorityScore) = e.(priorityScore) ->
  email_time Date_getTime e.(date) = Some t ->
  (3 < ageInDays now t)%Q ->
  e.(priorityScore) = Some p ->
  let s := apply_decay Date_getTime Math_exp now e a in
  s.(priorityScore)
    = Some (Js.Math_max (p * factor (ageInDays now t)) (p * 0.3))%Q
  /\ s.(decayFactor) = Some (factor (ageInDays now t))
  /\ s.(decayApplied) = true.
Proof.
  intros Hd Hp Ht Hage Hprio. unfold apply_decay. rewrite Hd, Ht.
  assert (Hgt : Js.Qgtb (ageInDays now t) 3 = true).
  { unfold Js.Qgtb. destruct (Qle_bool (ageInDays now t) 3) eqn:E;
      [|reflexivity]. apply Qle_bool_iff in E. exfalso. lra. }
  rewrite Hgt, Hp, Hprio. cbn. repeat split.
Qed.

(** The two ways through the pass: a message whose sentiment is already set
    is returned as it is, without decay; for a message whose sentiment is not
    set and whose date is more than three days before [now], the priority
    score becomes the larger of [priorityScore * exp(-0.1 * (ageDays - 3))]
    and 30% of the priority score it had, and [decayFactor] and
    [decayApplied] are recorded. *)
Theorem applySentimentAnalysis_decay (now : Z) (e : CachedMessage) :
  e.(_id) <> "" ->
  (Js.truthy e.(sentiment) = true ->
   applySentimentAnalysis Date_getTime Math_exp now (Some e) = Ok e)
  /\ (Js.truthy e.(sentiment) = false ->
      forall (t : Z) (p : Q),
        email_time Date_getTime e.(date) = Some t ->
        (3 < ageInDays now t)%Q ->
        e.(priorityScore) = Some p ->
        exists s,
          applySentimentAnalysis Date_getTime Math_exp now (Some e) = Ok s
          /\ s.(priorityScore)
             = Some (Js.Math_max (p * factor (ageInDays now t)) (p * 0.3))%Q
          /\ s.(decayFactor) = Some (factor (ageInDays now t))
          /\ s.(decayApplied) = true).
Proof.
  intros Hid. apply String.eqb_neq in Hid.
  unfold applySentimentAnalysis, valid_email. rewrite Hid. cbn [negb rbind].
  split; intros Hs; rewrite Hs; [reflexivity|].
  intros t p Ht Hage Hp. eexists. split; [reflexivity|].
  apply apply_decay_old; try assumption;
    repeat match goal with
           | |- context [if ?c then _ else _] => destruct c
           end; reflexivity.
Qed.

End Decay.

Lemma applySentimentAnalysis_decay_witness :
  exists s,
    applySentimentAnalysis sample_dates exp_series ten_days_later
      (Some (sample_message "u#a#m1" 0.5 0.1)) = Ok s
    /\ s.(decayApplied) = true.
Proof.
  destruct (applySentimentAnalysis_decay sample_dates exp_series ten_days_later
              (sample_message "u#a#m1" 0.5 0.1)) as [_ H].
  - discriminate.
  - destruct (H eq_refl 1752138000000%Z 0.5%Q eq_refl) as (s & Hs & _ & _ & Hd).
    + vm_compute. reflexivity.
    + reflexivity.
    + exists s. split; [exact Hs|exact Hd].
Defined.

(** C2 fails on the code: a message dated ten days before the current time
    that enters the pass with the sentiment the language model named is
    returned as it came, its priority score still 0.5 and no decay recorded,
    where C2 asks for the score times [exp(-0.1 * 7)] (at least 0.15) with
    [decayFactor] and [decayApplied] recorded.  The pass returns at its first
    test, [if (email.sentiment)], before the decay block is reached. *)
Theorem applySentimentAnalysis_skips_decay :
  email_time sample_dates neutral_mail.(date) = Some 1752138000000%Z
  /\ (3 < ageInDays ten_days_later 1752138000000)%Q
  /\ neutral_mail.(priorityScore) = Some 0.5%Q
  /\ applySentimentAnalysis sample_dates exp_series ten_days_later
       (Some neutral_mail) = Ok neutral_mail
  /\ neutral_mail.(decayApplied) = false
  /\ neutral_mail.(decayFactor) = None
  /\ ~ decay_law sample_dates exp_series ten_days_later neutral_mail.
Proof.
  assert (Hage : (3 < ageInDays ten_days_later 1752138000000)%Q)
    by (vm_compute; reflexivity).
  split; [reflexivity|]. split; [exact Hage|]. split; [reflexivity|].
  split; [vm_compute; reflexivity|]. split; [reflexivity|].
  split; [reflexivity|].
  intros H.
  destruct (H 1752138000000%Z 0.5%Q eq_refl Hage eq_refl)
    as (s & Hs & _ & _ & Hd).
  vm_compute in Hs. injection Hs as <-. discriminate Hd.
Qed.

(** ** The enrichment pipeline *)

(** C1 fails on the code: the invoice message completes the five steps with
    a deletable score of 1.25.  Advanced scoring caps the score at 1 (here at
    0.3 + 0.35 + 0.5 * 0.4 = 0.85), then categorization adds 0.4 for the
    invoice without capping again. *)
Theorem enrich_deletableScore_above_one :
  exists s d,
    enrich "" sample_dates exp_series sample_iso invoice_reply ten_days_later
           (Some invoice_mail) = Ok s
    /\ s.(deletableScore) = Some d
    /\ (d == 1.25)%Q
    /\ ~ unit_score d.
Proof.
  pose (s := match enrich "" sample_dates exp_series sample_iso invoice_reply
                     ten_days_later (Some invoice_mail) with
             | Ok s => s
             | Throw _ => invoice_mail
             end).
  exists s, (Js.or0 s.(deletableScore)).
  split; [vm_compute; reflexivity|]. split; [vm_compute; reflexivity|].
  split; [vm_compute; reflexivity|].
  intros [_ H]. vm_compute in H. apply H. reflexivity.
Qed.

Section Enrichment.

Variable userId contacts : string.
Variable Date_getTime : string -> option Z.
Variable Math_exp : Q -> Q.
Variable toISOString : Z -> string.
Variable converse : CachedMessage -> result AiReply.

(** The body of the [try] block never completes: when the five steps
    succeed, the use of [processedEmails] throws before the identifier is
    taken off the set of remaining ones. *)
Lemma try_enrich_throws (now : Z) (email : option CachedMessage)
    (remaining : list string) :
  exists err,
    try_enrich contacts Date_getTime Math_exp toISOString converse now email
               remaining = Throw err.
Proof.
  unfold try_enrich.
  destruct (enrich contacts Date_getTime Math_exp toISOString converse now email)
    as [s|err]; cbn; eexists; reflexivity.
Qed.

(** Hence every callback of a batch leaves the set of remaining identifiers
    as it found it. *)
Lemma process_email_keeps (now : Z) (email : option CachedMessage)
    (remaining remaining' : list string) (w w' : world) :
  process_email contacts Date_getTime Math_exp toISOString converse now email
                remaining w = (Ok remaining', w') ->
  remaining' = remaining.
Proof.
  unfold process_email.
  destruct (try_enrich_throws now email remaining) as [err ->].
  destruct email as [e|]; [|discriminate].
  unfold bind, logError, emit, ret. now intros [= <- _].
Qed.

Local Abbreviation batch :=
  (process_batch contacts Date_getTime Math_exp toISOString converse).
Local Abbreviation batches :=
  (process_batches contacts Date_getTime Math_exp toISOString converse).

Lemma process_batch_keeps (now : Z) (emails : list (option CachedMessage)) :
  forall (remaining remaining' : list string) (w w' : world),
    batch now emails remaining w = (Ok remaining', w') ->
    remaining' = remaining.
Proof.
  induction emails as [|email r IH]; intros remaining remaining' w w' H.
  - cbn in H. now injection H as <- _.
  - cbn [process_batch] in H.
    destruct (process_email contacts Date_getTime Math_exp toISOString converse
                now email remaining w) as [[rem1|err] w1] eqn:E;
      [|discriminate].
    apply process_email_keeps in E. subst rem1. exact (IH _ _ _ _ H).
Qed.

Lemma process_batches_keeps (now : Z) (bs : list (list string)) :
  forall (remaining remaining' : list string) (w w' : world),
    batches now bs remaining w = (Ok remaining', w') ->
    remaining' = remaining.
Proof.
  induction bs as [|b r IH]; intros remaining remaining' w w' H.
  - cbn in H. now injection H as <- _.
  - cbn [process_batches] in H.
    apply bind_inv in H as (emails & w1 & _ & H).
    apply bind_inv in H as (rem1 & w2 & Hb & H).
    apply bind_inv in H as (u & w3 & _ & H).
    apply process_batch_keeps in Hb. subst rem1. exact (IH _ _ _ _ H).
Qed.

(** A run of [supplySummaries] that completes on a non-empty queue persists
    the whole queue again (without repetitions): nothing is ever taken off. *)
Lemma supplySummaries_never_dequeues (now : Z) (w w' : world)
    (idx : CachedIds) (queue : list string) :
  index_of userId w = Some idx ->
  idx.(summarizationQueue) = Some queue ->
  queue <> [] ->
  supplySummaries userId contacts Date_getTime Math_exp toISOString converse
                  now w = (Ok tt, w') ->
  persisted_queue userId w' = Some (Js.unique queue).
Proof.
  intros Hidx Hq Hne H. unfold supplySummaries in H.
  apply bind_inv in H as (doc & w0 & Hread & H).
  unfold read_user in Hread. injection Hread as <- <-.
  unfold index_of in Hidx. rewrite Hidx, Hq in H.
  destruct queue as [|q0 qs]; [contradiction|].
  apply bind_inv in H as (u & w1 & _ & H).
  apply bind_inv in H as (remaining & w2 & Hb & H).
  apply process_batches_keeps in Hb. subst remaining.
  apply bind_inv in H as (u' & w3 & Hupd & H).
  unfold logInfo, emit in H. injection H as <-.
  unfold persisted_queue, index_of. cbn [users].
  unfold updateInbox in Hupd. cbn [inbox] in Hupd.
  destruct (inbox idx) as [old|]; [|discriminate].
  apply bind_inv in Hupd as (found & w4 & _ & Hupd).
  apply bind_inv in Hupd as (loaded & w5 & _ & Hupd).
  apply bind_inv in Hupd as (u'' & w6 & Hwrite & Hupd).
  unfold write_user in Hwrite. injection Hwrite as _ <-.
  unfold logInfo, emit in Hupd. cbn [mail users trace] in Hupd.
  injection Hupd as _ <-. cbn [users].
  rewrite lookup_insert_eq. reflexivity.
Qed.

End Enrichment.

(** C3 fails on the code: the queued invoice message completes the five
    steps, yet [supplySummaries] logs a failure for it and persists a queue
    that still holds its identifier. *)
Theorem supplySummaries_keeps_enriched_message :
  (exists s,
     enrich "" sample_dates exp_series sample_iso invoice_reply ten_days_later
            (Some invoice_mail) = Ok s)
  /\ exists w',
       supplySummaries "u" "" sample_dates exp_series sample_iso invoice_reply
                       ten_days_later queue_world = (Ok tt, w')
       /\ persisted_queue "u" w' = Some ["u#a#m1"]
       /\ In (EvLogError "Failed to process email" "u#a#m1") w'.(trace).
Proof.
  split.
  - eexists. vm_compute. reflexivity.
  - eexists. split; [vm_compute; reflexivity|].
    split; [vm_compute; reflexivity|].
    cbn. right. left. reflexivity.
Qed.

(** ** Which scores stay within [0, 1] *)

Local Open Scope Q_scope.

Lemma Math_min_cases (a b : Q) :
  (a <= b /\ Js.Math_min a b = a) \/ (b <= a /\ Js.Math_min a b = b).
Proof.
  unfold Js.Math_min. destruct (Qle_bool a b) eqn:E.
  - left. split; [now apply Qle_bool_iff|reflexivity].
  - right. split; [|reflexivity]. apply Qlt_le_weak, Qnot_le_lt.
    intros H. apply Qle_bool_iff in H. congruence.
Qed.

Lemma Math_max_cases (a b : Q) :
  (a <= b /\ Js.Math_max a b = b) \/ (b <= a /\ Js.Math_max a b = a).
Proof.
  unfold Js.Math_max. destruct (Qle_bool a b) eqn:E.
  - left. split; [now apply Qle_bool_iff|reflexivity].
  - right. split; [|reflexivity]. apply Qlt_le_weak, Qnot_le_lt.
    intros H. apply Qle_bool_iff in H. congruence.
Qed.

Lemma Math_min_within (a cap : Q) :
  (0 <= a -> 0 <= cap -> 0 <= Js.Math_min a cap <= cap)%Q.
Proof.
  intros Ha Hc. destruct (Math_min_cases a cap) as [[H ->]|[H ->]]; lra.
Qed.

Lemma Math_clamp_unit (x : Q) : unit_score (Js.Math_max (Js.Math_min x 1) 0).
Proof.
  unfold unit_score.
  destruct (Math_min_cases x 1) as [[H1 ->]|[H1 ->]];
    [destruct (Math_max_cases x 0) as [[H0 ->]|[H0 ->]]
    |destruct (Math_max_cases 1 0) as [[H0 ->]|[H0 ->]]]; lra.
Qed.

Lemma qlen_nonneg {A} (l : list A) : (0 <= qlen l)%Q.
Proof.
  unfold qlen, Qle. cbn. lia.
Qed.

Lemma actionItems_urgency_nonneg (items : option (list string)) :
  (0 <= actionItems_urgency items)%Q.
Proof.
  unfold actionItems_urgency. destruct items as [[|i l]|]; try lra.
  pose proof (qlen_nonneg (i :: l)) as Hl.
  assert (Hm : (0 <= Js.Math_min (qlen (i :: l) * 0.05) 0.3 <= 0.3)%Q)
    by (apply Math_min_within; lra).
  destruct (existsb _ (i :: l)); lra.
Qed.

Lemma deadlines_urgency_nonneg (f : string -> option Z) (now : Z)
    (ds : option (list string)) :
  (0 <= deadlines_urgency f now ds)%Q.
Proof.
  unfold deadlines_urgency. destruct ds as [[|d l]|]; try lra.
  destruct (List.filter _ (d :: l)); lra.
Qed.

Lemma sentiment_urgency_nonneg (s : option string) :
  (0 <= sentiment_urgency s)%Q.
Proof.
  unfold sentiment_urgency. destruct (Js.truthy s); [|lra].
  destruct s as [v|]; [|lra]. destruct (String.eqb _ _); lra.
Qed.

Lemma relationship_importance_unit (sender : string) (recipient : option string)
    (imp : Q) :
  unit_score imp -> unit_score (relationship_importance sender recipient imp).
Proof.
  unfold unit_score, relationship_importance. intros H.
  destruct recipient as [r|]; [|exact H].
  destruct (String.eqb r ""); [exact H|].
  destruct (opt_string_eqb _ _); [|exact H].
  apply Math_min_within; lra.
Qed.

Lemma sentiment_importance_unit (s : option string) (imp : Q) :
  unit_score imp -> unit_score (sentiment_importance s imp).
Proof.
  unfold unit_score, sentiment_importance. intros H.
  destruct (Js.truthy s); [|exact H]. destruct s as [v|]; [|exact H].
  destruct (String.eqb _ "urgent"); [apply Math_min_within; lra|].
  destruct (String.eqb _ "negative"); [apply Math_min_within; lra|exact H].
Qed.

Lemma raw_deletable_nonneg (e : CachedMessage) :
  (0 <= e.(spamScore))%Q -> (0 <= raw_deletable e)%Q.
Proof.
  intros Hs. unfold raw_deletable.
  assert (H1 : (0 <= match category e with
                     | Some c =>
                         if negb (String.eqb c "") &&
                            Js.arr_includes deletableCategories (Js.toLowerCase c)
                         then 0.3 else 0
                     | None => 0
                     end)%Q).
  { destruct (category e) as [c|]; [|lra]. destruct (_ && _); lra. }
  assert (H2 : (0 <= match labels e with
                     | Some ls =>
                         match List.filter (Js.arr_includes deletableLabels) ls with
                         | [] => 0
                         | (_ :: _) as matching => 0.15 * qlen matching
                         end
                     | None => 0
                     end)%Q).
  { destruct (labels e) as [ls|]; [|lra].
    destruct (List.filter _ ls) as [|x r] eqn:E; [lra|].
    pose proof (qlen_nonneg (x :: r)). nra. }
  destruct (some_keyword invoiceTerms (title e) (shortSummary e));
    destruct (Js.Qgtb (spamScore e) 0); nra.
Qed.

Lemma in_unit_score (q : Q) : in_unit q = true -> unit_score q.
Proof.
  unfold in_unit, Js.Qgeb, unit_score. intros H.
  apply andb_true_iff in H as [H0 H1].
  apply Qle_bool_iff in H0, H1. now split.
Qed.

Lemma enhancedSummarize_scores (toISOString : Z -> string)
    (converse : CachedMessage -> result AiReply) (now : Z)
    (email : option CachedMessage) (s : CachedMessage) :
  enhancedSummarize toISOString converse now email = Ok s ->
  unit_score s.(importanceScore) /\ unit_score s.(spamScore).
Proof.
  unfold enhancedSummarize. intros H.
  destruct (valid_email email _) as [e|]; cbn [rbind] in H; [|discriminate].
  destruct (converse e) as [[| |data]|]; cbn [rbind] in H; try discriminate.
  unfold enhanced_with in H.
  destruct (ai_extendedSummary data), (ai_shortSummary data),
    (ai_actionItems data), (ai_keyPeople data), (ai_deadlines data),
    (ai_importanceScore data) as [imp|], (ai_spamScore data) as [spam|],
    (ai_category data), (ai_sentiment data); try discriminate.
  destruct (in_unit imp && in_unit spam) eqn:E; [|discriminate].
  apply andb_true_iff in E as [Hi Hs]. injection H as <-. cbn.
  split; now apply in_unit_score.
Qed.

Lemma applyAdvancedScoring_scores (f : string -> option Z) (now : Z)
    (e s : CachedMessage) :
  applyAdvancedScoring f now (Some e) = Ok s ->
  unit_score e.(importanceScore) -> unit_score e.(spamScore) ->
  capped s /\ deletable_within 1 s.
Proof.
  unfold applyAdvancedScoring, valid_email. intros H Hi Hs.
  destruct (negb (String.eqb (_id e) "")); cbn [rbind] in H; [|discriminate].
  destruct (from e) as [sender|]; [|discriminate].
  injection H as <-. unfold capped, deletable_within.
  cbn [urgencyScore deletableScore priorityScore priorityLabel importanceScore
       spamScore set_priorityLabel set_priorityScore set_urgencyScore
       set_deletableScore set_importanceScore unit_score_opt].
  split; [split; [|split; [exact Hs|split]]|].
  - apply sentiment_importance_unit, relationship_importance_unit, Hi.
  - pose proof (actionItems_urgency_nonneg (actionItems e)).
    pose proof (deadlines_urgency_nonneg f now (deadlines e)).
    pose proof (sentiment_urgency_nonneg (sentiment e)).
    apply Math_min_within; lra.
  - apply Math_clamp_unit.
  - apply Math_min_within; [|lra]. apply raw_deletable_nonneg, Hs.
Qed.

Lemma c_deletable_detect (name : string) (cond : bool) (st : CatState) :
  c_deletable (detect name cond st) = c_deletable st.
Proof. unfold detect. now destruct (_ && _). Qed.

Lemma c_deletable_push (x : string) (st : CatState) :
  c_deletable (push x st) = c_deletable st.
Proof. reflexivity. Qed.

Lemma later_steps_deletable (contacts : string) (e : CachedMessage) :
  Forall (fun step => forall st, c_deletable (step st) = c_deletable st)
         (later_steps contacts e).
Proof.
  unfold later_steps. repeat constructor; intros st.
  - unfold step_action. destruct (actionItems e) as [[|i l]|]; try reflexivity.
    cbv zeta. now destruct (existsb _ responseKeywords).
  - unfold step_time. now destruct (_ || _).
  - apply c_deletable_detect.
  - apply c_deletable_detect.
  - apply c_deletable_detect.
  - apply c_deletable_detect.
  - unfold step_followup. now destruct (kw e followupKeywords).
  - apply c_deletable_detect.
  - apply c_deletable_detect.
  - apply c_deletable_detect.
  - unfold step_information.
    destruct (actionItems e) as [[|i l]|]; try reflexivity.
    now destruct (c_detected st).
  - unfold step_important. destruct (priorityLabel e); [|reflexivity].
    now destruct (_ || _).
Qed.

Lemma fold_steps_deletable (steps : list (CatState -> CatState)) :
  Forall (fun step => forall st, c_deletable (step st) = c_deletable st) steps ->
  forall st, c_deletable (fold_left (fun st step => step st) steps st)
             = c_deletable st.
Proof.
  induction 1 as [|step r Hstep _ IH]; intros st; [reflexivity|].
  cbn [fold_left]. now rewrite IH, Hstep.
Qed.

(** Categorization leaves the deletable score alone or adds 0.4 to it. *)
Lemma categorize_steps_deletable (contacts : string) (e : CachedMessage) :
  c_deletable (categorize_steps contacts e) = e.(deletableScore)
  \/ c_deletable (categorize_steps contacts e)
     = Some (Js.or0 e.(deletableScore) + 0.4).
Proof.
  unfold categorize_steps. cbv zeta.
  rewrite (fold_steps_deletable _ (later_steps_deletable contacts e)).
  assert (H3 : forall st,
             c_deletable (step_newsletter e (step_promotional e
                            (step_category e st))) = c_deletable st).
  { intros st. unfold step_newsletter, step_promotional, step_category.
    rewrite !c_deletable_detect. destruct (category e); [|reflexivity].
    apply c_deletable_detect. }
  unfold step_financial. destruct (_ && _); [|left; apply H3].
  cbv zeta. destruct (kw e invoiceKeywords).
  - right. cbn [c_deletable]. now rewrite c_deletable_detect, H3.
  - left. now rewrite c_deletable_detect, H3.
Qed.

Lemma categorizeEmail_scores (contacts : string) (e s : CachedMessage) :
  categorizeEmail contacts (Some e) = Ok s ->
  capped e -> deletable_within 1 e ->
  capped s /\ deletable_within 1.4 s.
Proof.
  unfold categorizeEmail, valid_email. intros H Hc Hd.
  destruct (negb (String.eqb (_id e) "")); cbn [rbind] in H; [|discriminate].
  injection H as <-.
  assert (Hs : forall m : CachedMessage,
             m.(importanceScore) = e.(importanceScore) ->
             m.(spamScore) = e.(spamScore) ->
             m.(urgencyScore) = e.(urgencyScore) ->
             m.(priorityScore) = e.(priorityScore) ->
             m.(deletableScore) = c_deletable (categorize_steps contacts e) ->
             capped m /\ deletable_within 1.4 m).
  { intros m Hi Hsp Hu Hp Hdel. unfold capped, deletable_within in *.
    rewrite Hi, Hsp, Hu, Hp, Hdel. split; [exact Hc|].
    destruct (categorize_steps_deletable contacts e) as [-> | ->].
    - destruct (deletableScore e); [lra|contradiction].
    - destruct (deletableScore e); cbn [Js.or0]; [lra|contradiction]. }
  destruct (negb (Js.truthy (category e)));
    [destruct (c_detected (categorize_steps contacts e))|];
    apply Hs; reflexivity.
Qed.

Lemma processAttachments_scores (e s : CachedMessage) :
  processAttachments (Some e) = Ok s ->
  capped e -> deletable_within 1.4 e ->
  capped s /\ deletable_within 1.7 s.
Proof.
  unfold processAttachments, valid_email. intros H Hc Hd.
  destruct (negb (String.eqb (_id e) "")); cbn [rbind] in H; [|discriminate].
  assert (Hsame : capped e /\ deletable_within 1.7 e).
  { split; [exact Hc|]. unfold deletable_within in *.
    destruct (deletableScore e); [lra|contradiction]. }
  destruct (attachments e) as [[|a atts]|];
    [injection H as <-; exact Hsame| |injection H as <-; exact Hsame].
  injection H as <-. destruct Hc as (Hi & Hsp & Hu & Hp).
  unfold capped, deletable_within, unit_score in *.
  cbn [importanceScore spamScore urgencyScore priorityScore deletableScore
       set_labels set_importanceScore set_spamScore set_deletableScore
       set_attachmentMetadata].
  split; [split; [|split; [|split; assumption]]|].
  - destruct (_ && Js.Qltb (importanceScore e) 0.7) eqn:E; [|exact Hi].
    pose proof (Math_min_within (importanceScore e + 0.15) 0.85). lra.
  - destruct (hasExecutables _); [|exact Hsp]. apply Math_min_within; lra.
  - match goal with
    | |- context [if ?c then _ else _] => destruct c
    end; destruct (deletableScore e); cbn [Js.or0]; try lra; contradiction.
Qed.

Ltac fields :=
  cbn [_id date importanceScore spamScore urgencyScore priorityScore
       deletableScore decayFactor decayApplied sentiment
       set_sentiment set_sentimentMetadata set_importanceScore set_spamScore
       set_urgencyScore set_priorityScore set_deletableScore set_decay
       set_labels set_category set_priorityLabel set_attachmentMetadata
       unit_score_opt Js.or0] in *.

Lemma urgent_tone_urgency (o : option Q) :
  unit_score_opt o ->
  unit_score (Js.Math_min (match o with
                           | Some u => if Qeq_bool u 0 then 0.7 else u + 0.2
                           | None => 0.7
                           end) 1).
Proof.
  unfold unit_score. intros H. apply Math_min_within; [|lra].
  destruct o as [u|]; [|contradiction]. cbn in H. unfold unit_score in H.
  destruct (Qeq_bool u 0); lra.
Qed.

Lemma bump_unit (q step : Q) :
  unit_score q -> 0 <= step -> unit_score (Js.Math_min (q + step) 1).
Proof. unfold unit_score. intros H Hs. apply Math_min_within; lra. Qed.

Lemma applySentimentAnalysis_scores (f : string -> option Z)
    (Math_exp : Q -> Q) (now : Z) (e s : CachedMessage) :
  exp_shrinks Math_exp ->
  applySentimentAnalysis f Math_exp now (Some e) = Ok s ->
  capped e ->
  capped s /\ s.(deletableScore) = e.(deletableScore).
Proof.
  unfold applySentimentAnalysis, valid_email. intros Hexp H Hc.
  destruct (negb (String.eqb (_id e) "")); cbn [rbind] in H; [|discriminate].
  destruct (Js.truthy (sentiment e)); [injection H as <-; now split|].
  apply Ok_inj in H. subst s.
  match goal with
  | |- context [apply_decay f Math_exp now e ?a] => set (a2 := a)
  end.
  assert (Ha2 : capped a2 /\ a2.(deletableScore) = e.(deletableScore)
                /\ a2.(priorityScore) = e.(priorityScore)).
  { destruct Hc as (Hi & Hsp & Hu & Hp). subst a2. unfold capped.
    destruct (String.eqb (tone_of _ _ _) "urgent"); [|destruct (_ && _)];
      fields; refine (conj (conj _ (conj _ (conj _ _))) (conj _ _));
      first [ assumption
            | reflexivity
            | apply bump_unit; [assumption|lra]
            | now apply urgent_tone_urgency ]. }
  clearbody a2. destruct Ha2 as ((Hi & Hsp & Hu & Hp) & Hdel & Hprio).
  unfold apply_decay. destruct (email_time f (date a2)) as [t|]; [|now split].
  destruct (Js.Qgtb (ageInDays now t) 3) eqn:Hage; [|now split].
  unfold capped. fields. split; [|exact Hdel].
  refine (conj _ (conj _ (conj _ _))); try assumption.
  rewrite Hprio in Hp |- *.
  destruct (priorityScore e) as [p|] eqn:Ep; [|contradiction].
  fields. unfold unit_score in *.
  assert (Hf : 0 <= decay_factor Math_exp (ageInDays now t) <= 1).
  { apply Hexp. unfold Js.Qgtb in Hage.
    destruct (Qle_bool (ageInDays now t) 3) eqn:E; [discriminate|].
    assert (3 < ageInDays now t).
    { apply Qnot_le_lt. intros Hle. apply Qle_bool_iff in Hle. congruence. }
    lra. }
  destruct (Math_max_cases (p * decay_factor Math_exp (ageInDays now t))
                           (p * 0.3)) as [[_ ->]|[_ ->]]; nra.
Qed.

Lemma rbind_inv {A B} (r : result A) (k : A -> result B) (b : B) :
  rbind r k = Ok b -> exists a, r = Ok a /\ k a = Ok b.
Proof. destruct r as [a|err]; [now exists a|discriminate]. Qed.

Lemma enrich_capped (contacts : string) (f : string -> option Z)
    (Math_exp : Q -> Q) (toISOString : Z -> string)
    (converse : CachedMessage -> result AiReply) (now : Z)
    (email : option CachedMessage) (s : CachedMessage) :
  exp_shrinks Math_exp ->
  enrich contacts f Math_exp toISOString converse now email = Ok s ->
  capped s /\ deletable_within 1.7 s.
Proof.
  intros Hexp H. unfold enrich in H.
  apply rbind_inv in H as (s1 & H1 & H).
  apply rbind_inv in H as (s2 & H2 & H).
  apply rbind_inv in H as (s3 & H3 & H).
  apply rbind_inv in H as (s4 & H4 & H).
  apply enhancedSummarize_scores in H1 as [Hi Hs].
  apply applyAdvancedScoring_scores in H2 as [Hc2 Hd2]; [|assumption..].
  apply categorizeEmail_scores in H3 as [Hc3 Hd3]; [|assumption..].
  apply processAttachments_scores in H4 as [Hc4 Hd4]; [|assumption..].
  apply (applySentimentAnalysis_scores _ _ _ _ _ Hexp) in H as [Hc5 Hd5];
    [|assumption].
  split; [exact Hc5|]. unfold deletable_within in *. now rewrite Hd5.
Qed.

(** A message that completes the five steps of the pipeline has all five
    scores set: the importance, spam, urgency and priority scores lie in
    [0, 1], and the deletable score lies in [0, 1.7] (capped at 1 by the
    scoring pass, then raised by at most 0.4 and 0.3). *)
Theorem enrich_scores (contacts : string) (f : string -> option Z)
    (Math_exp : Q -> Q) (toISOString : Z -> string)
    (converse : CachedMessage -> result AiReply) (now : Z)
    (email : option CachedMessage) (s : CachedMessage) :
  exp_shrinks Math_exp ->
  enrich contacts f Math_exp toISOString converse now email = Ok s ->
  exists u p d : Q,
    s.(urgencyScore) = Some u
    /\ s.(priorityScore) = Some p
    /\ s.(deletableScore) = Some d
    /\ (0 <= s.(importanceScore) <= 1)%Q
    /\ (0 <= s.(spamScore) <= 1)%Q
    /\ (0 <= u <= 1)%Q
    /\ (0 <= p <= 1)%Q
    /\ (0 <= d <= 1.7)%Q.
Proof.
  intros Hexp H.
  destruct (enrich_capped _ _ _ _ _ _ _ _ Hexp H) as [(Hi & Hs & Hu & Hp) Hd].
  unfold deletable_within in Hd.
  destruct (urgencyScore s) as [u|]; [|contradiction].
  destruct (priorityScore s) as [p|]; [|contradiction].
  destruct (deletableScore s) as [d|]; [|contradiction].
  exists u, p, d. repeat (split; [reflexivity|]).
  cbn [unit_score_opt] in Hu, Hp. unfold unit_score in *. tauto.
Qed.

(** * Further properties of the service *)

Local Close Scope Q_scope.

(** ** Frames of the primitive operations *)

Lemma bind_cases {A B} (m : M A) (k : A -> M B) (w w' : world) (r : result B) :
  bind m k w = (r, w') ->
  (exists e, m w = (Throw e, w') /\ r = Throw e)
  \/ (exists a w1, m w = (Ok a, w1) /\ k a w1 = (r, w')).
Proof.
  unfold bind. destruct (m w) as [[a|e] w1]; intros H.
  - right. now exists a, w1.
  - left. exists e. now injection H as <- <-.
Qed.

Lemma keeps_users_bind {A B} (m : M A) (k : A -> M B) :
  keeps_users m -> (forall a, keeps_users (k a)) -> keeps_users (bind m k).
Proof.
  unfold keeps_users, bind. intros Hm Hk w. specialize (Hm w).
  destruct (m w) as [[a|e] w1]; cbn [snd] in *; [|exact Hm].
  now rewrite Hk.
Qed.

Lemma keeps_mail_bind {A B} (m : M A) (k : A -> M B) :
  keeps_mail m -> (forall a, keeps_mail (k a)) -> keeps_mail (bind m k).
Proof.
  unfold keeps_mail, bind. intros Hm Hk w. specialize (Hm w).
  destruct (m w) as [[a|e] w1]; cbn [snd] in *; [|exact Hm].
  now rewrite Hk.
Qed.

Lemma keeps_users_pure {A} (r : result A) : keeps_users (lift r).
Proof. now intros w. Qed.
Lemma keeps_mail_pure {A} (r : result A) : keeps_mail (lift r).
Proof. now intros w. Qed.
Lemma keeps_users_ret {A} (a : A) : keeps_users (ret a).
Proof. now intros w. Qed.
Lemma keeps_mail_ret {A} (a : A) : keeps_mail (ret a).
Proof. now intros w. Qed.
Lemma keeps_users_throw {A} (e : error) : keeps_users (@throw A e).
Proof. now intros w. Qed.
Lemma keeps_mail_throw {A} (e : error) : keeps_mail (@throw A e).
Proof. now intros w. Qed.
Lemma keeps_users_emit (ev : event) : keeps_users (emit ev).
Proof. now intros w. Qed.
Lemma keeps_mail_emit (ev : event) : keeps_mail (emit ev).
Proof. now intros w. Qed.
Lemma keeps_users_write_mail (k : string) (d : CachedMessage) :
  keeps_users (write_mail k d).
Proof. now intros w. Qed.
Lemma keeps_mail_write_user (k : string) (d : CachedIds) :
  keeps_mail (write_user k d).
Proof. now intros w. Qed.
Lemma keeps_users_read_mail (k : string) : keeps_users (read_mail k).
Proof. now intros w. Qed.
Lemma keeps_mail_read_mail (k : string) : keeps_mail (read_mail k).
Proof. now intros w. Qed.
Lemma keeps_users_read_user (k : string) : keeps_users (read_user k).
Proof. now intros w. Qed.
Lemma keeps_mail_read_user (k : string) : keeps_mail (read_user k).
Proof. now intros w. Qed.

Lemma keeps_users_get (id : string) : keeps_users (get id).
Proof. unfold get. destruct (String.eqb id ""); now intros w. Qed.
Lemma keeps_mail_get (id : string) : keeps_mail (get id).
Proof. unfold get. destruct (String.eqb id ""); now intros w. Qed.

Lemma keeps_users_mapM {A B} (f : A -> M B) (l : list A) :
  (forall a, keeps_users (f a)) -> keeps_users (mapM f l).
Proof.
  intros Hf. induction l as [|x r IH]; cbn [mapM]; [apply keeps_users_ret|].
  apply keeps_users_bind; [apply Hf|]. intros y.
  apply keeps_users_bind; [exact IH|]. intros ys. apply keeps_users_ret.
Qed.

Lemma keeps_mail_mapM {A B} (f : A -> M B) (l : list A) :
  (forall a, keeps_mail (f a)) -> keeps_mail (mapM f l).
Proof.
  intros Hf. induction l as [|x r IH]; cbn [mapM]; [apply keeps_mail_ret|].
  apply keeps_mail_bind; [apply Hf|]. intros y.
  apply keeps_mail_bind; [exact IH|]. intros ys. apply keeps_mail_ret.
Qed.

Create HintDb frame.
#[local] Hint Resolve keeps_users_pure keeps_mail_pure keeps_users_ret
  keeps_mail_ret keeps_users_throw keeps_mail_throw keeps_users_emit
  keeps_mail_emit keeps_users_write_mail keeps_mail_write_user
  keeps_users_read_mail keeps_mail_read_mail keeps_users_read_user
  keeps_mail_read_user keeps_users_get keeps_mail_get : frame.

Ltac frame :=
  repeat first
    [ apply keeps_users_bind; [|intros ?]
    | apply keeps_mail_bind; [|intros ?]
    | apply keeps_users_mapM; intros ?
    | apply keeps_mail_mapM; intros ?
    | progress unfold logInfo, logError
    | solve [auto with frame] ].


(** ** Import: what a run leaves behind *)

Section ImportFrames.

Variable userId : string.
Variable toISOString : Z -> string.
Variable getUserAccounts : result (list (string * Account)).
Variable getGoogleSecrets : result unit.
Variable getIdsByLabel : string -> string -> result (list string).
Variable gmail_get : string -> string -> result EmailData.

Local Abbreviation import :=
  (importNewEmails userId toISOString getUserAccounts getGoogleSecrets
                   getIdsByLabel gmail_get).
Local Abbreviation accounts_loop :=
  (import_accounts userId toISOString getIdsByLabel gmail_get).
Local Abbreviation account_round :=
  (import_account userId toISOString getIdsByLabel gmail_get).
Local Abbreviation fetch_loop := (fetch_new userId toISOString gmail_get).

Lemma keeps_users_fetch_new (now : Z) (accountId : string)
    (new : list string) :
  forall newIds, keeps_users (fetch_loop now accountId new newIds).
Proof.
  induction new as [|emailId r IH]; intros newIds; cbn [fetch_new].
  - apply keeps_users_ret.
  - frame; apply IH.
Qed.

Lemma keeps_users_import_account (now : Z) (cachedIds : CachedIds)
    (st : list string * list string) (acc : string * Account) :
  keeps_users (account_round now cachedIds st acc).
Proof.
  destruct st as [inb new], acc as [accountId accountData].
  unfold import_account. frame.
  destruct (negb (Js.truthy (token accountData))); frame;
    apply keeps_users_fetch_new.
Qed.

Lemma keeps_users_import_accounts (now : Z) (cachedIds : CachedIds)
    (accs : list (string * Account)) :
  forall st, keeps_users (accounts_loop now cachedIds accs st).
Proof.
  induction accs as [|acc r IH]; intros st; cbn [import_accounts].
  - apply keeps_users_ret.
  - frame; first [apply keeps_users_import_account|apply IH].
Qed.

(** A run of [importNewEmails] that throws has not written the index: the
    index collection is exactly as before (message documents written before
    the failure stay). *)
Theorem import_failure_keeps_index (now : Z) (w w' : world) (e : error) :
  import now w = (Throw e, w') ->
  w'.(users) = w.(users).
Proof.
  unfold importNewEmails. intros H.
  apply bind_cases in H as [(e1 & H & _)|(doc & w1 & Hread & H)];
    [discriminate H|].
  unfold read_user in Hread. injection Hread as <- <-.
  apply bind_cases in H as [(e1 & H & _)|(accounts & w1 & Hacc & H)].
  { unfold lift in H. now injection H as _ <-. }
  apply lift_inv in Hacc as [_ ->].
  destruct (List.filter _ accounts) as [|g gs].
  { unfold logInfo, emit in H. discriminate H. }
  apply bind_cases in H as [(e1 & H & _)|(u & w1 & Hsec & H)].
  { unfold lift in H. now injection H as _ <-. }
  apply lift_inv in Hsec as [_ ->].
  set (cachedIds := match users w !! cacheIdsKey userId with
                    | Some d => d
                    | None => emptyCachedIds
                    end) in *.
  pose proof (keeps_users_import_accounts now cachedIds (g :: gs) ([], []) w)
    as Hloop.
  apply bind_cases in H as [(e1 & H & _)|([inb newIds] & w1 & Hrun & H)].
  { now rewrite H in Hloop. }
  rewrite Hrun in Hloop. cbn [snd] in Hloop.
  apply bind_cases in H as [(e1 & H & _)|(ids' & w2 & Hids & H)].
  { unfold lift in H. injection H as _ <-. exact Hloop. }
  apply lift_inv in Hids as [_ ->].
  apply bind_cases in H as [(e1 & H & _)|(queue' & w2 & Hq & H)].
  { unfold lift in H. injection H as _ <-. exact Hloop. }
  apply lift_inv in Hq as [_ ->].
  apply bind_cases in H as [(e1 & H & _)|(u' & w2 & Hwrite & H)].
  - unfold write_user in H. discriminate H.
  - unfold logInfo, emit in H. discriminate H.
Qed.

Local Abbreviation compose := (composeId userId).
Local Abbreviation imported := (imported_at toISOString).

Lemma fetch_new_world (now : Z) (accountId : string) (new : list string) :
  forall (newIds : list string) (w w' : world) (out : list string),
    fetch_loop now accountId new newIds w = (Ok out, w') ->
    (forall k, ~ In k (map (compose accountId) new) ->
               w'.(mail) !! k = w.(mail) !! k)
    /\ (forall x, In x (map (compose accountId) new) -> imported now w' x)
    /\ (forall x, imported now w x -> imported now w' x).
Proof.
  induction new as [|emailId r IH]; intros newIds w w' out H.
  - cbn in H. injection H as _ <-. repeat split; auto. intros x [].
  - cbn [fetch_new] in H.
    apply bind_inv in H as ([] & w1 & Hev & H).
    unfold emit in Hev. injection Hev as <-.
    apply bind_inv in H as (d & w2 & Hget & H).
    apply lift_inv in Hget as [Hget ->].
    apply bind_inv in H as ([] & w3 & Hwrite & H).
    unfold write_mail in Hwrite. injection Hwrite as <-.
    cbn [mail users trace] in H.
    apply IH in H as (Hout & Hin & Hkeep). cbn [mail] in *.
    assert (Hhere : forall x, (x = compose accountId emailId
                               \/ imported now w x) ->
                              imported now w' x).
    { intros x Hx. apply Hkeep. unfold imported_at. cbn [mail].
      destruct (String.eqb_spec (compose accountId emailId) x) as [<-|Hne].
      - exists d. apply lookup_insert_eq.
      - destruct Hx as [->|[d0 Hd0]]; [contradiction|].
        exists d0. now rewrite lookup_insert_ne. }
    split; [|split].
    + intros k Hk. cbn [map In] in Hk. rewrite Hout.
      * apply lookup_insert_ne. intros E. apply Hk. now left.
      * intros Hr. apply Hk. now right.
    + intros x [<-|Hx]; [apply Hhere; now left|now apply Hin].
    + intros x Hx. apply Hhere. now right.
Qed.

(** What one completed round of the account loop has done. *)
Lemma import_account_world (now : Z) (cachedIds : CachedIds)
    (known inb new inb' new' : list string) (acc : string * Account)
    (w w' : world) :
  cachedIds.(ids) = Some known ->
  account_round now cachedIds (inb, new) acc w = (Ok (inb', new'), w') ->
  exists added,
    new' = (new ++ added)%list
    /\ (forall x, In x added -> ~ In x known)
    /\ (forall x, In x inb' -> In x inb \/ In x known \/ In x added)
    /\ (forall k, ~ In k added -> w'.(mail) !! k = w.(mail) !! k)
    /\ (forall x, In x added -> imported now w' x)
    /\ (forall x, imported now w x -> imported now w' x).
Proof.
  intros Hids H. destruct acc as [accountId accountData].
  unfold import_account in H.
  apply bind_inv in H as ([] & w1 & Hev1 & H).
  unfold logInfo, emit in Hev1. injection Hev1 as <-.
  destruct (Js.truthy (token accountData)); cbn [negb] in H; [|discriminate].
  apply bind_inv in H as ([] & w2 & Hev2 & H).
  unfold emit in Hev2. injection Hev2 as <-.
  apply bind_inv in H as (emailIds & w3 & Hlist & H).
  apply lift_inv in Hlist as [Hlist ->].
  apply bind_inv in H as (newEmailIds & w4 & Hnew & H).
  apply lift_inv in Hnew as [Hnew ->].
  apply bind_inv in H as ([] & w5 & Hev3 & H).
  unfold logInfo, emit in Hev3. injection Hev3 as <-.
  apply bind_inv in H as (out & w6 & Hfetch & H).
  injection H as <- <- <-.
  pose proof (fetch_new_ids _ _ _ _ _ _ _ _ _ _ Hfetch) as ->.
  apply fetch_new_world in Hfetch as (Hout & Hin & Hkeep).
  cbn [mail users trace] in *.
  assert (Hfilter : newEmailIds
                    = List.filter
                        (fun emailId =>
                           negb (Js.arr_includes known (compose accountId emailId)))
                        emailIds).
  { unfold newEmailIds_of in Hnew. rewrite Hids in Hnew.
    destruct emailIds; now injection Hnew as <-. }
  exists (map (compose accountId) newEmailIds).
  split; [reflexivity|]. split; [|split; [|split; [|split]]].
  - intros x Hx. apply in_map_iff in Hx as (e & <- & He).
    rewrite Hfilter in He. apply filter_In in He as [_ He].
    intros Hk. apply arr_includes_In in Hk. now rewrite Hk in He.
  - intros x Hx. apply in_app_or in Hx as [Hx|Hx]; [now left|right].
    apply in_map_iff in Hx as (e & <- & He).
    destruct (Js.arr_includes known (compose accountId e)) eqn:Hk.
    + left. now apply arr_includes_In.
    + right. apply in_map. rewrite Hfilter.
      apply (proj2 (filter_In _ _ _)). split; [exact He|]. now rewrite Hk.
  - exact Hout.
  - exact Hin.
  - exact Hkeep.
Qed.

Lemma import_accounts_world (now : Z) (cachedIds : CachedIds)
    (known : list string) (accs : list (string * Account)) :
  cachedIds.(ids) = Some known ->
  forall (inb new inb' new' : list string) (w w' : world),
    accounts_loop now cachedIds accs (inb, new) w = (Ok (inb', new'), w') ->
    exists added,
      new' = (new ++ added)%list
      /\ (forall x, In x added -> ~ In x known)
      /\ (forall x, In x inb' -> In x inb \/ In x known \/ In x added)
      /\ (forall k, ~ In k added -> w'.(mail) !! k = w.(mail) !! k)
      /\ (forall x, In x added -> imported now w' x)
      /\ (forall x, imported now w x -> imported now w' x).
Proof.
  intros Hids. induction accs as [|acc r IH]; intros inb new inb' new' w w' H.
  - cbn in H. injection H as <- <- <-. exists []. rewrite app_nil_r.
    repeat split; auto; intros x []; auto.
  - cbn [import_accounts] in H.
    apply bind_inv in H as ([inb1 new1] & w1 & Hacc & H).
    destruct (import_account_world _ _ _ _ _ _ _ _ _ _ Hids Hacc)
      as (a1 & -> & Hf1 & Hi1 & Hm1 & Hd1 & Hk1).
    destruct (IH _ _ _ _ _ _ H) as (a2 & -> & Hf2 & Hi2 & Hm2 & Hd2 & Hk2).
    exists (a1 ++ a2)%list. split; [now rewrite app_assoc|].
    split; [|split; [|split; [|split]]].
    + intros x Hx. apply in_app_or in Hx as [Hx|Hx]; auto.
    + intros x Hx. destruct (Hi2 x Hx) as [Hx1|[Hx1|Hx1]].
      * destruct (Hi1 x Hx1) as [Hx2|[Hx2|Hx2]]; auto.
        right. right. apply in_or_app. now left.
      * auto.
      * right. right. apply in_or_app. now right.
    + intros k Hk. rewrite Hm2, Hm1; auto; intros Hin; apply Hk;
        apply in_or_app; auto.
    + intros x Hx. apply in_app_or in Hx as [Hx|Hx]; auto.
    + auto.
Qed.

Lemma filter_google_nonempty (accounts : list (string * Account)) :
  existsb is_google accounts = true ->
  List.filter (fun acc : string * Account =>
                 String.eqb (snd acc).(acc_type) "google") accounts <> [].
Proof.
  induction accounts as [|a l IH]; cbn [existsb List.filter]; [discriminate|].
  unfold is_google at 1. destruct (String.eqb (acc_type (snd a)) "google");
    [discriminate|]. exact IH.
Qed.

(** The shape of a completed run over at least one Google account. *)
Lemma import_completed_inv (now : Z) (w w' : world)
    (accounts : list (string * Account)) :
  getUserAccounts = Ok accounts ->
  existsb is_google accounts = true ->
  import now w = (Ok tt, w') ->
  exists known queue inb newIds wa,
    (index_or_empty userId w).(ids) = Some known
    /\ (index_or_empty userId w).(summarizationQueue) = Some queue
    /\ accounts_loop now (index_or_empty userId w)
         (List.filter (fun acc : string * Account =>
                         String.eqb (snd acc).(acc_type) "google") accounts)
         ([], []) w = (Ok (inb, newIds), wa)
    /\ w'.(mail) = wa.(mail)
    /\ index_of userId w'
       = Some (mkCachedIds (Some (known ++ newIds)%list) (Some inb) None
                 (Some (view (index_or_empty userId w).(newMail) ++ newIds)%list)
                 (Some (queue ++ newIds)%list) (Some (toISOString now))).
Proof.
  intros Hacc Hg H. apply filter_google_nonempty in Hg.
  unfold importNewEmails in H.
  apply bind_inv in H as (doc & w0 & Hread & H).
  unfold read_user in Hread. injection Hread as <- <-.
  apply bind_inv in H as (accounts' & w0 & Hacc' & H).
  apply lift_inv in Hacc' as [Hacc' ->].
  rewrite Hacc in Hacc'. injection Hacc' as <-.
  destruct (List.filter _ accounts) as [|g gs] eqn:Hf; [contradiction|].
  apply bind_inv in H as (u & w0 & Hsec & H).
  apply lift_inv in Hsec as [_ ->].
  apply bind_inv in H as ([inb newIds] & wa & Hloop & H).
  apply bind_inv in H as (ids' & wb & Hids & H).
  apply lift_inv in Hids as [Hids ->].
  apply bind_inv in H as (queue' & wc & Hqueue & H).
  apply lift_inv in Hqueue as [Hqueue ->].
  apply bind_inv in H as ([] & wd & Hwrite & H).
  unfold write_user in Hwrite. injection Hwrite as <-.
  unfold logInfo, emit in H. cbn [mail users trace] in H. injection H as <-.
  fold (index_of userId w) in *. fold (index_or_empty userId w) in *.
  destruct (ids (index_or_empty userId w)) as [known|] eqn:Hk; [|discriminate].
  destruct (summarizationQueue (index_or_empty userId w)) as [queue|] eqn:Hq;
    [|discriminate].
  cbn [concat_field] in Hids, Hqueue.
  injection Hids as <-. injection Hqueue as <-.
  exists known, queue, inb, newIds, wa.
  split; [reflexivity|]. split; [reflexivity|]. split; [exact Hloop|].
  split; [reflexivity|]. unfold index_of. cbn [users].
  rewrite lookup_insert_eq. unfold view.
  now destruct (newMail (index_or_empty userId w)).
Qed.

(** After a completed import over at least one Google account: [ids] is the
    old ledger followed by the new identifiers, none of which was in the
    ledger; every identifier of the new [inbox] is in [ids]; the queue and
    [newMail] have gained exactly the new identifiers; and the index no
    longer has a [deletables] list, so [getDeletables] returns the empty
    sequence. *)
Theorem import_ledger (now : Z) (w w' : world)
    (accounts : list (string * Account)) :
  getUserAccounts = Ok accounts ->
  existsb is_google accounts = true ->
  import now w = (Ok tt, w') ->
  exists known queue newIds idx',
    (index_or_empty userId w).(ids) = Some known
    /\ (index_or_empty userId w).(summarizationQueue) = Some queue
    /\ index_of userId w' = Some idx'
    /\ idx'.(ids) = Some (known ++ newIds)%list
    /\ (forall x, In x newIds -> ~ In x known)
    /\ (forall x, In x (view idx'.(inbox)) -> In x (known ++ newIds)%list)
    /\ idx'.(summarizationQueue) = Some (queue ++ newIds)%list
    /\ idx'.(newMail)
       = Some (view (index_or_empty userId w).(newMail) ++ newIds)%list
    /\ idx'.(deletables) = None
    /\ getDeletables userId w' = (Ok [], w').
Proof.
  intros Hacc Hg H.
  destruct (import_completed_inv _ _ _ _ Hacc Hg H)
    as (known & queue & inb & newIds & wa & Hk & Hq & Hloop & Hmail & Hidx).
  destruct (import_accounts_world _ _ _ _ Hk _ _ _ _ _ _ Hloop)
    as (added & Hadd & Hfresh & Hinb & _).
  cbn [app] in Hadd. subst added.
  exists known, queue, newIds. eexists. split; [exact Hk|].
  split; [exact Hq|]. split; [exact Hidx|]. cbn [ids inbox deletables view
    summarizationQueue newMail].
  split; [reflexivity|]. split; [exact Hfresh|]. split.
  { intros x Hx. apply in_or_app. destruct (Hinb x Hx) as [[]|[Hx'|Hx']]; auto. }
  split; [reflexivity|]. split; [reflexivity|]. split; [reflexivity|].
  unfold getDeletables, bind, read_user. unfold index_of in Hidx.
  now rewrite Hidx.
Qed.

(** After a completed import over at least one Google account: the document
    of every identifier that was in the ledger is as it was, and every new
    identifier has a document written by this run, carrying the identifier as
    [_id], zeroed scores and the time of the run. *)
Theorem import_documents (now : Z) (w w' : world)
    (accounts : list (string * Account)) :
  getUserAccounts = Ok accounts ->
  existsb is_google accounts = true ->
  import now w = (Ok tt, w') ->
  exists known newIds,
    (index_or_empty userId w).(ids) = Some known
    /\ ledger userId w' = Some (known ++ newIds)%list
    /\ (forall k, In k known -> w'.(mail) !! k = w.(mail) !! k)
    /\ (forall x, In x newIds ->
         exists m, w'.(mail) !! x = Some m
                   /\ m.(_id) = x
                   /\ m.(importanceScore) = 0%Q /\ m.(spamScore) = 0%Q
                   /\ m.(cachedAt) = Some (toISOString now)).
Proof.
  intros Hacc Hg H.
  destruct (import_completed_inv _ _ _ _ Hacc Hg H)
    as (known & queue & inb & newIds & wa & Hk & Hq & Hloop & Hmail & Hidx).
  destruct (import_accounts_world _ _ _ _ Hk _ _ _ _ _ _ Hloop)
    as (added & Hadd & Hfresh & _ & Hkeep & Hnew & _).
  cbn [app] in Hadd. subst added.
  exists known, newIds. split; [exact Hk|]. split.
  { unfold ledger. now rewrite Hidx. }
  split.
  - intros k Hkn. rewrite Hmail. apply Hkeep. intros Hin.
    exact (Hfresh k Hin Hkn).
  - intros x Hx. destruct (Hnew x Hx) as [d Hd]. rewrite Hmail.
    eexists. split; [exact Hd|]. cbn. auto.
Qed.

End ImportFrames.

Lemma import_failure_keeps_index_witness :
  exists w',
    importNewEmails "user-0001" sample_iso tokenless_accounts (Ok tt)
                    sample_listing sample_fetch 0 empty_world
    = (Throw (MkError "Missing refresh token for account"), w')
    /\ w'.(users) = ∅
    /\ is_Some (w'.(mail) !! "user-000#google_1#m1").
Proof.
  pose (w' := snd (importNewEmails "user-0001" sample_iso tokenless_accounts
                     (Ok tt) sample_listing sample_fetch 0 empty_world)).
  assert (Hrun : importNewEmails "user-0001" sample_iso tokenless_accounts
                   (Ok tt) sample_listing sample_fetch 0 empty_world
                 = (Throw (MkError "Missing refresh token for account"), w'))
    by (vm_compute; reflexivity).
  exists w'. split; [exact Hrun|]. split.
  - exact (import_failure_keeps_index "user-0001" sample_iso tokenless_accounts
             (Ok tt) sample_listing sample_fetch 0 empty_world w' _ Hrun).
  - vm_compute. eexists. reflexivity.
Defined.

Lemma import_ledger_witness :
  exists w' idx',
    importNewEmails "user-0001" sample_iso sample_accounts (Ok tt)
                    sample_listing sample_fetch 0 empty_world = (Ok tt, w')
    /\ index_of "user-0001" w' = Some idx'
    /\ idx'.(ids) = Some ["user-000#google_1#m1"; "user-000#google_1#m2"]
    /\ getDeletables "user-0001" w' = (Ok [], w').
Proof.
  pose (w' := snd (importNewEmails "user-0001" sample_iso sample_accounts
                     (Ok tt) sample_listing sample_fetch 0 empty_world)).
  assert (Hrun : importNewEmails "user-0001" sample_iso sample_accounts (Ok tt)
                   sample_listing sample_fetch 0 empty_world = (Ok tt, w'))
    by (vm_compute; reflexivity).
  destruct (import_ledger "user-0001" sample_iso sample_accounts (Ok tt)
              sample_listing sample_fetch 0 empty_world w' _ eq_refl eq_refl Hrun)
    as (known & queue & newIds & idx' & _ & _ & Hidx & _ & _ & _ & _ & _ & _ & Hd).
  exists w', idx'. split; [exact Hrun|]. split; [exact Hidx|].
  split; [|exact Hd].
  vm_compute in Hidx. injection Hidx as <-. reflexivity.
Defined.

Lemma import_documents_witness :
  exists w' m,
    importNewEmails "user-0001" sample_iso sample_accounts (Ok tt)
                    sample_listing sample_fetch 0 empty_world = (Ok tt, w')
    /\ w'.(mail) !! "user-000#google_1#m1" = Some m
    /\ m.(_id) = "user-000#google_1#m1".
Proof.
  pose (w' := snd (importNewEmails "user-0001" sample_iso sample_accounts
                     (Ok tt) sample_listing sample_fetch 0 empty_world)).
  assert (Hrun : importNewEmails "user-0001" sample_iso sample_accounts (Ok tt)
                   sample_listing sample_fetch 0 empty_world = (Ok tt, w'))
    by (vm_compute; reflexivity).
  destruct (import_documents "user-0001" sample_iso sample_accounts (Ok tt)
              sample_listing sample_fetch 0 empty_world w' _ eq_refl eq_refl Hrun)
    as (known & newIds & Hk & Hledger & _ & Hnew).
  vm_compute in Hk. injection Hk as <-.
  vm_compute in Hledger. injection Hledger as <-.
  destruct (Hnew "user-000#google_1#m1") as (m & Hm & Hid & _); [now left|].
  exists w', m. auto.
Defined.


(** ** Archive: how calls compose *)

Lemma indexOf_first (l : list string) (id : string) (i : nat) :
  Js.indexOf l id = Some i -> Permutation l (id :: Js.splice1 i l).
Proof.
  revert i. induction l as [|y l IH]; intros i; cbn [Js.indexOf]; [discriminate|].
  destruct (String.eqb_spec y id) as [->|Hne].
  - intros [= <-]. reflexivity.
  - destruct (Js.indexOf l id) as [j|]; cbn [option_map]; [|discriminate].
    intros [= <-]. cbn [Js.splice1]. rewrite (IH j eq_refl) at 1.
    apply perm_swap.
Qed.

Lemma archive_inv (userId : string) (toISOString : Z -> string) (now : Z)
    (id : string) (w w' : world) :
  archive userId toISOString now id w = (Ok tt, w') ->
  exists idx l i,
    id <> ""
    /\ index_of userId w = Some idx
    /\ idx.(inbox) = Some l
    /\ Js.indexOf l id = Some i
    /\ w'.(mail) = w.(mail)
    /\ index_of userId w'
       = Some (mkCachedIds idx.(ids) (Some (Js.splice1 i l))
                 (match idx.(deletables) with
                  | Some ds => match Js.indexOf ds id with
                               | Some j => Some (Js.splice1 j ds)
                               | None => Some ds
                               end
                  | None => None
                  end)
                 idx.(newMail) idx.(summarizationQueue)
                 (Some (toISOString now))).
Proof.
  unfold archive. destruct (String.eqb_spec id "") as [|Hid]; [discriminate|].
  unfold bind, read_user. fold (index_of userId w).
  destruct (index_of userId w) as [idx|]; [|discriminate].
  destruct (inbox idx) as [l|] eqn:Hl; [|discriminate].
  destruct (Js.indexOf l id) as [i|] eqn:Hi; [|discriminate].
  unfold write_user. intros [= <-]. exists idx, l, i.
  repeat (split; [assumption || reflexivity|]).
  unfold index_of. cbn [users]. apply lookup_insert_eq.
Qed.

Section ArchiveComposition.

Variable userId : string.
Variable toISOString : Z -> string.

(** [archive] keeps the two views aligned: when [inbox] and [deletables]
    were permutations of each other, they still are after a completed
    [archive], and each has lost exactly one occurrence of the identifier. *)
Theorem archive_keeps_views_aligned (now : Z) (id : string) (w w' : world)
    (idx : CachedIds) (l d : list string) :
  index_of userId w = Some idx ->
  idx.(inbox) = Some l ->
  idx.(deletables) = Some d ->
  Permutation l d ->
  archive userId toISOString now id w = (Ok tt, w') ->
  exists idx' l' d',
    index_of userId w' = Some idx'
    /\ idx'.(inbox) = Some l'
    /\ idx'.(deletables) = Some d'
    /\ Permutation l (id :: l')
    /\ Permutation d (id :: d')
    /\ Permutation l' d'.
Proof.
  intros Hidx Hl Hd Hperm H.
  apply archive_inv in H as (idx0 & l0 & i & Hid & Hidx0 & Hl0 & Hi & _ & Hw').
  rewrite Hidx in Hidx0. injection Hidx0 as <-.
  rewrite Hl in Hl0. injection Hl0 as <-.
  rewrite Hd in Hw'.
  destruct (Js.indexOf d id) as [j|] eqn:Hj.
  - eexists. exists (Js.splice1 i l), (Js.splice1 j d).
    split; [exact Hw'|]. cbn [inbox deletables].
    split; [reflexivity|]. split; [reflexivity|].
    pose proof (indexOf_first _ _ _ Hi) as Pl.
    pose proof (indexOf_first _ _ _ Hj) as Pd.
    split; [exact Pl|]. split; [exact Pd|].
    apply (Permutation_cons_inv (a := id)).
    now rewrite <- Pl, <- Pd.
  - exfalso. apply indexOf_None in Hj. apply Hj.
    apply (Permutation_in _ Hperm).
    destruct (Js.indexOf l id) eqn:E; [|discriminate].
    destruct (in_dec string_dec id l) as [Hin|Hn]; [exact Hin|].
    apply indexOf_None in Hn. congruence.
Qed.

(** [archive] is not idempotent: on an inbox without repetitions, repeating
    a completed [archive] of the same identifier throws
    "Email not found in inbox" and writes nothing. *)
Theorem archive_twice (now now' : Z) (id : string) (w w' : world)
    (idx : CachedIds) (l : list string) :
  index_of userId w = Some idx ->
  idx.(inbox) = Some l ->
  NoDup l ->
  archive userId toISOString now id w = (Ok tt, w') ->
  archive userId toISOString now' id w'
    = (Throw (MkError "Email not found in inbox"), w').
Proof.
  intros Hidx Hl Hnd H.
  apply archive_inv in H as (idx0 & l0 & i & Hid & Hidx0 & Hl0 & Hi & _ & Hw').
  rewrite Hidx in Hidx0. injection Hidx0 as <-.
  rewrite Hl in Hl0. injection Hl0 as <-.
  pose proof (splice1_indexOf_NoDup _ _ _ Hnd Hi) as Hgone.
  apply indexOf_None in Hgone.
  unfold archive. apply String.eqb_neq in Hid. rewrite Hid.
  unfold bind, read_user. fold (index_of userId w'). rewrite Hw'.
  cbn [inbox]. now rewrite Hgone.
Qed.

End ArchiveComposition.

Lemma archive_keeps_views_aligned_witness :
  exists w' idx',
    archive "u" sample_iso 0 "u#a#m" (world_with "u" index_once) = (Ok tt, w')
    /\ index_of "u" w' = Some idx'
    /\ Permutation (view idx'.(inbox)) (view idx'.(deletables)).
Proof.
  pose (w' := snd (archive "u" sample_iso 0 "u#a#m" (world_with "u" index_once))).
  assert (Hrun : archive "u" sample_iso 0 "u#a#m" (world_with "u" index_once)
                 = (Ok tt, w')) by (vm_compute; reflexivity).
  destruct (archive_keeps_views_aligned "u" sample_iso 0 "u#a#m"
              (world_with "u" index_once) w' index_once ["u#a#m"] ["u#a#m"]
              eq_refl eq_refl eq_refl (Permutation_refl _) Hrun)
    as (idx' & l' & d' & Hidx & Hl & Hd & _ & _ & Hp).
  exists w', idx'. rewrite Hl, Hd. auto.
Defined.

Lemma archive_twice_witness :
  exists w',
    archive "u" sample_iso 0 "u#a#m" (world_with "u" index_once) = (Ok tt, w')
    /\ archive "u" sample_iso 1 "u#a#m" w'
       = (Throw (MkError "Email not found in inbox"), w').
Proof.
  pose (w' := snd (archive "u" sample_iso 0 "u#a#m" (world_with "u" index_once))).
  assert (Hrun : archive "u" sample_iso 0 "u#a#m" (world_with "u" index_once)
                 = (Ok tt, w')) by (vm_compute; reflexivity).
  exists w'. split; [exact Hrun|].
  apply (archive_twice "u" sample_iso 0 1 "u#a#m" (world_with "u" index_once) w'
           index_once ["u#a#m"] eq_refl eq_refl); [apply NoDup_singleton|exact Hrun].
Defined.

(** ** View maintenance: repeating and failing *)

Lemma js_sort_descending_id (key : CachedMessage -> Q) (l : list CachedMessage) :
  descending key l ->
  js_sort (fun a b : CachedMessage => key b - key a)%Q l = l.
Proof.
  unfold descending. induction l as [|x l IH]; intros Hs; [reflexivity|].
  apply StronglySorted_inv in Hs as [Hl Hx].
  cbn [js_sort fold_right]. fold (js_sort (fun a b => key b - key a)%Q l).
  rewrite (IH Hl). destruct l as [|y r]; [reflexivity|].
  cbn [insert_by]. apply Forall_cons in Hx as [Hy _].
  assert (E : Qle_bool (key y - key x) 0 = true) by (apply Qle_bool_iff; lra).
  now rewrite E.
Qed.

Lemma mapM_get_keys (w : world) (l : list string) :
  forall found w',
    mapM get l w = (Ok found, w') ->
    w' = w /\ Forall2 (fun id o => id <> "" /\ o = w.(mail) !! id) l found.
Proof.
  induction l as [|id l IH]; intros found w' H.
  - cbn in H. injection H as <- <-. split; constructor.
  - cbn [mapM] in H.
    apply bind_inv in H as (o & w1 & Hget & H).
    apply bind_inv in H as (os & w2 & Hrest & H).
    cbn in H. injection H as <- <-. unfold get in Hget.
    destruct (String.eqb_spec id "") as [|Hid]; [discriminate|].
    unfold read_mail in Hget. injection Hget as <- <-.
    apply IH in Hrest as [-> Hall]. split; [reflexivity|].
    constructor; [now split|exact Hall].
Qed.

Lemma mapM_get_own_ids (w : world) (ms : list CachedMessage) :
  Forall (fun m => m.(_id) <> "" /\ w.(mail) !! m.(_id) = Some m) ms ->
  mapM get (map _id ms) w = (Ok (map Some ms), w).
Proof.
  induction 1 as [|m r [Hid Hm] _ IH]; [reflexivity|].
  cbn [map mapM]. unfold bind.
  assert (Hg : get (_id m) w = (Ok (Some m), w)).
  { unfold get. apply String.eqb_neq in Hid. rewrite Hid.
    unfold read_mail. now rewrite Hm. }
  rewrite Hg, IH. reflexivity.
Qed.

Lemma all_found_Some (ms : list CachedMessage) :
  all_found (map Some ms) = Ok ms.
Proof. induction ms as [|m r IH]; cbn; [reflexivity|]. now rewrite IH. Qed.

Lemma updateInbox_inv (userId : string) (toISOString : Z -> string) (now : Z)
    (cachedIds : CachedIds) (w w' : world) :
  updateInbox userId toISOString now cachedIds w = (Ok tt, w') ->
  exists old loaded,
    cachedIds.(inbox) = Some old
    /\ Forall2 (fun id m => id <> "" /\ w.(mail) !! id = Some m) old loaded
    /\ w'.(mail) = w.(mail)
    /\ index_of userId w'
       = Some (mkCachedIds cachedIds.(ids)
                 (Some (map _id (js_sort by_priority loaded)))
                 (Some (map _id (js_sort by_deletable
                                   (js_sort by_priority loaded))))
                 cachedIds.(newMail) cachedIds.(summarizationQueue)
                 (Some (toISOString now))).
Proof.
  unfold updateInbox. intros H.
  destruct (inbox cachedIds) as [old|]; [|discriminate].
  apply bind_inv in H as (found & w1 & Hget & H).
  apply mapM_get_keys in Hget as [-> Hfound].
  apply bind_inv in H as (loaded & w1 & Hall & H).
  apply lift_inv in Hall as [Hall ->].
  apply all_found_inv in Hall. subst found.
  apply bind_inv in H as ([] & w1 & Hwrite & H).
  unfold write_user in Hwrite. injection Hwrite as <-.
  unfold logInfo, emit in H. cbn [mail users trace] in H. injection H as <-.
  exists old, loaded. split; [reflexivity|]. split.
  { clear -Hfound. revert old Hfound.
    induction loaded as [|m r IH]; intros old H; inversion H; subst;
      constructor; auto. destruct H3 as [Hid Hm]. now split. }
  split; [reflexivity|]. unfold index_of. cbn [users]. apply lookup_insert_eq.
Qed.

Section ViewsAgain.

Variable userId : string.
Variable toISOString : Z -> string.

(** [updateInbox] is idempotent on the views: when every document of the
    inbox carries its own key as [_id], running [updateInbox] again on the
    index it has just persisted completes and persists the same [inbox] and
    the same [deletables]. *)
Theorem updateInbox_idempotent (now now' : Z) (cachedIds : CachedIds)
    (w w1 : world) :
  (forall id m, In id (view cachedIds.(inbox)) ->
                w.(mail) !! id = Some m -> m.(_id) = id) ->
  updateInbox userId toISOString now cachedIds w = (Ok tt, w1) ->
  exists idx1 w2 idx2,
    index_of userId w1 = Some idx1
    /\ updateInbox userId toISOString now' idx1 w1 = (Ok tt, w2)
    /\ index_of userId w2 = Some idx2
    /\ idx2.(inbox) = idx1.(inbox)
    /\ idx2.(deletables) = idx1.(deletables).
Proof.
  intros Hkeys H.
  apply updateInbox_inv in H as (old & loaded & Hold & Hloaded & Hmail & Hidx).
  rewrite Hold in Hkeys. cbn [view] in Hkeys.
  set (emails := js_sort by_priority loaded) in *.
  assert (Hown : Forall (fun m => m.(_id) <> "" /\ w1.(mail) !! m.(_id) = Some m)
                        emails).
  { eapply Permutation_Forall; [symmetry; apply js_sort_perm|].
    clear -Hloaded Hkeys Hmail. induction Hloaded as [|id m old loaded [Hid Hm] _ IH];
      constructor.
    - rewrite (Hkeys id m (or_introl eq_refl) Hm), Hmail. now split.
    - apply IH. intros id' m' Hin. apply Hkeys. now right. }
  assert (Hsorted : js_sort by_priority emails = emails).
  { apply (js_sort_descending_id priority_key).
    apply (js_sort_descending priority_key). }
  eexists. 
  assert (Hrun : exists w2,
             updateInbox userId toISOString now'
               (mkCachedIds cachedIds.(ids) (Some (map _id emails))
                  (Some (map _id (js_sort by_deletable emails)))
                  cachedIds.(newMail) cachedIds.(summarizationQueue)
                  (Some (toISOString now))) w1
             = (Ok tt, w2)
             /\ index_of userId w2
                = Some (mkCachedIds cachedIds.(ids) (Some (map _id emails))
                          (Some (map _id (js_sort by_deletable emails)))
                          cachedIds.(newMail) cachedIds.(summarizationQueue)
                          (Some (toISOString now')))).
  { unfold updateInbox. cbn [inbox ids newMail summarizationQueue].
    unfold bind at 1. rewrite (mapM_get_own_ids _ _ Hown).
    unfold bind at 1, lift. rewrite all_found_Some.
    unfold bind, write_user, logInfo, emit. rewrite Hsorted.
    eexists. split; [reflexivity|]. unfold index_of. cbn [users].
    apply lookup_insert_eq. }
  destruct Hrun as (w2 & Hrun & Hidx2).
  exists w2. eexists. split; [exact Hidx|]. split; [exact Hrun|].
  split; [exact Hidx2|]. split; reflexivity.
Qed.

End ViewsAgain.

Lemma updateInbox_idempotent_witness :
  exists w1 idx1 w2 idx2,
    updateInbox "u" sample_iso 0 sample_index sample_mailbox = (Ok tt, w1)
    /\ index_of "u" w1 = Some idx1
    /\ updateInbox "u" sample_iso 1 idx1 w1 = (Ok tt, w2)
    /\ index_of "u" w2 = Some idx2
    /\ idx2.(inbox) = idx1.(inbox).
Proof.
  pose (w1 := snd (updateInbox "u" sample_iso 0 sample_index sample_mailbox)).
  assert (Hrun : updateInbox "u" sample_iso 0 sample_index sample_mailbox
                 = (Ok tt, w1)) by (vm_compute; reflexivity).
  destruct (updateInbox_idempotent "u" sample_iso 0 1 sample_index
              sample_mailbox w1) as (idx1 & w2 & idx2 & H1 & H2 & H3 & H4 & _).
  - intros id m [<-|[<-|[]]] Hm; vm_compute in Hm; injection Hm as <-;
      reflexivity.
  - exact Hrun.
  - exists w1, idx1, w2, idx2. auto.
Defined.

(** ** Sentiment analysis and decay: repeating, and how far decay goes *)

Lemma tone_of_truthy (p n u : nat) : Js.truthy (Some (tone_of p n u)) = true.
Proof.
  unfold tone_of.
  destruct (_ <? _)%nat; [reflexivity|].
  destruct (Js.Qgtb _ _); [reflexivity|].
  destruct (Js.Qgtb _ _); reflexivity.
Qed.

Lemma apply_decay_keeps (f : string -> option Z) (Math_exp : Q -> Q) (now : Z)
    (e a : CachedMessage) :
  (apply_decay f Math_exp now e a).(_id) = a.(_id)
  /\ (apply_decay f Math_exp now e a).(sentiment) = a.(sentiment).
Proof.
  unfold apply_decay. destruct (email_time f (date a)); [|now split].
  destruct (Js.Qgtb _ _); now split.
Qed.

Section SentimentAgain.

Variable Date_getTime : string -> option Z.
Variable Math_exp : Q -> Q.

(** The sentiment pass has an effect at most once: applied to its own
    result, at whatever later time, it returns that result unchanged (so a
    message is decayed by it at most once). *)
Theorem applySentimentAnalysis_again (now now' : Z) (e s : CachedMessage) :
  applySentimentAnalysis Date_getTime Math_exp now (Some e) = Ok s ->
  applySentimentAnalysis Date_getTime Math_exp now' (Some s) = Ok s.
Proof.
  unfold applySentimentAnalysis, valid_email. intros H.
  destruct (negb (String.eqb (_id e) "")) eqn:Hid; cbn [rbind] in H;
    [|discriminate].
  destruct (Js.truthy (sentiment e)) eqn:Hs.
  - injection H as <-. rewrite Hid. cbn [rbind]. now rewrite Hs.
  - apply Ok_inj in H. subst s.
    match goal with
    | |- context [apply_decay Date_getTime Math_exp now e ?a] => set (a2 := a)
    end.
    destruct (apply_decay_keeps Date_getTime Math_exp now e a2) as [Hi Hse].
    assert (Ha2 : a2.(_id) = e.(_id)
                  /\ Js.truthy a2.(sentiment) = true).
    { subst a2.
      destruct (String.eqb (tone_of _ _ _) "urgent"); [|destruct (_ && _)];
        fields; (split; [reflexivity|apply tone_of_truthy]). }
    destruct Ha2 as [Hi2 Hs2]. rewrite Hi, Hi2, Hid. cbn [rbind].
    now rewrite Hse, Hs2.
Qed.

(** Decay never raises the priority score and never lowers it below 30% of
    what it was: for a message with a non-negative priority score, the
    priority score after the sentiment pass lies between 30% of the old one
    and the old one. *)
Theorem decay_bounds (now : Z) (e s : CachedMessage) (p : Q) :
  exp_shrinks Math_exp ->
  e.(priorityScore) = Some p ->
  (0 <= p)%Q ->
  applySentimentAnalysis Date_getTime Math_exp now (Some e) = Ok s ->
  exists p', s.(priorityScore) = Some p' /\ (0.3 * p <= p' <= p)%Q.
Proof.
  unfold applySentimentAnalysis, valid_email. intros Hexp Hp Hp0 H.
  destruct (negb (String.eqb (_id e) "")); cbn [rbind] in H; [|discriminate].
  destruct (Js.truthy (sentiment e)).
  { injection H as <-. exists p. split; [exact Hp|lra]. }
  apply Ok_inj in H. subst s.
  match goal with
  | |- context [apply_decay Date_getTime Math_exp now e ?a] => set (a2 := a)
  end.
  assert (Ha2 : a2.(priorityScore) = Some p).
  { subst a2.
    destruct (String.eqb (tone_of _ _ _) "urgent"); [|destruct (_ && _)];
      fields; exact Hp. }
  clearbody a2. unfold apply_decay.
  destruct (email_time Date_getTime (date a2)) as [t|];
    [|exists p; split; [exact Ha2|lra]].
  destruct (Js.Qgtb (ageInDays now t) 3) eqn:Hage;
    [|exists p; split; [exact Ha2|lra]].
  rewrite Ha2, Hp. fields. eexists. split; [reflexivity|].
  assert (Hf : (0 <= decay_factor Math_exp (ageInDays now t) <= 1)%Q).
  { apply Hexp. unfold Js.Qgtb in Hage.
    destruct (Qle_bool (ageInDays now t) 3) eqn:E; [discriminate|].
    assert (3 < ageInDays now t)%Q.
    { apply Qnot_le_lt. intros Hle. apply Qle_bool_iff in Hle. congruence. }
    lra. }
  destruct (Math_max_cases (p * decay_factor Math_exp (ageInDays now t))
                           (p * 0.3)) as [[Hle ->]|[Hle ->]]; nra.
Qed.

End SentimentAgain.

Lemma flat_half_shrinks : exp_shrinks flat_half.
Proof. intros x _. unfold flat_half. split; [discriminate|discriminate]. Qed.

Lemma applySentimentAnalysis_again_witness :
  exists s,
    applySentimentAnalysis sample_dates exp_series ten_days_later
      (Some (sample_message "u#a#m1" 0.5 0.1)) = Ok s
    /\ applySentimentAnalysis sample_dates exp_series (ten_days_later + 1)
         (Some s) = Ok s.
Proof.
  pose (s := match applySentimentAnalysis sample_dates exp_series ten_days_later
                     (Some (sample_message "u#a#m1" 0.5 0.1)) with
             | Ok s => s
             | Throw _ => sample_message "" 0 0
             end).
  assert (Hr : applySentimentAnalysis sample_dates exp_series ten_days_later
                 (Some (sample_message "u#a#m1" 0.5 0.1)) = Ok s)
    by (vm_compute; reflexivity).
  exists s. split; [exact Hr|].
  exact (applySentimentAnalysis_again sample_dates exp_series ten_days_later
           (ten_days_later + 1) _ s Hr).
Defined.

Lemma decay_bounds_witness :
  exists s p',
    applySentimentAnalysis sample_dates flat_half ten_days_later
      (Some (sample_message "u#a#m1" 0.5 0.1)) = Ok s
    /\ s.(priorityScore) = Some p'
    /\ (0.3 * 0.5 <= p' <= 0.5)%Q.
Proof.
  pose (s := match applySentimentAnalysis sample_dates flat_half ten_days_later
                     (Some (sample_message "u#a#m1" 0.5 0.1)) with
             | Ok s => s
             | Throw _ => sample_message "" 0 0
             end).
  assert (Hr : applySentimentAnalysis sample_dates flat_half ten_days_later
                 (Some (sample_message "u#a#m1" 0.5 0.1)) = Ok s)
    by (vm_compute; reflexivity).
  destruct (decay_bounds sample_dates flat_half ten_days_later
              (sample_message "u#a#m1" 0.5 0.1) s 0.5%Q flat_half_shrinks
              eq_refl) as (p' & Hp' & Hb); [discriminate|exact Hr|].
  exists s, p'. auto.
Defined.

Lemma enrich_scores_witness :
  exists s,
    enrich "" sample_dates flat_half sample_iso invoice_reply ten_days_later
           (Some invoice_mail) = Ok s
    /\ exists u p d : Q,
         s.(urgencyScore) = Some u
         /\ s.(priorityScore) = Some p
         /\ s.(deletableScore) = Some d
         /\ (0 <= s.(importanceScore) <= 1)%Q
         /\ (0 <= s.(spamScore) <= 1)%Q
         /\ (0 <= u <= 1)%Q
         /\ (0 <= p <= 1)%Q
         /\ (0 <= d <= 1.7)%Q.
Proof.
  pose (s := match enrich "" sample_dates flat_half sample_iso invoice_reply
                     ten_days_later (Some invoice_mail) with
             | Ok s => s
             | Throw _ => invoice_mail
             end).
  assert (Hr : enrich "" sample_dates flat_half sample_iso invoice_reply
                 ten_days_later (Some invoice_mail) = Ok s)
    by (vm_compute; reflexivity).
  exists s. split; [exact Hr|].
  exact (enrich_scores "" sample_dates flat_half sample_iso invoice_reply
           ten_days_later (Some invoice_mail) s flat_half_shrinks Hr).
Defined.

(** ** Categorization: what happens to the labels *)

Lemma set_add_In (d : list string) (x y : string) :
  In x (set_add d y) <-> In x d \/ x = y.
Proof.
  unfold set_add. destruct (Js.arr_includes d y) eqn:E.
  - apply arr_includes_In in E. split; [auto|]. intros [H| ->]; assumption.
  - rewrite in_app_iff. cbn. intuition.
Qed.

Lemma steered_push (x : string) (d : option Q) (st : CatState) :
  x <> "Business" -> x <> "Personal" -> steered st ->
  steered (mkCatState (c_labels st ++ [x]) (c_detected st) d).
Proof.
  intros Hb Hp (Hno & HB & HP). unfold steered. cbn [c_labels c_detected].
  rewrite !in_app_iff. cbn [In].
  split; [|split].
  - intros [[H1|[H1|[]]] [H2|[H2|[]]]]; try congruence. now apply Hno.
  - intros [H|[H|[]]]; [auto|congruence].
  - intros [H|[H|[]]]; [auto|congruence].
Qed.

Lemma steered_detect (name : string) (cond : bool) (st : CatState) :
  steered st ->
  (name = "Business" -> ~ In "Personal" (c_detected st)) ->
  (name = "Personal" -> ~ In "Business" (c_detected st)) ->
  steered (detect name cond st).
Proof.
  intros (Hno & HB & HP) Hb Hp. unfold detect.
  destruct (cond && negb (Js.arr_includes (c_labels st) name));
    [|now split].
  unfold steered. cbn [c_labels c_detected].
  rewrite !in_app_iff, !set_add_In. cbn [In].
  split; [|split].
  - intros [[H1|[H1|[]]] [H2|[H2|[]]]].
    + now apply Hno.
    + subst name. now apply (Hp eq_refl), HB.
    + subst name. now apply (Hb eq_refl), HP.
    + congruence.
  - intros [H|[H|[]]]; [left; auto|right; congruence].
  - intros [H|[H|[]]]; [left; auto|right; congruence].
Qed.

Ltac other_label :=
  solve [ apply steered_detect; [assumption|discriminate|discriminate]
        | apply steered_push; [discriminate|discriminate|assumption]
        | assumption ].

Lemma steered_first_steps (contacts : string) (e : CachedMessage)
    (st : CatState) :
  steered st ->
  steered (step_financial e (step_newsletter e (step_promotional e st))).
Proof.
  intros H.
  assert (H2 : steered (step_newsletter e (step_promotional e st))).
  { unfold step_newsletter, step_promotional.
    apply steered_detect; [|discriminate|discriminate]. other_label. }
  revert H2. generalize (step_newsletter e (step_promotional e st)).
  clear st H. intros st H. unfold step_financial.
  destruct (_ && _); [|assumption]. cbv zeta.
  destruct (kw e invoiceKeywords); [|other_label].
  apply steered_push; [discriminate|discriminate|other_label].
Qed.

Lemma steered_later_steps (contacts : string) (e : CachedMessage) :
  Forall (fun step => forall st, steered st -> steered (step st))
         (later_steps contacts e).
Proof.
  unfold later_steps.
  repeat first [apply Forall_cons_2 | apply Forall_nil_2]; intros st H.
  - unfold step_action. destruct (actionItems e) as [[|i l]|]; try assumption.
    cbv zeta. destruct (existsb _ responseKeywords); unfold push.
    + apply steered_push; [discriminate|discriminate|other_label].
    + other_label.
  - unfold step_time, push. destruct (_ || _); other_label.
  - unfold step_social. other_label.
  - unfold step_event. other_label.
  - unfold step_survey. other_label.
  - unfold step_notification. other_label.
  - unfold step_followup, push. destruct (kw e followupKeywords); other_label.
  - unfold step_confirmation. other_label.
  - unfold step_business. cbv zeta.
    destruct (Js.arr_includes (c_detected st) "Personal") eqn:E.
    + rewrite andb_false_r. exact H.
    + apply steered_detect; [assumption| |discriminate].
      intros _ Hin. apply arr_includes_In in Hin. congruence.
  - unfold step_personal. cbv zeta.
    destruct (Js.arr_includes (c_detected st) "Business") eqn:E.
    + rewrite andb_false_r. exact H.
    + apply steered_detect; [assumption|discriminate|].
      intros _ Hin. apply arr_includes_In in Hin. congruence.
  - unfold step_information.
    destruct (actionItems e) as [[|i l]|]; try assumption.
    destruct (c_detected st) eqn:E; [|assumption].
    unfold push. other_label.
  - unfold step_important, push. destruct (priorityLabel e); [|assumption].
    destruct (_ || _); other_label.
Qed.

Lemma fold_steps_steered (steps : list (CatState -> CatState)) :
  Forall (fun step => forall st, steered st -> steered (step st)) steps ->
  forall st, steered st -> steered (fold_left (fun st step => step st) steps st).
Proof.
  induction 1 as [|step r Hstep _ IH]; intros st H; [exact H|].
  cbn [fold_left]. apply IH, Hstep, H.
Qed.

Lemma unique_from_In (a : list string) :
  forall seen x, In x (Js.unique_from seen a) <-> In x a /\ ~ In x seen.
Proof.
  induction a as [|y r IH]; intros seen x; cbn [Js.unique_from In].
  - tauto.
  - destruct (Js.arr_includes seen y) eqn:E.
    + apply arr_includes_In in E. rewrite IH. split.
      * intros [H1 H2]. auto.
      * intros [[->|H1] H2]; [contradiction|auto].
    + assert (Hy : ~ In y seen).
      { intros Hin. apply arr_includes_In in Hin. congruence. }
      cbn [In]. rewrite IH. cbn [In]. split.
      * intros [->|[H1 H2]]; [auto|]. split; [auto|tauto].
      * intros [[->|H1] H2]; [auto|].
        destruct (String.eqb y x) eqn:Eyx.
        -- apply String.eqb_eq in Eyx. auto.
        -- apply String.eqb_neq in Eyx. right. split; [exact H1|].
           intros [?|?]; [congruence|contradiction].
Qed.

Lemma unique_In (a : list string) (x : string) :
  In x (Js.unique a) <-> In x a.
Proof. unfold Js.unique. rewrite unique_from_In. cbn. tauto. Qed.

Lemma unique_from_NoDup (a : list string) :
  forall seen, List.NoDup (Js.unique_from seen a).
Proof.
  induction a as [|y r IH]; intros seen; cbn [Js.unique_from].
  - constructor.
  - destruct (Js.arr_includes seen y); [apply IH|].
    constructor; [|apply IH].
    rewrite unique_from_In. cbn [In]. tauto.
Qed.

Lemma appends_detect (name : string) (cond : bool) : appends (detect name cond).
Proof.
  intros st. unfold detect. destruct (_ && _).
  - now exists [name].
  - exists []. now rewrite app_nil_r.
Qed.

Lemma appends_push (x : string) : appends (push x).
Proof. intros st. now exists [x]. Qed.

Lemma appends_id : appends (fun st => st).
Proof. intros st. exists []. now rewrite app_nil_r. Qed.



Lemma appends_financial (e : CachedMessage) : appends (step_financial e).
Proof.
  intros st. unfold step_financial.
  destruct (_ && _); [|apply (appends_id st)]. cbv zeta.
  destruct (appends_detect "Financial" true st) as [a Ha].
  destruct (kw e invoiceKeywords).
  - cbn [c_labels]. exists (a ++ ["Invoice"])%list.
    now rewrite Ha, app_assoc.
  - now exists a.
Qed.

Lemma appends_later_steps (contacts : string) (e : CachedMessage) :
  Forall appends (later_steps contacts e).
Proof.
  unfold later_steps.
  repeat first [apply Forall_cons_2 | apply Forall_nil_2].
  - intros st. unfold step_action.
    destruct (actionItems e) as [[|i l]|]; try apply (appends_id st).
    cbv zeta. destruct (existsb _ responseKeywords).
    + exists ["Action Required"; "Response Needed"]. cbn [push c_labels].
      now rewrite <- app_assoc.
    + apply appends_push.
  - intros st. unfold step_time.
    destruct (_ || _); [apply appends_push|apply (appends_id st)].
  - intros st. apply appends_detect.
  - intros st. apply appends_detect.
  - intros st. apply appends_detect.
  - intros st. apply appends_detect.
  - intros st. unfold step_followup.
    destruct (kw e followupKeywords); [apply appends_push|apply (appends_id st)].
  - intros st. apply appends_detect.
  - intros st. apply appends_detect.
  - intros st. apply appends_detect.
  - intros st. unfold step_information.
    destruct (actionItems e) as [[|i l]|]; try apply (appends_id st).
    destruct (c_detected st); [apply appends_push|apply (appends_id st)].
  - intros st. unfold step_important.
    destruct (priorityLabel e); [|apply (appends_id st)].
    destruct (_ || _); [apply appends_push|apply (appends_id st)].
Qed.

Lemma appends_fold (steps : list (CatState -> CatState)) :
  Forall appends steps ->
  appends (fun st => fold_left (fun st step => step st) steps st).
Proof.
  induction 1 as [|step r Hstep _ IH]; [apply appends_id|].
  intros st. cbn [fold_left].
  destruct (Hstep st) as [a Ha]. destruct (IH (step st)) as [b Hb].
  exists (a ++ b)%list. now rewrite Hb, Ha, app_assoc.
Qed.

(** The steps after the first only append to what the first one left. *)
Lemma categorize_steps_appends (contacts : string) (e : CachedMessage) :
  exists added,
    c_labels (categorize_steps contacts e)
    = (c_labels (step_category e
                   (mkCatState (view e.(labels)) [] e.(deletableScore)))
       ++ added)%list.
Proof.
  unfold categorize_steps. cbv zeta.
  change (match labels e with Some l => l | None => [] end)
    with (view (labels e)).
  set (st1 := step_category e _).
  destruct (appends_detect "Promotional"
              (kw e promotionalKeywords ||
               (Js.Qgtb e.(spamScore) 0.3 && Js.Qltb e.(spamScore) 0.7)) st1)
    as [a Ha].
  fold (step_promotional e st1) in Ha.
  destruct (appends_detect "Newsletter" (kw e newsletterKeywords)
              (step_promotional e st1)) as [b Hb].
  fold (step_newsletter e (step_promotional e st1)) in Hb.
  destruct (appends_financial e (step_newsletter e (step_promotional e st1)))
    as [c Hc].
  destruct (appends_fold _ (appends_later_steps contacts e)
              (step_financial e (step_newsletter e (step_promotional e st1))))
    as [d Hd].
  exists (a ++ b ++ c ++ d)%list.
  rewrite Hd, Hc, Hb, Ha. now rewrite <- !app_assoc.
Qed.

Section Labels.

Variable contacts : string.

(** The labels of a categorized message are free of repetitions, hold every
    label the message came with, and hold the category the model gave. *)
Theorem categorizeEmail_labels (e s : CachedMessage) :
  categorizeEmail contacts (Some e) = Ok s ->
  exists ls,
    s.(labels) = Some ls
    /\ List.NoDup ls
    /\ (forall x, In x (view e.(labels)) -> In x ls)
    /\ (forall c, e.(category) = Some c -> c <> "" -> In c ls).
Proof.
  unfold categorizeEmail, valid_email. intros H.
  destruct (negb (String.eqb (_id e) "")); cbn [rbind] in H; [|discriminate].
  cbv zeta in H. apply Ok_inj in H.
  exists (Js.unique (c_labels (categorize_steps contacts e))).
  split.
  { subst s. destruct (negb (Js.truthy (category e)));
      [destruct (c_detected _)|]; reflexivity. }
  clear H. split; [apply unique_from_NoDup|].
  destruct (categorize_steps_appends contacts e) as [added ->].
  split.
  - intros x Hx. apply unique_In, in_app_iff. left.
    unfold step_category. destruct (category e) as [c|]; [|exact Hx].
    destruct (appends_detect c (negb (String.eqb c ""))
                (mkCatState (view (labels e)) [] (deletableScore e)))
      as [a ->].
    apply in_app_iff. now left.
  - intros c Hc Hne. apply unique_In, in_app_iff. left.
    unfold step_category. rewrite Hc. unfold detect. cbn [c_labels].
    apply String.eqb_neq in Hne. rewrite Hne. cbn [negb andb].
    destruct (Js.arr_includes (view (labels e)) c) eqn:E; cbn [negb c_labels].
    + now apply arr_includes_In.
    + apply in_app_iff. right. now left.
Qed.

(** A message that arrives with neither label is never labelled both
    'Business' and 'Personal'. *)
Theorem categorizeEmail_business_or_personal (e s : CachedMessage) :
  ~ In "Business" (view e.(labels)) ->
  ~ In "Personal" (view e.(labels)) ->
  categorizeEmail contacts (Some e) = Ok s ->
  ~ (In "Business" (view s.(labels)) /\ In "Personal" (view s.(labels))).
Proof.
  unfold categorizeEmail, valid_email. intros HnB HnP H.
  destruct (negb (String.eqb (_id e) "")); cbn [rbind] in H; [|discriminate].
  cbv zeta in H. apply Ok_inj in H.
  assert (Hl : view (labels s)
               = Js.unique (c_labels (categorize_steps contacts e))).
  { subst s. destruct (negb (Js.truthy (category e)));
      [destruct (c_detected _)|]; reflexivity. }
  rewrite Hl, !unique_In. clear H Hl.
  assert (Hst : steered (categorize_steps contacts e)); [|apply Hst].
  unfold categorize_steps. cbv zeta.
  apply fold_steps_steered; [apply steered_later_steps|].
  apply (steered_first_steps contacts).
  change (match labels e with Some l => l | None => [] end)
    with (view (labels e)).
  unfold step_category.
  assert (H0 : steered (mkCatState (view (labels e)) [] (deletableScore e))).
  { unfold steered. cbn [c_labels c_detected]. tauto. }
  destruct (category e) as [c|]; [|exact H0].
  apply steered_detect; [exact H0|intros _ []|intros _ []].
Qed.

End Labels.

Lemma categorizeEmail_business_or_personal_witness :
  exists s,
    categorizeEmail "" (Some invoice_mail) = Ok s
    /\ ~ (In "Business" (view s.(labels)) /\ In "Personal" (view s.(labels))).
Proof.
  pose (s := match categorizeEmail "" (Some invoice_mail) with
             | Ok s => s
             | Throw _ => invoice_mail
             end).
  assert (Hr : categorizeEmail "" (Some invoice_mail) = Ok s)
    by (vm_compute; reflexivity).
  exists s. split; [exact Hr|].
  refine (categorizeEmail_business_or_personal "" invoice_mail s _ _ Hr);
    vm_compute; tauto.
Defined.

Lemma categorizeEmail_labels_witness :
  exists s ls,
    categorizeEmail "" (Some invoice_mail) = Ok s
    /\ s.(labels) = Some ls /\ List.NoDup ls.
Proof.
  pose (s := match categorizeEmail "" (Some invoice_mail) with
             | Ok s => s
             | Throw _ => invoice_mail
             end).
  assert (Hr : categorizeEmail "" (Some invoice_mail) = Ok s)
    by (vm_compute; reflexivity).
  destruct (categorizeEmail_labels "" invoice_mail s Hr)
    as (ls & Hl & Hnd & _).
  exists s, ls. auto.
Defined.

(** ** Attachment processing: the metadata and the labels *)

Lemma arr_includes_push (t : list string) (ty x : string) :
  Js.arr_includes (if Js.arr_includes t ty then t else (t ++ [ty])%list) x
  = Js.arr_includes t x || String.eqb ty x.
Proof.
  destruct (String.eqb ty x) eqn:E.
  - apply String.eqb_eq in E. subst ty.
    destruct (Js.arr_includes t x) eqn:I; [now rewrite I|].
    unfold Js.arr_includes. rewrite existsb_app. cbn.
    now rewrite String.eqb_refl, orb_true_r.
  - rewrite orb_false_r. destruct (Js.arr_includes t ty); [reflexivity|].
    unfold Js.arr_includes. rewrite existsb_app. cbn.
    rewrite String.eqb_sym, E. now rewrite !orb_false_r.
Qed.

Lemma NoDup_push (t : list string) (x : string) :
  List.NoDup t -> List.NoDup (if Js.arr_includes t x then t else (t ++ [x])%list).
Proof.
  intros Hnd. destruct (Js.arr_includes t x) eqn:E; [exact Hnd|].
  assert (Hx : ~ In x t).
  { intros Hin. apply arr_includes_In in Hin. congruence. }
  clear E. induction Hnd as [|y r Hy Hr IH]; cbn [app].
  - constructor; [intros []|constructor].
  - constructor.
    + rewrite in_app_iff. cbn [In]. intros [H|[H|[]]]; [contradiction|].
      subst. apply Hx. now left.
    + apply IH. intros H. apply Hx. now right.
Qed.

Lemma scan_attachment_keeps (md : AttachmentMetadata) (a : Attachment) :
  List.NoDup md.(types) -> flags_agree md ->
  count (scan_attachment md a) = count md
  /\ List.NoDup (types (scan_attachment md a))
  /\ flags_agree (scan_attachment md a).
Proof.
  intros Hnd Hf. unfold scan_attachment. cbv zeta.
  destruct (filename a) as [name|]; [|now split].
  destruct (String.eqb name ""); [now split|].
  split; [reflexivity|]. split; [apply NoDup_push, Hnd|].
  destruct Hf as (H1 & H2 & H3 & H4 & H5 & H6). unfold flags_agree.
  cbn [types hasDocuments hasImages hasSpreadsheets hasPresentations
       hasArchives hasExecutables].
  rewrite !arr_includes_push, <- H1, <- H2, <- H3, <- H4, <- H5, <- H6.
  repeat split.
Qed.

Lemma scan_attachments_keep (atts : list Attachment) :
  forall md, List.NoDup md.(types) -> flags_agree md ->
    count (fold_left scan_attachment atts md) = count md
    /\ List.NoDup (types (fold_left scan_attachment atts md))
    /\ flags_agree (fold_left scan_attachment atts md).
Proof.
  induction atts as [|a r IH]; intros md Hnd Hf; cbn [fold_left];
    [now split|].
  destruct (scan_attachment_keeps md a Hnd Hf) as (Hc & Hnd' & Hf').
  destruct (IH _ Hnd' Hf') as (Hc2 & Hnd2 & Hf2).
  split; [congruence|now split].
Qed.

Lemma push_if_In (c : bool) (y x : string) (l : list string) :
  In x (push_if c y l) <-> In x l \/ (c = true /\ x = y).
Proof.
  unfold push_if. destruct c.
  - rewrite in_app_iff. cbn. intuition.
  - intuition. discriminate.
Qed.

(** For a message with attachments, the metadata counts them all, lists
    each type once, and its flags say exactly which types are listed; the
    labels keep the ones the message had, gain 'Has Attachments', and gain
    the label of every flag that is set among documents, spreadsheets,
    presentations and executables. *)
Theorem processAttachments_metadata (e s : CachedMessage)
    (atts : list Attachment) :
  e.(attachments) = Some atts -> atts <> [] ->
  processAttachments (Some e) = Ok s ->
  exists md ls,
    s.(attachmentMetadata) = Some md
    /\ s.(labels) = Some ls
    /\ count md = length atts
    /\ List.NoDup md.(types)
    /\ flags_agree md
    /\ List.NoDup ls
    /\ In "Has Attachments" ls
    /\ (forall x, In x (view e.(labels)) -> In x ls)
    /\ (md.(hasDocuments) = true -> In "Has Documents" ls)
    /\ (md.(hasSpreadsheets) = true -> In "Has Spreadsheets" ls)
    /\ (md.(hasPresentations) = true -> In "Has Presentations" ls)
    /\ (md.(hasExecutables) = true -> In "Has Executables" ls).
Proof.
  intros Ha Hne H. unfold processAttachments, valid_email in H.
  destruct (negb (String.eqb (_id e) "")); cbn [rbind] in H; [|discriminate].
  rewrite Ha in H. destruct atts as [|a0 r]; [contradiction|].
  cbv zeta in H. apply Ok_inj in H.
  set (md0 := mkAttachmentMetadata (length (a0 :: r)) [] 0 false false false
                                   false false false) in *.
  assert (H0 : List.NoDup (types md0) /\ flags_agree md0).
  { split; [constructor|]. unfold flags_agree. cbn. tauto. }
  destruct (scan_attachments_keep (a0 :: r) md0 (proj1 H0) (proj2 H0))
    as (Hc & Hnd & Hf).
  set (md := fold_left scan_attachment (a0 :: r) md0) in *.
  clearbody md.
  change (match labels e with Some l => l | None => [] end)
    with (view (labels e)) in H.
  eexists md, _. subst s.
  cbn [attachmentMetadata labels set_labels set_importanceScore set_spamScore
       set_deletableScore set_attachmentMetadata].
  split; [reflexivity|]. split; [reflexivity|].
  split; [exact Hc|]. split; [exact Hnd|]. split; [exact Hf|].
  split; [apply unique_from_NoDup|].
  repeat split; try intros x Hx; try intros Hflag;
    apply unique_In; rewrite !push_if_In, in_app_iff; cbn [In]; tauto.
Qed.

Lemma processAttachments_metadata_witness :
  exists s md,
    processAttachments (Some attached_mail) = Ok s
    /\ s.(attachmentMetadata) = Some md
    /\ count md = 3%nat
    /\ flags_agree md.
Proof.
  pose (s := match processAttachments (Some attached_mail) with
             | Ok s => s
             | Throw _ => attached_mail
             end).
  assert (Hr : processAttachments (Some attached_mail) = Ok s)
    by (vm_compute; reflexivity).
  destruct (processAttachments_metadata attached_mail s _ eq_refl
              ltac:(discriminate) Hr)
    as (md & ls & Hmd & _ & Hc & _ & Hf & _).
  exists s, md. auto.
Defined.

(** ** Enrichment leaves the documents alone *)

Lemma keeps_mail_updateInbox (userId : string) (toISOString : Z -> string)
    (now : Z) (cachedIds : CachedIds) :
  keeps_mail (updateInbox userId toISOString now cachedIds).
Proof. unfold updateInbox. destruct (inbox cachedIds); frame. Qed.


Section EnrichmentFrames.

Variable userId contacts : string.
Variable Date_getTime : string -> option Z.
Variable Math_exp : Q -> Q.
Variable toISOString : Z -> string.
Variable converse : CachedMessage -> result AiReply.

Lemma keeps_mail_process_email (now : Z) (email : option CachedMessage)
    (remaining : list string) :
  keeps_mail (process_email contacts Date_getTime Math_exp toISOString converse
                            now email remaining).
Proof.
  unfold process_email. destruct (try_enrich _ _ _ _ _ _ _ _); [frame|].
  destruct email; frame.
Qed.

Lemma keeps_mail_process_batch (now : Z) (emails : list (option CachedMessage)) :
  forall remaining,
    keeps_mail (process_batch contacts Date_getTime Math_exp toISOString
                              converse now emails remaining).
Proof.
  induction emails as [|email r IH]; intros remaining w; cbn [process_batch].
  - reflexivity.
  - pose proof (keeps_mail_process_email now email remaining w) as Hm.
    destruct (process_email _ _ _ _ _ _ _ _ w) as [[rem1|err] w1];
      cbn [snd] in *.
    + now rewrite IH.
    + now rewrite IH.
Qed.

Lemma keeps_mail_process_batches (now : Z) (bs : list (list string)) :
  forall remaining,
    keeps_mail (process_batches contacts Date_getTime Math_exp toISOString
                                converse now bs remaining).
Proof.
  induction bs as [|b r IH]; intros remaining; cbn [process_batches];
    [frame|].
  frame; first [apply keeps_mail_process_batch | apply IH].
Qed.

(** Whatever its outcome, a run of [supplySummaries] leaves every message
    document as it found it: no result of the enrichment is stored. *)
Theorem supplySummaries_keeps_documents (now : Z) :
  keeps_mail (supplySummaries userId contacts Date_getTime Math_exp toISOString
                              converse now).
Proof.
  unfold supplySummaries. apply keeps_mail_bind; [frame|]. intros doc.
  destruct doc as [cachedIds|]; [|frame].
  destruct (summarizationQueue cachedIds) as [[|q0 qs]|]; try solve [frame].
  remember (q0 :: qs) as queue eqn:Hq. clear Hq.
  frame; first [apply keeps_mail_process_batches | apply keeps_mail_updateInbox].
Qed.

End EnrichmentFrames.

Lemma supplySummaries_never_dequeues_witness :
  exists w',
    supplySummaries "u" "" sample_dates exp_series sample_iso invoice_reply
                    ten_days_later queue_world = (Ok tt, w')
    /\ persisted_queue "u" w' = Some (Js.unique ["u#a#m1"]).
Proof.
  pose (w' := snd (supplySummaries "u" "" sample_dates exp_series sample_iso
                     invoice_reply ten_days_later queue_world)).
  assert (Hrun : supplySummaries "u" "" sample_dates exp_series sample_iso
                   invoice_reply ten_days_later queue_world = (Ok tt, w'))
    by (vm_compute; reflexivity).
  exists w'. split; [exact Hrun|].
  refine (supplySummaries_never_dequeues "u" "" sample_dates exp_series
            sample_iso invoice_reply ten_days_later queue_world w'
            (mkCachedIds (Some ["u#a#m1"]) (Some ["u#a#m1"]) None
                         (Some ["u#a#m1"]) (Some ["u#a#m1"]) None)
            ["u#a#m1"] _ eq_refl _ Hrun); [vm_compute; reflexivity|discriminate].
Defined.

Lemma updateInbox_completes_witness :
  exists w', updateInbox "u" sample_iso 0 sample_index sample_mailbox
             = (Ok tt, w').
Proof.
  apply (updateInbox_completes "u" sample_iso 0 sample_index sample_mailbox
           ["u#a#m1"; "u#a#m2"] eq_refl).
  repeat first [apply Forall_cons_2 | apply Forall_nil_2];
    (split; [discriminate|vm_compute; eauto]).
Defined.

(** ** Scoring never lowers the importance *)

Section ScoringAgain.

Variable Date_getTime : string -> option Z.


End ScoringAgain.


(** ** Reading many documents *)

Lemma mapM_get_reads (l : list string) (w : world) :
  Forall (fun x => x <> "") l ->
  mapM get l w = (Ok (map (fun x => w.(mail) !! x) l), w).
Proof.
  induction 1 as [|x l Hx _ IH]; [reflexivity|].
  cbn [mapM map]. unfold bind.
  assert (Hg : get x w = (Ok (w.(mail) !! x), w)).
  { unfold get. apply String.eqb_neq in Hx. now rewrite Hx. }
  now rewrite Hg, IH.
Qed.


Lemma all_found_None (l : list (option CachedMessage)) :
  In None l -> all_found l = Throw TypeError.
Proof.
  induction l as [|[e|] r IH]; cbn [In all_found].
  - intros [].
  - intros [H|H]; [discriminate|]. now rewrite (IH H).
  - reflexivity.
Qed.

Lemma non_null_In {A} (l : list (option A)) (x : A) :
  In x (non_null l) <-> In (Some x) l.
Proof.
  induction l as [|[y|] r IH]; cbn [non_null In].
  - tauto.
  - rewrite IH. split; intros [H|H]; auto; left; congruence.
  - rewrite IH. split; [auto|]. intros [H|H]; [discriminate|auto].
Qed.

Lemma slice0_In {A} (n : Z) (l : list A) (x : A) :
  In x (slice0 n l) -> In x l.
Proof.
  unfold slice0. destruct (n <? 0)%Z; intros H.
  - rewrite <- (firstn_skipn (length l - Z.to_nat (- n)) l).
    apply in_app_iff. now left.
  - rewrite <- (firstn_skipn (Z.to_nat n) l). apply in_app_iff. now left.
Qed.


(** ** Search over the cached messages *)

Section Search.

Variable userId : string.

Local Abbreviation all_emails := (MailCache._getAllEmails userId).
Local Abbreviation search_with := (MailCache.search_with userId).


Lemma search_with_keep (keep : CachedMessage -> bool) (limit : option Z)
    (w w' : world) (found : list CachedMessage) :
  search_with keep limit w = (Ok found, w') ->
  forall m, In m found -> keep m = true.
Proof.
  unfold MailCache.search_with. intros H.
  apply bind_inv in H as (emails & w1 & _ & H). injection H as <- <-.
  intros m Hm. now apply slice0_In, filter_In in Hm as [_ Hk].
Qed.


(** The two range searches refuse a range that is not within [0, 1] or is
    empty, before anything is read; and for a range they accept, every
    result has its score within the range. *)
Theorem searchByImportance_range (minScore maxScore : Q) (limit : option Z)
    (w : world) :
  (~ (0 <= minScore /\ minScore <= maxScore /\ maxScore <= 1)%Q ->
   MailCache.searchByImportance userId (Some minScore) (Some maxScore) limit w
   = (Throw (MkError "Invalid importance score range"), w)
   /\ MailCache.searchBySpam userId (Some minScore) (Some maxScore) limit w
      = (Throw (MkError "Invalid spam score range"), w))
  /\ ((0 <= minScore /\ minScore <= maxScore /\ maxScore <= 1)%Q ->
      (forall found w',
         MailCache.searchByImportance userId (Some minScore) (Some maxScore)
                                      limit w = (Ok found, w') ->
         forall m, In m found ->
           (minScore <= m.(importanceScore) <= maxScore)%Q)
      /\ (forall found w',
            MailCache.searchBySpam userId (Some minScore) (Some maxScore)
                                   limit w = (Ok found, w') ->
            forall m, In m found ->
              (minScore <= m.(spamScore) <= maxScore)%Q)).
Proof.
  assert (Hbad : MailCache.bad_range minScore maxScore = false
                 <-> (0 <= minScore /\ minScore <= maxScore /\ maxScore <= 1)%Q).
  { unfold MailCache.bad_range, Js.Qltb, Js.Qgtb.
    rewrite !orb_false_iff, !negb_false_iff, !Qle_bool_iff. split.
    - intros ((((H1 & H2) & H3) & H4) & H5). lra.
    - intros (H1 & H2 & H3). repeat split; lra. }
  assert (Hin : forall s, MailCache.within minScore maxScore s = true ->
                          (minScore <= s <= maxScore)%Q).
  { intros s. unfold MailCache.within, Js.Qgeb.
    rewrite andb_true_iff, !Qle_bool_iff. tauto. }
  unfold MailCache.searchByImportance, MailCache.searchBySpam.
  cbn [MailCache.min_of MailCache.max_of]. split.
  - intros Hno. destruct (MailCache.bad_range minScore maxScore) eqn:E.
    + split; reflexivity.
    + exfalso. apply Hno, Hbad. reflexivity.
  - intros Hok. apply Hbad in Hok. rewrite Hok. split.
    + intros found w' H m Hm.
      apply Hin. exact (search_with_keep _ _ _ _ _ H m Hm).
    + intros found w' H m Hm.
      apply Hin. exact (search_with_keep _ _ _ _ _ H m Hm).
Qed.


End Search.



Lemma searchByImportance_range_witness :
  MailCache.searchByImportance "u" (Some 0.5%Q) (Some 0.25%Q) None
                               indexed_mailbox
  = (Throw (MkError "Invalid importance score range"), indexed_mailbox).
Proof.
  apply (proj1 (searchByImportance_range "u" 0.5%Q 0.25%Q None indexed_mailbox)).
  intros (_ & H & _). revert H. vm_compute. intros H. now apply H.
Defined.

(** ** Deleting a document, archiving a message *)

Section DeleteAndArchive.

Variable userId : string.
Variable toISOString : Z -> string.

Local Abbreviation all_emails := (MailCache._getAllEmails userId).

(** Deleting the document of a message that the inbox lists leaves the
    index as it is, so the next [updateInbox] on it fails on the missing
    document, with nothing written. *)
Theorem delete_breaks_views (now : Z) (id : string) (cachedIds : CachedIds)
    (old : list string) (w w1 : world) :
  cachedIds.(inbox) = Some old ->
  Forall (fun x => x <> "") old ->
  In id old ->
  MailCache.delete id w = (Ok tt, w1) ->
  w1.(users) = w.(users)
  /\ get id w1 = (Ok None, w1)
  /\ updateInbox userId toISOString now cachedIds w1 = (Throw TypeError, w1).
Proof.
  intros Hold Hne Hin H. unfold MailCache.delete in H.
  assert (Hid : id <> "").
  { rewrite List.Forall_forall in Hne. now apply Hne. }
  apply String.eqb_neq in Hid. rewrite Hid in H.
  unfold delete_mail in H. injection H as <-.
  split; [reflexivity|].
  set (w1 := mkWorld _ _ _).
  assert (Hgone : w1.(mail) !! id = None) by apply lookup_delete_eq.
  split.
  - unfold get. rewrite Hid. unfold read_mail. now rewrite Hgone.
  - unfold updateInbox. rewrite Hold. unfold bind at 1.
    rewrite (mapM_get_reads old w1 Hne). unfold bind at 1, lift.
    rewrite all_found_None; [reflexivity|].
    apply in_map_iff. exists id. now split.
Qed.

(** The searches, which go by [ids], pass over the deleted document: after
    the deletion they range over the documents of the other identifiers. *)
Theorem delete_hides_from_search (id : string) (idx : CachedIds)
    (listed : list string) (w w1 : world) :
  index_of userId w = Some idx ->
  idx.(ids) = Some listed ->
  Forall (fun x => x <> "") listed ->
  MailCache.delete id w = (Ok tt, w1) ->
  exists emails,
    all_emails w1 = (Ok emails, w1)
    /\ forall m, In m emails <->
                 exists x, In x listed /\ x <> id /\ w.(mail) !! x = Some m.
Proof.
  intros Hidx Hids Hne H. unfold MailCache.delete in H.
  destruct (String.eqb id ""); [discriminate|].
  unfold delete_mail in H. injection H as <-.
  set (w1 := mkWorld _ _ _).
  exists (non_null (map (fun x => w1.(mail) !! x) listed)).
  assert (Hlk : forall x m, w1.(mail) !! x = Some m
                            <-> x <> id /\ w.(mail) !! x = Some m).
  { intros x m. subst w1. cbn [mail].
    destruct (String.eqb_spec x id) as [->|Hx].
    - rewrite lookup_delete_eq. split; [discriminate|]. now intros [[] _].
    - rewrite lookup_delete_ne by congruence. tauto. }
  split.
  - unfold MailCache._getAllEmails, bind, read_user.
    change (users w1 !! cacheIdsKey userId) with (index_of userId w).
    rewrite Hidx, Hids. destruct listed as [|x0 l]; [reflexivity|].
    now rewrite (mapM_get_reads (x0 :: l) w1 Hne).
  - intros m. rewrite non_null_In, in_map_iff. split.
    + intros (x & Hx & Hin). exists x. apply Hlk in Hx. tauto.
    + intros (x & Hin & Hx & Hm). exists x. split; [|exact Hin].
      apply Hlk. now split.
Qed.


End DeleteAndArchive.

Lemma delete_breaks_views_witness :
  exists w1,
    MailCache.delete "u#a#m1" indexed_mailbox = (Ok tt, w1)
    /\ updateInbox "u" sample_iso 0 sample_index w1 = (Throw TypeError, w1).
Proof.
  pose (w1 := snd (MailCache.delete "u#a#m1" indexed_mailbox)).
  assert (Hrun : MailCache.delete "u#a#m1" indexed_mailbox = (Ok tt, w1))
    by (vm_compute; reflexivity).
  exists w1. split; [exact Hrun|].
  refine (proj2 (proj2 (delete_breaks_views "u" sample_iso 0 "u#a#m1"
                          sample_index ["u#a#m1"; "u#a#m2"] indexed_mailbox w1
                          eq_refl _ _ Hrun))).
  - repeat first [apply Forall_cons_2 | apply Forall_nil_2]; discriminate.
  - now left.
Defined.

Lemma delete_hides_from_search_witness :
  exists w1 emails,
    MailCache.delete "u#a#m1" indexed_mailbox = (Ok tt, w1)
    /\ MailCache._getAllEmails "u" w1 = (Ok emails, w1)
    /\ In (sample_message "u#a#m2" 0.7 0.1) emails.
Proof.
  pose (w1 := snd (MailCache.delete "u#a#m1" indexed_mailbox)).
  assert (Hrun : MailCache.delete "u#a#m1" indexed_mailbox = (Ok tt, w1))
    by (vm_compute; reflexivity).
  destruct (delete_hides_from_search "u" "u#a#m1" sample_index
              ["u#a#m1"; "u#a#m2"] indexed_mailbox w1)
    as (emails & Hall & Hin);
    [vm_compute; reflexivity|reflexivity| |exact Hrun|].
  - repeat first [apply Forall_cons_2 | apply Forall_nil_2]; discriminate.
  - exists w1, emails. split; [exact Hrun|]. split; [exact Hall|].
    apply Hin. exists "u#a#m2". split; [right; now left|].
    split; [discriminate|vm_compute; reflexivity].
Defined.


(** ** Rescoring the inbox *)

Lemma applyAdvancedScoring_id (f : string -> option Z) (now : Z)
    (e s : CachedMessage) :
  applyAdvancedScoring f now (Some e) = Ok s -> s.(_id) = e.(_id).
Proof.
  unfold applyAdvancedScoring, valid_email. intros H.
  destruct (negb (String.eqb (_id e) "")); cbn [rbind] in H; [|discriminate].
  destruct (from e); [|discriminate].
  cbv zeta in H. apply Ok_inj in H. now subst s.
Qed.

Lemma fold_insert_other (scored : list CachedMessage) :
  forall (m : gmap string CachedMessage) (k : string),
    ~ In k (map _id scored) ->
    fold_left (fun m s => <[s.(_id) := s]> m) scored m !! k = m !! k.
Proof.
  induction scored as [|s r IH]; intros m k Hk; [reflexivity|].
  cbn [fold_left]. cbn [map In] in Hk. rewrite IH by tauto.
  apply lookup_insert_ne. tauto.
Qed.

Lemma fold_insert_same (scored : list CachedMessage) :
  forall (m : gmap string CachedMessage) (k : string) (sk : CachedMessage),
    In k (map _id scored) ->
    (forall s, In s scored -> s.(_id) = k -> s = sk) ->
    fold_left (fun m s => <[s.(_id) := s]> m) scored m !! k = Some sk.
Proof.
  induction scored as [|s r IH]; intros m k sk Hk Hsame; [destruct Hk|].
  cbn [fold_left].
  destruct (in_dec string_dec k (map _id r)) as [Hin|Hout].
  - apply IH; [exact Hin|]. intros s' Hs'. apply Hsame. now right.
  - rewrite fold_insert_other by exact Hout.
    destruct Hk as [Hk|Hk]; [|contradiction].
    rewrite <- Hk, lookup_insert_eq. f_equal. apply Hsame; [now left|exact Hk].
Qed.

Section Rescore.

Variable userId : string.
Variable Date_getTime : string -> option Z.
Variable toISOString : Z -> string.

Local Abbreviation score := (applyAdvancedScoring Date_getTime).
Local Abbreviation rescore := (MailCache.rescore userId Date_getTime toISOString).
Local Abbreviation rescore_all := (MailCache.rescore_all Date_getTime).

Lemma rescore_all_inv (now : Z) (emails : list (option CachedMessage)) :
  forall w w1,
    rescore_all now emails w = (Ok tt, w1) ->
    w1.(users) = w.(users)
    /\ exists scored,
         Forall2 (fun o s => exists e, o = Some e /\ score now (Some e) = Ok s)
                 emails scored
         /\ w1.(mail) = fold_left (fun m s => <[s.(_id) := s]> m) scored w.(mail).
Proof.
  induction emails as [|email r IH]; intros w w1 H.
  - cbn in H. injection H as <-. split; [reflexivity|].
    exists []. split; [constructor|reflexivity].
  - cbn [MailCache.rescore_all] in H.
    destruct (MailCache.rescore_one Date_getTime now email w)
      as [[u|err] w0] eqn:E; [|discriminate].
    unfold MailCache.rescore_one, bind, lift in E.
    destruct (score now email) as [s|err] eqn:Hs; [|discriminate].
    destruct email as [e|]; [|discriminate].
    unfold update_mail, ret in E. cbv zeta in E. injection E as _ <-.
    apply IH in H as (Hu & scored & Hall & Hm). cbn [users mail] in *.
    split; [exact Hu|]. exists (s :: scored). split.
    + constructor; [|exact Hall]. exists e. now split.
    + cbn [fold_left]. now rewrite (applyAdvancedScoring_id _ _ _ _ Hs).
Qed.

Lemma rescore_inv (now : Z) (w w' : world) (idx : CachedIds)
    (inb : list string) :
  index_of userId w = Some idx ->
  idx.(inbox) = Some inb ->
  inb <> [] ->
  rescore now w = (Ok tt, w') ->
  exists scored w1 w2,
    Forall2 (fun x s => x <> "" /\ exists e, w.(mail) !! x = Some e
                                             /\ score now (Some e) = Ok s)
            inb scored
    /\ w1.(mail) = fold_left (fun m s => <[s.(_id) := s]> m) scored w.(mail)
    /\ w1.(users) = w.(users)
    /\ updateInbox userId toISOString now idx w1 = (Ok tt, w2)
    /\ w'.(mail) = w2.(mail)
    /\ w'.(users) = w2.(users).
Proof.
  intros Hidx Hinb Hne H. unfold MailCache.rescore in H.
  apply bind_inv in H as (doc & w0 & Hread & H).
  unfold read_user in Hread. injection Hread as <- <-.
  fold (index_of userId w) in H. rewrite Hidx, Hinb in H.
  destruct inb as [|x0 r]; [contradiction|].
  apply bind_inv in H as ([] & w0 & Hlog & H).
  unfold logInfo, emit in Hlog. injection Hlog as <-.
  apply bind_inv in H as (found & w1 & Hget & H).
  apply mapM_get_keys in Hget as [-> Hfound]. cbn [mail] in Hfound.
  apply bind_inv in H as ([] & w1 & Hall & H).
  apply rescore_all_inv in Hall as (Hu & scored & Hscored & Hm).
  cbn [users mail] in Hu, Hm.
  apply bind_inv in H as ([] & w2 & Hupd & H).
  unfold logInfo, emit in H. injection H as <-.
  exists scored, w1, w2.
  split; [|split; [exact Hm|split; [exact Hu|split; [exact Hupd|now split]]]].
  clear -Hfound Hscored. revert scored Hscored.
  induction Hfound as [|x o l found [Hx Ho] _ IH]; intros scored Hs;
    inversion Hs as [|o' s' found' scored' (e & He & Hsc) Hrest]; subst;
    constructor.
  - split; [exact Hx|]. exists e. now split.
  - now apply IH.
Qed.

Lemma scored_ids (now : Z) (w : world) (inb : list string)
    (scored : list CachedMessage) :
  (forall x e, In x inb -> w.(mail) !! x = Some e -> e.(_id) = x) ->
  Forall2 (fun x s => x <> "" /\ exists e, w.(mail) !! x = Some e
                                           /\ score now (Some e) = Ok s)
          inb scored ->
  map _id scored = inb
  /\ forall s, In s scored ->
       exists e, w.(mail) !! s.(_id) = Some e /\ score now (Some e) = Ok s.
Proof.
  intros Hkeys Hall.
  induction Hall as [|x s l scored (Hx & e & He & Hs) _ IH].
  - split; [reflexivity|]. intros s [].
  - assert (Hid : s.(_id) = x).
    { rewrite (applyAdvancedScoring_id _ _ _ _ Hs).
      apply (Hkeys x e); [now left|exact He]. }
    destruct IH as [IHm IHs].
    { intros x' e' Hin. apply Hkeys. now right. }
    split; [cbn [map]; now rewrite Hid, IHm|].
    intros s' [<-|Hin]; [|now apply IHs].
    exists e. rewrite Hid. now split.
Qed.

(** A completed [rescore] replaces the document of every inbox message by
    what the scoring pass makes of it and leaves all other documents alone
    (for documents that carry their own key as [_id]). *)
Theorem rescore_documents (now : Z) (w w' : world) (idx : CachedIds)
    (inb : list string) :
  index_of userId w = Some idx ->
  idx.(inbox) = Some inb ->
  inb <> [] ->
  (forall x e, In x inb -> w.(mail) !! x = Some e -> e.(_id) = x) ->
  rescore now w = (Ok tt, w') ->
  (forall x, In x inb ->
     exists e s, w.(mail) !! x = Some e
                 /\ score now (Some e) = Ok s
                 /\ w'.(mail) !! x = Some s)
  /\ (forall k, ~ In k inb -> w'.(mail) !! k = w.(mail) !! k).
Proof.
  intros Hidx Hinb Hne Hkeys H.
  destruct (rescore_inv now w w' idx inb Hidx Hinb Hne H)
    as (scored & w1 & w2 & Hall & Hm & _ & Hupd & Hmail & _).
  apply updateInbox_inv in Hupd as (_ & _ & _ & _ & Hmail2 & _).
  rewrite Hmail, Hmail2, Hm.
  destruct (scored_ids now w inb scored Hkeys Hall) as [Hids Hs].
  split.
  - intros x Hx. rewrite <- Hids in Hx.
    assert (Hx' := Hx). apply in_map_iff in Hx' as (sx & Hsx & Hin).
    destruct (Hs sx Hin) as (e & He & Hsc). rewrite Hsx in He.
    exists e, sx. split; [exact He|]. split; [exact Hsc|].
    apply fold_insert_same; [exact Hx|].
    intros s' Hin' Hid'. destruct (Hs s' Hin') as (e' & He' & Hsc').
    rewrite Hid' in He'. congruence.
  - intros k Hk. apply fold_insert_other. now rewrite Hids.
Qed.

(** A completed [rescore] keeps [ids], [newMail] and the summarization
    queue of the index, and rebuilds the two views over the same
    identifiers, [inbox] in descending order of the new priority scores. *)
Theorem rescore_index (now : Z) (w w' : world) (idx : CachedIds)
    (inb : list string) :
  index_of userId w = Some idx ->
  idx.(inbox) = Some inb ->
  inb <> [] ->
  (forall x e, In x inb -> w.(mail) !! x = Some e -> e.(_id) = x) ->
  rescore now w = (Ok tt, w') ->
  exists idx' emails,
    index_of userId w' = Some idx'
    /\ idx'.(ids) = idx.(ids)
    /\ idx'.(newMail) = idx.(newMail)
    /\ idx'.(summarizationQueue) = idx.(summarizationQueue)
    /\ idx'.(inbox) = Some (map _id emails)
    /\ descending priority_key emails
    /\ Forall (fun m => w'.(mail) !! m.(_id) = Some m) emails
    /\ Permutation (map _id emails) inb
    /\ Permutation (view idx'.(deletables)) inb.
Proof.
  intros Hidx Hinb Hne Hkeys H.
  destruct (rescore_inv now w w' idx inb Hidx Hinb Hne H)
    as (scored & w1 & w2 & Hall & Hm & _ & Hupd & Hmail & Husers).
  destruct (scored_ids now w inb scored Hkeys Hall) as [Hids Hs].
  apply updateInbox_inv in Hupd
    as (old & loaded & Hold & Hloaded & Hmail2 & Hidx2).
  rewrite Hinb in Hold. injection Hold as <-.
  assert (Hown : Forall (fun m => w1.(mail) !! m.(_id) = Some m) loaded
                 /\ map _id loaded = inb).
  { assert (Hlk : forall x, In x inb ->
                    exists sx, w1.(mail) !! x = Some sx /\ sx.(_id) = x).
    { intros x Hx. rewrite <- Hids in Hx.
      assert (Hx' := Hx). apply in_map_iff in Hx' as (sx & Hsx & Hin).
      exists sx. split; [|exact Hsx]. rewrite Hm.
      apply fold_insert_same; [exact Hx|].
      intros s' Hin' Hid'.
      destruct (Hs s' Hin') as (e' & He' & Hsc').
      destruct (Hs sx Hin) as (e & He & Hsc).
      rewrite Hid' in He'. rewrite Hsx in He. congruence. }
    clear -Hloaded Hlk. induction Hloaded as [|x m l loaded [Hx Hmx] _ IH].
    - split; constructor.
    - destruct (Hlk x (or_introl eq_refl)) as (sx & Hsx & Hid).
      assert (m = sx) by congruence. subst sx.
      destruct IH as [IH1 IH2]; [intros x' Hin; apply Hlk; now right|].
      split; [constructor; [now rewrite Hid|exact IH1]|].
      cbn [map]. now rewrite Hid, IH2. }
  destruct Hown as [Hown Hmap].
  assert (Hidx' : index_of userId w' = index_of userId w2).
  { unfold index_of. now rewrite Husers. }
  eexists. exists (js_sort by_priority loaded).
  split; [rewrite Hidx'; exact Hidx2|]. cbn [ids newMail summarizationQueue inbox
                                             deletables view].
  split; [reflexivity|]. split; [reflexivity|]. split; [reflexivity|].
  split; [reflexivity|].
  split; [exact (js_sort_descending priority_key loaded)|].
  split.
  { eapply Permutation_Forall; [symmetry; apply js_sort_perm|].
    rewrite Hmail, Hmail2. exact Hown. }
  split.
  - rewrite <- Hmap. apply Permutation_map. apply js_sort_perm.
  - rewrite <- Hmap. apply Permutation_map.
    etransitivity; apply js_sort_perm.
Qed.

End Rescore.

Lemma rescore_documents_witness :
  exists w' e s,
    MailCache.rescore "u" sample_dates sample_iso ten_days_later indexed_mailbox
    = (Ok tt, w')
    /\ indexed_mailbox.(mail) !! "u#a#m1" = Some e
    /\ applyAdvancedScoring sample_dates ten_days_later (Some e) = Ok s
    /\ w'.(mail) !! "u#a#m1" = Some s.
Proof.
  pose (w' := snd (MailCache.rescore "u" sample_dates sample_iso ten_days_later
                     indexed_mailbox)).
  assert (Hrun : MailCache.rescore "u" sample_dates sample_iso ten_days_later
                   indexed_mailbox = (Ok tt, w')) by (vm_compute; reflexivity).
  destruct (rescore_documents "u" sample_dates sample_iso ten_days_later
              indexed_mailbox w' sample_index ["u#a#m1"; "u#a#m2"])
    as [Hin _];
    [vm_compute; reflexivity|reflexivity|discriminate| |exact Hrun|].
  - intros x e [<-|[<-|[]]] He; vm_compute in He; injection He as <-;
      reflexivity.
  - destruct (Hin "u#a#m1" (or_introl eq_refl)) as (e & s & He & Hs & Hs').
    exists w', e, s. auto.
Defined.

Lemma rescore_index_witness :
  exists w' idx',
    MailCache.rescore "u" sample_dates sample_iso ten_days_later indexed_mailbox
    = (Ok tt, w')
    /\ index_of "u" w' = Some idx'
    /\ Permutation (view idx'.(inbox)) ["u#a#m1"; "u#a#m2"]
    /\ Permutation (view idx'.(deletables)) ["u#a#m1"; "u#a#m2"].
Proof.
  pose (w' := snd (MailCache.rescore "u" sample_dates sample_iso ten_days_later
                     indexed_mailbox)).
  assert (Hrun : MailCache.rescore "u" sample_dates sample_iso ten_days_later
                   indexed_mailbox = (Ok tt, w')) by (vm_compute; reflexivity).
  destruct (rescore_index "u" sample_dates sample_iso ten_days_later
              indexed_mailbox w' sample_index ["u#a#m1"; "u#a#m2"])
    as (idx' & emails & Hidx & _ & _ & _ & Hinb & _ & _ & Hp & Hd);
    [vm_compute; reflexivity|reflexivity|discriminate| |exact Hrun|].
  - intros x e [<-|[<-|[]]] He; vm_compute in He; injection He as <-;
      reflexivity.
  - exists w', idx'. rewrite Hinb. cbn [view]. auto.
Defined.

(** ** Constructing the cache service *)

Section Construction.

Variable getContacts : string -> result (list MailCache.Contact).
Variable listGeneralRecords : string -> result (list string).
Variable getOpenAiApiKey : result string.

Local Abbreviation create :=
  (MailCache.create getContacts listGeneralRecords getOpenAiApiKey).

Lemma contact_list_In (cs : list MailCache.Contact) :
  forall entries x,
    MailCache.contact_list cs = Ok entries -> In x entries ->
    exists c a, In c cs /\ In a (view (MailCache.emailAddresses c)).
Proof.
  induction cs as [|c r IH]; intros entries x H Hx.
  - injection H as <-. destruct Hx.
  - cbn [MailCache.contact_list] in H.
    destruct (MailCache.emailAddresses c) as [addresses|] eqn:Ha.
    + apply rbind_inv in H as (own & Hown & H).
      apply rbind_inv in H as (rest & Hrest & H).
      injection H as <-. apply in_app_iff in Hx as [Hx|Hx].
      * exists c. unfold MailCache.contact_entries in Hown.
        assert (Hne : addresses <> []).
        { intros ->. destruct (MailCache.names c) as [[|n ns]|];
            [discriminate| |]; injection Hown as <-; destruct Hx. }
        destruct addresses as [|a0 l]; [contradiction|].
        exists a0. rewrite Ha. split; left; reflexivity.
      * destruct (IH rest x Hrest Hx) as (c' & a & Hc & Hin).
        exists c', a. split; [now right|exact Hin].
    + destruct (IH entries x H Hx) as (c' & a & Hc & Hin).
      exists c', a. split; [now right|exact Hin].
Qed.

Lemma contact_list_none (cs : list MailCache.Contact) :
  (forall c, In c cs -> MailCache.emailAddresses c = None) ->
  MailCache.contact_list cs = Ok [].
Proof.
  induction cs as [|c r IH]; intros H; [reflexivity|].
  cbn [MailCache.contact_list]. rewrite (H c (or_introl eq_refl)).
  apply IH. intros c' Hc'. apply H. now right.
Qed.

(** No service instance is made for a user without a contact that has an
    e-mail address: an instance that [create] returns is for the user
    asked for, reads the index under that user's key, and comes from a
    contact list in which some contact has an address. *)
Theorem create_needs_address (userId : string) (svc : MailCache.Instance) :
  create userId = Ok svc ->
  MailCache._userId svc = userId
  /\ MailCache._cacheIdsKey svc = cacheIdsKey userId
  /\ MailCache._contacts svc <> ""
  /\ exists cs c a,
       getContacts userId = Ok cs /\ In c cs
       /\ In a (view (MailCache.emailAddresses c)).
Proof.
  unfold MailCache.create. intros H.
  destruct (String.eqb userId ""); [discriminate|].
  apply rbind_inv in H as (cs & Hcs & H).
  apply rbind_inv in H as (entries & Hentries & H). cbv zeta in H.
  apply rbind_inv in H as (records & _ & H).
  apply rbind_inv in H as (key & _ & H).
  unfold MailCache.constructor in H.
  destruct (String.eqb userId ""); [discriminate|].
  destruct (String.eqb key ""); [discriminate|].
  destruct (String.eqb_spec (String.concat "," entries) "") as [|Hne];
    [discriminate|].
  injection H as <-. cbn.
  split; [reflexivity|]. split; [reflexivity|]. split; [exact Hne|].
  destruct entries as [|x l]; [now contradiction Hne|].
  destruct (contact_list_In cs (x :: l) x Hentries (or_introl eq_refl))
    as (c & a & Hc & Ha).
  now exists cs, c, a.
Qed.

(** For a user none of whose contacts has e-mail addresses, [create] ends
    in the constructor's complaint about the missing contacts, also when
    everything else it needs is there. *)
Theorem create_without_addresses (userId key : string)
    (cs : list MailCache.Contact) (records : list string) :
  userId <> "" -> key <> "" ->
  getContacts userId = Ok cs ->
  (forall c, In c cs -> MailCache.emailAddresses c = None) ->
  listGeneralRecords userId = Ok records ->
  getOpenAiApiKey = Ok key ->
  create userId = Throw (MkError "Required parameter missing: contacts").
Proof.
  intros Hu Hk Hcs Hnone Hrec Hkey. unfold MailCache.create.
  apply String.eqb_neq in Hu, Hk. rewrite Hu, Hcs. cbn [rbind].
  rewrite (contact_list_none cs Hnone). cbn [rbind]. rewrite Hrec. cbn [rbind].
  rewrite Hkey. cbn [rbind]. unfold MailCache.constructor.
  now rewrite Hu, Hk.
Qed.

End Construction.

Lemma create_needs_address_witness :
  exists svc,
    MailCache.create sample_contacts (fun _ => Ok ["likes short replies"])
                     (Ok "key") "u" = Ok svc
    /\ MailCache._contacts svc <> "".
Proof.
  pose (svc := match MailCache.create sample_contacts
                       (fun _ => Ok ["likes short replies"]) (Ok "key") "u" with
               | Ok i => i
               | Throw _ => MailCache.mkInstance "" "" "" "" ""
               end).
  assert (Hr : MailCache.create sample_contacts
                 (fun _ => Ok ["likes short replies"]) (Ok "key") "u" = Ok svc)
    by (vm_compute; reflexivity).
  exists svc. split; [exact Hr|].
  exact (proj1 (proj2 (proj2 (create_needs_address sample_contacts _ _ "u" svc
                                Hr)))).
Defined.

Lemma create_without_addresses_witness :
  MailCache.create
    (fun _ => Ok [MailCache.mkContact (Some ["Cy"]) None])
    (fun _ => Ok []) (Ok "key") "u"
  = Throw (MkError "Required parameter missing: contacts").
Proof.
  apply (create_without_addresses
           (fun _ => Ok [MailCache.mkContact (Some ["Cy"]) None])
           (fun _ => Ok []) (Ok "key") "u" "key"
           [MailCache.mkContact (Some ["Cy"]) None] []);
    try discriminate; try reflexivity.
  intros c [<-|[]]. reflexivity.
Defined.

(** ** The mail service: the mailbox first, the cache second *)

Section Moves.

Variable userId : string.
Variable toISOString : Z -> string.
Variable clients : list string.
Variable client_do : string -> mailbox_op -> string -> result unit.

Local Abbreviation move :=
  (MailService.move userId toISOString clients client_do).
Local Abbreviation methods :=
  (MailService.mailbox_methods userId toISOString clients client_do).

Lemma methods_move
    (method : Z -> string -> office -> result unit * office) (op : mailbox_op) :
  In (method, op) methods -> exists done, method = move op done.
Proof.
  intros [H|[H|[H|[]]]]; injection H as <- <-; eexists; reflexivity.
Qed.

(** Each of the three methods has the remote mailbox act before it touches
    the cache: for a message of a known account that the cached inbox does
    not list, the client carries out the operation, and the call then
    fails with the cache as it was. *)
Theorem move_not_in_inbox
    (method : Z -> string -> office -> result unit * office) (op : mailbox_op)
    (now : Z) (id : string) (o : office) (d : DecomposedId) (idx : CachedIds)
    (l : list string) :
  In (method, op) methods ->
  id <> "" ->
  decomposeId id = Ok d ->
  In d.(d_accountId) clients ->
  client_do d.(d_accountId) op d.(d_providerId) = Ok tt ->
  index_of userId o.(cache) = Some idx ->
  idx.(inbox) = Some l ->
  ~ In id l ->
  method now id o
  = (Throw (MkError "Email not found in inbox"),
     mkOffice o.(cache)
              (o.(carried_out) ++ [(d.(d_accountId), op, d.(d_providerId))])).
Proof.
  intros Hm Hid Hd Hacc Hdo Hidx Hl Hnot.
  destruct (methods_move method op Hm) as [done ->].
  unfold MailService.move. apply String.eqb_neq in Hid. rewrite Hid, Hd.
  apply arr_includes_In in Hacc. rewrite Hacc. cbn [negb]. rewrite Hdo.
  assert (Hrun : archive userId toISOString now id (cache o)
                 = (Throw (MkError "Email not found in inbox"), cache o)).
  { unfold archive. rewrite Hid. unfold bind, read_user.
    change (users (cache o) !! cacheIdsKey userId)
      with (index_of userId (cache o)).
    rewrite Hidx, Hl. apply indexOf_None in Hnot. now rewrite Hnot. }
  unfold bind. now rewrite Hrun.
Qed.

(** For a message that the cached inbox lists, each of the three methods
    completes: the client's operation is recorded once, the message leaves
    the inbox view once, and the documents stay as they were. *)
Theorem move_completes
    (method : Z -> string -> office -> result unit * office) (op : mailbox_op)
    (now : Z) (id : string) (o : office) (d : DecomposedId) (idx : CachedIds)
    (l : list string) :
  In (method, op) methods ->
  decomposeId id = Ok d ->
  In d.(d_accountId) clients ->
  client_do d.(d_accountId) op d.(d_providerId) = Ok tt ->
  index_of userId o.(cache) = Some idx ->
  idx.(inbox) = Some l ->
  In id l ->
  id <> "" ->
  exists o' idx',
    method now id o = (Ok tt, o')
    /\ o'.(carried_out)
       = (o.(carried_out) ++ [(d.(d_accountId), op, d.(d_providerId))])%list
    /\ o'.(cache).(mail) = o.(cache).(mail)
    /\ index_of userId o'.(cache) = Some idx'
    /\ idx'.(ids) = idx.(ids)
    /\ Permutation l (id :: view idx'.(inbox)).
Proof.
  intros Hm Hd Hacc Hdo Hidx Hl Hin Hid.
  destruct (methods_move method op Hm) as [done ->].
  unfold MailService.move. apply String.eqb_neq in Hid. rewrite Hid, Hd.
  apply arr_includes_In in Hacc. rewrite Hacc. cbn [negb]. rewrite Hdo.
  destruct (Js.indexOf l id) as [i|] eqn:Hi;
    [|apply indexOf_None in Hi; contradiction].
  assert (Hrun : exists w',
             archive userId toISOString now id (cache o) = (Ok tt, w')).
  { unfold archive. rewrite Hid. unfold bind, read_user.
    change (users (cache o) !! cacheIdsKey userId)
      with (index_of userId (cache o)).
    rewrite Hidx, Hl, Hi. eexists. reflexivity. }
  destruct Hrun as [w' Hrun]. unfold bind. rewrite Hrun.
  apply archive_inv in Hrun
    as (idx0 & l0 & i0 & _ & Hidx0 & Hl0 & Hi0 & Hmail & Hidx').
  rewrite Hidx in Hidx0. injection Hidx0 as <-.
  rewrite Hl in Hl0. injection Hl0 as <-.
  rewrite Hi in Hi0. injection Hi0 as <-.
  unfold logInfo, emit. cbv zeta.
  eexists. eexists. split; [reflexivity|]. cbn [carried_out cache mail users].
  split; [reflexivity|]. split; [exact Hmail|].
  split; [unfold index_of in *; cbn [users]; exact Hidx'|].
  cbn [ids inbox view]. split; [reflexivity|]. now apply indexOf_first.
Qed.

End Moves.

Lemma move_not_in_inbox_witness :
  MailService.moveToTrash "u" sample_iso ["a"] (fun _ _ _ => Ok tt) 0
                          "u#a#m5" sample_office
  = (Throw (MkError "Email not found in inbox"),
     mkOffice indexed_mailbox [("a", OpTrash, "m5")]).
Proof.
  apply (move_not_in_inbox "u" sample_iso ["a"] (fun _ _ _ => Ok tt) _ OpTrash 0
           "u#a#m5" sample_office (mkDecomposedId "u" "a" "m5") sample_index
           ["u#a#m1"; "u#a#m2"]);
    try reflexivity; try discriminate.
  - now left.
  - now left.
  - intros [H|[H|[]]]; discriminate.
Defined.

Lemma move_completes_witness :
  exists o',
    MailService.archive "u" sample_iso ["a"] (fun _ _ _ => Ok tt) 0
                        "u#a#m2" sample_office = (Ok tt, o')
    /\ o'.(carried_out) = [("a", OpArchive, "m2")].
Proof.
  destruct (move_completes "u" sample_iso ["a"] (fun _ _ _ => Ok tt)
              (MailService.archive "u" sample_iso ["a"] (fun _ _ _ => Ok tt))
              OpArchive 0 "u#a#m2" sample_office (mkDecomposedId "u" "a" "m2")
              sample_index ["u#a#m1"; "u#a#m2"])
    as (o' & idx' & Hrun & Hcalls & _);
    try reflexivity; try discriminate.
  - right. right. now left.
  - now left.
  - right. now left.
  - exists o'. split; [exact Hrun|exact Hcalls].
Defined.

(** ** The pipeline and the sentiment pass *)

Lemma applyAdvancedScoring_tone (f : string -> option Z) (now : Z)
    (e s : CachedMessage) :
  applyAdvancedScoring f now (Some e) = Ok s ->
  s.(sentiment) = e.(sentiment) /\ decay_fields s = decay_fields e.
Proof.
  unfold applyAdvancedScoring, valid_email. intros H.
  destruct (negb (String.eqb (_id e) "")); cbn [rbind] in H; [|discriminate].
  destruct (from e); [|discriminate].
  cbv zeta in H. apply Ok_inj in H. subst s. now split.
Qed.

Lemma categorizeEmail_tone (contacts : string) (e s : CachedMessage) :
  categorizeEmail contacts (Some e) = Ok s ->
  s.(sentiment) = e.(sentiment) /\ decay_fields s = decay_fields e.
Proof.
  unfold categorizeEmail, valid_email. intros H.
  destruct (negb (String.eqb (_id e) "")); cbn [rbind] in H; [|discriminate].
  cbv zeta in H. apply Ok_inj in H. subst s.
  destruct (negb (Js.truthy (category e))); [destruct (c_detected _)|];
    now split.
Qed.

Lemma processAttachments_tone (e s : CachedMessage) :
  processAttachments (Some e) = Ok s ->
  s.(sentiment) = e.(sentiment) /\ decay_fields s = decay_fields e.
Proof.
  unfold processAttachments, valid_email. intros H.
  destruct (negb (String.eqb (_id e) "")); cbn [rbind] in H; [|discriminate].
  destruct (attachments e) as [[|a atts]|];
    cbv zeta in H; apply Ok_inj in H; subst s; now split.
Qed.

Section PipelineTone.

Variable contacts : string.
Variable Date_getTime : string -> option Z.
Variable Math_exp : Q -> Q.
Variable toISOString : Z -> string.
Variable converse : CachedMessage -> result AiReply.

(** In the pipeline the sentiment pass is idle whenever the language model
    names a sentiment: the message keeps the model's sentiment, and its
    sentiment metadata, decay factor and decay flag are the ones it came
    with, so no decay is applied. *)
Theorem enrich_skips_decay (now : Z) (e s : CachedMessage) (data : AiData) :
  converse e = Ok (Parsed data) ->
  Js.truthy data.(ai_sentiment) = true ->
  enrich contacts Date_getTime Math_exp toISOString converse now (Some e)
  = Ok s ->
  s.(sentiment) = data.(ai_sentiment) /\ decay_fields s = decay_fields e.
Proof.
  intros Hconv Htone H. unfold enrich in H.
  apply rbind_inv in H as (s1 & H1 & H).
  apply rbind_inv in H as (s2 & H2 & H).
  apply rbind_inv in H as (s3 & H3 & H).
  apply rbind_inv in H as (s4 & H4 & H).
  assert (T1 : s1.(sentiment) = data.(ai_sentiment)
               /\ decay_fields s1 = decay_fields e).
  { unfold enhancedSummarize, valid_email in H1.
    destruct (negb (String.eqb (_id e) "")); cbn [rbind] in H1; [|discriminate].
    rewrite Hconv in H1. cbn [rbind] in H1. unfold enhanced_with in H1.
    destruct (ai_extendedSummary data), (ai_shortSummary data),
      (ai_actionItems data), (ai_keyPeople data), (ai_deadlines data),
      (ai_importanceScore data) as [imp|], (ai_spamScore data) as [spam|],
      (ai_category data), (ai_sentiment data); try discriminate.
    destruct (in_unit imp && in_unit spam); [|discriminate].
    apply Ok_inj in H1. subst s1. now split. }
  apply applyAdvancedScoring_tone in H2 as [S2 D2].
  apply categorizeEmail_tone in H3 as [S3 D3].
  apply processAttachments_tone in H4 as [S4 D4].
  destruct T1 as [S1 D1].
  unfold applySentimentAnalysis, valid_email in H.
  destruct (negb (String.eqb (_id s4) "")); cbn [rbind] in H; [|discriminate].
  rewrite S4, S3, S2, S1, Htone in H. injection H as <-.
  split; congruence.
Qed.

End PipelineTone.

Lemma enrich_skips_decay_witness :
  exists s,
    enrich "" sample_dates exp_series sample_iso invoice_reply ten_days_later
           (Some invoice_mail) = Ok s
    /\ s.(sentiment) = Some "Neutral"
    /\ decay_fields s = decay_fields invoice_mail.
Proof.
  pose (s := match enrich "" sample_dates exp_series sample_iso invoice_reply
                     ten_days_later (Some invoice_mail) with
             | Ok s => s
             | Throw _ => invoice_mail
             end).
  assert (Hr : enrich "" sample_dates exp_series sample_iso invoice_reply
                 ten_days_later (Some invoice_mail) = Ok s)
    by (vm_compute; reflexivity).
  exists s. split; [exact Hr|].
  exact (enrich_skips_decay "" sample_dates exp_series sample_iso invoice_reply
           ten_days_later invoice_mail s _ eq_refl eq_refl Hr).
Defined.

(** ** Resetting the summarization queue *)

Section Reset.

Variable userId : string.
Variable toISOString : Z -> string.

Local Abbreviation reset := (MailCache.resetSummarizationQueue userId toISOString).

(** For an index with a non-empty inbox, the reset always completes; it
    replaces the queue by the inbox, whatever was still waiting in it, and
    leaves the documents, [ids] and the two views as they were. *)
Theorem resetSummarizationQueue_requeues (now : Z) (w : world)
    (idx : CachedIds) (inb : list string) :
  index_of userId w = Some idx ->
  idx.(inbox) = Some inb ->
  inb <> [] ->
  exists w' idx',
    reset now w = (Ok tt, w')
    /\ w'.(mail) = w.(mail)
    /\ index_of userId w' = Some idx'
    /\ idx'.(summarizationQueue) = Some inb
    /\ idx'.(ids) = idx.(ids)
    /\ idx'.(inbox) = idx.(inbox)
    /\ idx'.(deletables) = idx.(deletables)
    /\ idx'.(newMail) = idx.(newMail).
Proof.
  intros Hidx Hinb Hne. unfold MailCache.resetSummarizationQueue.
  unfold bind at 1. unfold read_user.
  change (users w !! cacheIdsKey userId) with (index_of userId w).
  rewrite Hidx, Hinb. destruct inb as [|x0 r]; [contradiction|].
  unfold bind, write_user, logInfo, emit. cbn [mail users trace].
  eexists. eexists. split; [reflexivity|]. cbn [mail users].
  split; [reflexivity|].
  split; [unfold index_of; cbn [users]; apply lookup_insert_eq|].
  cbn [summarizationQueue ids inbox deletables newMail].
  repeat split.
Qed.

End Reset.

Lemma resetSummarizationQueue_requeues_witness :
  exists w',
    MailCache.resetSummarizationQueue "u" sample_iso 0 indexed_mailbox
    = (Ok tt, w')
    /\ persisted_queue "u" w' = Some ["u#a#m1"; "u#a#m2"].
Proof.
  destruct (resetSummarizationQueue_requeues "u" sample_iso 0 indexed_mailbox
              sample_index ["u#a#m1"; "u#a#m2"])
    as (w' & idx' & Hrun & _ & Hidx & Hq & _);
    [vm_compute; reflexivity|reflexivity|discriminate|].
  exists w'. split; [exact Hrun|]. unfold persisted_queue. now rewrite Hidx.
Defined.

